(* ===== verification/_CoqProject ===== *)
-Q . S2P
Prelude.v
PyStr.v
PyInt.v
PyFloat.v
DecFloat.v
Csv.v
Fs.v
Prog.v
Db.v
World.v
Normalizer.v
Loader.v
Aggregator.v
Fetcher.v
Pipeline.v
