(* ===== verification/Prelude.v ===== *)
(** * Verification of the Naver search-interest ETL pipeline

    The program under [src/src/etl/interest/] is a four-stage batch
    pipeline, each stage a Python script:

    - [run_naver_trend_crawl.py]      (Trend Fetcher)  catalog + API  -> raw CSV
    - [normalize_naver_detail.py]     (Normalizer)     raw CSV        -> normalized CSV
    - [load_naver_interest_detail.py] (Detail Loader)  normalized CSV -> detail table
    - [aggregate_naver_interest.py]   (Aggregator)     detail table   -> summary table

    The stages share no memory: they interact through two files per run
    and two database tables.  What each stage does is short; what it
    _means_ rests on the behaviour of the Python builtins, of the [csv]
    module and of the SQL statements it calls, so the development models
    those as well, and proves the stages correct on top of them.

    ** Files of the development, in the order they build

    Libraries (what the scripts call):

    - [Prelude]  (this file) the exceptions [exn] and the type [result]
      of a call that returns or raises, with its monad instances; the
      tactics ([case_result], [inv_result], [same_result], [bool_hyps]),
      the hint databases [py] and [pyr], and the lemmas on lists and
      strings the components share.
    - [PyStr]    [str.strip], [len], the slice [s[:n]] and truthiness.
    - [PyInt]    [int(s)] on decimal literals ([py_int], [int_of_str])
      and [str(n)] ([str_of_int]); their round trip.
    - [PyFloat]  what the stages need of [float]: the class [FloatOps]
      ([float(s)], [repr], finiteness, the value as a rational) and its
      laws [FloatLaws].  The stages are verified for every instance.
    - [DecFloat] an instance that computes: finite values are exact
      decimal numbers in normal form; [dec_of_str] reads what [float()]
      reads, [dec_repr] prints as [repr] does; the laws are proved.
    - [Csv]      [csv.DictWriter] ([write_dict_rows]) and
      [csv.DictReader] ([read_dict_rows]) for the default dialect, as
      CPython implements them: the writer's minimal quoting, the
      translation of line ends by a file opened in text mode
      ([universal_newlines]), and the reader's state machine ([step],
      [read_chars]); dict access [row[k]] ([getitem]) and [row.get(k)].
    - [Fs]       paths and files: [pathlib]'s [/], [exists], reading
      and writing a text file.
    - [Prog]     the monad [prog S E A] of a function that prints lines
      of type [E], changes a state [S] and returns an [A] or raises;
      [try_skip] is [try: ... except ...: continue], [catch] a [try]
      with a handler, [fold_m] a [for] loop, [atomically] a block whose
      changes are undone when it raises, [zoom] a program run on a part
      of a larger state.
    - [Db]       the tables and the four SQL statements of the sources:
      [select_models] on the catalog (executed with its named
      placeholders and their bindings, [execute_select_models]),
      [upsert_detail], [select_avg], [upsert_summary], with MySQL's
      rules for [ON DUPLICATE KEY], [NULL] and [AVG]; [total] and
      [count] are the sum and the number of the values of a group.
    - [World]    the state the stages share: the files, the two tables
      and the clock; [transaction] is [with engine.begin() as conn].

    Stages (one Module each, with the name of the source's function):

    - [Normalizer]  [normalize_detail], its loop [normalize_rows] and
      loop body [normalize_row] ([normalize_naver_detail.py], lines
      15-88), with every branch, [continue] and [print].
    - [Loader]      [load_detail], its loop [load_rows], the parameters
      [params] of a row and [execute]
      ([load_naver_interest_detail.py], lines 19-74); [appended] and
      [updates] split the rows of a file into those whose key holds a
      [NULL] and those whose key is complete.
    - [Aggregator]  [fetch_aggregated_naver_index],
      [upsert_model_monthly_interest] and [run_aggregate]
      ([aggregate_naver_interest.py], lines 13-111); [ratios_of] is the
      list of the non-[NULL] ratios of a model and month, [agg_le] the
      order of [ORDER BY month, model_id].
    - [Fetcher]     [fetch_target_models], with the [placeholders] and
      [params] it builds for the brands of the query, and
      [run_naver_trend_crawl] with its loops over the models, the
      devices, the genders and the data points
      ([run_naver_trend_crawl.py], lines 21-189).  Its state [env] adds
      the catalog table and the trend service to the files; the client
      is the class [TrendClient]; [slept] lists the delays of a run.
    - [Pipeline]    the stages in sequence, and what consecutive
      stages achieve together: Fetcher and Normalizer, Normalizer and
      Loader, and the three stages from the raw file to the summary
      table.

    ** The method

    Each stage is a program of [prog world event]: a function of the
    source is one definition, composed of the same calls in the same
    order.  Beside it stands a specification written as a pure function
    ([Normalizer.classify_rows], [Loader.load_loop],
    [Aggregator.upsert_loop], [Fetcher.crawl]), and a refinement lemma
    shows that running the program gives exactly what the
    specification computes: the lines printed, the final state and the
    value or exception ([normalize_detail_run], [load_detail_run],
    [run_aggregate_run], [run_crawl]).  The properties follow from the
    specification by short proofs.

    ** What the theorems show

    - Fetcher: the raw file holds the header and one record per data
      point that has a period and a ratio, in the order of the loops;
      the service receives one request per model, device and gender;
      no failure of a call aborts the run; without a target model
      nothing is written; the placeholders of the catalog query are
      bound to the brands, in order, and an empty list of brands makes
      the query fail; nothing but the raw file is touched; the run
      sleeps once per answer that holds a data point (never after an
      empty answer or a failed call, although the help of
      [--sleep-sec] speaks of a delay between the calls)
      ([run_naver_trend_crawl_delays]).
    - Normalizer: a valid row is kept with the month [date[:7] + "-01"]
      and only valid rows are kept; each kind of bad row is skipped
      with the warning the source prints; the output file holds the
      kept rows in order under the header; running the stage on the
      same input again changes nothing; nothing but the output file is
      touched; the only exceptions are [FileNotFoundError] and
      [TypeError] (a record too short to have a [model_id]).
    - Loader: the transaction is atomic (an exception leaves the tables
      as they were); on success every row is upserted in file order;
      the unique key stays unique; loading a file whose rows have all
      three labels a second time, at whatever time, changes nothing
      ([load_detail_idempotent]); in general a second load of the
      same file leaves the table of the first load followed by one new
      row for every row of the file that has an empty label, because
      the key of such a row holds a [NULL] ([load_detail_twice]).
    - Aggregator: the query returns one row per model and month of
      the detail table, in the order of [ORDER BY], whose index [x] is
      [NULL] when the group has no ratio and otherwise satisfies
      [x * count = total] over the ratios of the group
      ([fetch_aggregated_naver_index_rows]); the summary table holds
      the mean of every group, and the mean lies between any two
      bounds of the ratios ([run_aggregate_bounds]); the other columns
      of existing rows are never altered; keys without a mean are not
      written; the key stays unique; atomicity; the detail table and
      the files are untouched; the empty table gives the warning and
      no write; a second run, at whatever time, changes nothing
      ([run_aggregate_idempotent]).
    - Tables: on a conflict the row keeps its place, its key columns
      and its [created_at], and only [ratio] is assigned
      ([upsert_detail_conflict], stated column by column); the upsert
      is idempotent on keys without [NULL] and commutes with the
      upsert of another key of the table; the detail table implements
      a finite map on such keys.
    - Round trips: [int(str(n)) = n], [float(repr(x)) = x], and what
      the CSV writer writes the reader reads back (for fields without a
      carriage return).
    - Pipeline: the Normalizer reads the records the Fetcher wrote and
      keeps the row of every data point with a period of seven
      characters or more and a [float] ratio; after normalizing and
      loading, the detail table is the old table with every valid raw
      row upserted under its key, provided the store accepts the kept
      rows ([acceptable]); a kept row whose ratio is not finite (the
      Normalizer lets [nan] and [inf] through) makes the load raise
      and leaves the tables as they were
      ([normalize_then_load_not_finite]); after normalizing, loading
      and aggregating, every model and month of the detail table that
      has a ratio has its mean in the summary table
      ([normalize_load_aggregate]).

    Each theorem with hypotheses has a witness that applies it to a
    concrete run; the examples evaluate the design's scenarios.

    ** Conventions, bounds and abstractions

    - A Python [str] is a [string]: a sequence of bytes.  The sources
      only ever inspect ASCII characters (white space, digits, the CSV
      punctuation), so a UTF-8 encoded text is handled byte by byte with
      the same result, except that [len] and the slice [[:7]] count
      bytes where Python counts code points, that [strip] does not
      remove the non-ASCII Unicode white space, and that [int] does
      not read the non-ASCII Unicode digits.  The theorems are exact
      for ASCII text.
    - A Python [int] is a [Z]: it does not overflow.  CPython's limit
      of 4300 digits on [int(s)] is not modelled.
    - String comparison in the statements ([brand_name IN], [ORDER BY],
      the unique keys) is equality and order of bytes: no collation
      that ignores case or trailing spaces.
    - A [float] is abstract in the theorems.  The instance [DecFloat]
      is exact where binary64 rounds: it agrees with CPython on
      literals of at most 15 significant digits in the normal range.
      [AVG] is exact, a rational number, and the [float(...)] the
      Aggregator applies to it is the identity: the rounding of a
      DOUBLE column is not modelled, so the theorems on means bound
      the exact mean.
    - A Python exception is a value [Raise e]; a function that cannot
      raise returns its value directly.
    - Every loop runs over a list (the records of a file, the rows of a
      query, the models, the data points of an answer), so every
      definition is structurally recursive and total: no fuel is
      needed.
    - The trend service is any state machine that answers a request
      with a list of data points or an exception ([TrendClient]); a
      [ratio] is a JSON number, an [int] or a [float].  Constructing
      the client is assumed to succeed.
    - The raw file is written record by record, as if unbuffered; a
      delay ([time.sleep]) is an event of the run.
    - The columns of the catalog are not [NULL], and rows that are
      equal under [ORDER BY] keep the order of the table.
    - [NOW()] is the field [now] of the state: one instant per run,
      so all the rows a run inserts carry the same [created_at] or
      [updated_at]; [set_now] moves the clock between two runs.
    - The schema of the tables is not in the repository.  The columns
      are those the statements name; the unique keys (the five key
      columns of the detail table, model and month of the summary
      table) are those of the design, which [ON DUPLICATE KEY]
      presupposes; every other constraint is the class [Db.Schema],
      for which the theorems hold whatever the instance.
    - The store refuses a detail row whose ratio is not finite, whose
      month is not a date or that the schema rejects
      ([execute_upsert_detail]); these refusals stand for those of the
      driver and of MySQL.
    - A transaction that raises is rolled back ([atomically]): this is
      the contract of [engine.begin()], taken as given.
    - Definitions keep the names of the source where there is one.

    ** What is not modelled

    - The trend client itself ([NaverDatalabClient]) and the engine
      factory ([get_engine]): their sources are not in the repository.
      Constructing either is assumed to succeed.
    - The command line ([main] and [argparse] in the four scripts).
    - The codec [utf-8-sig]: files are modelled after decoding, and
      are read whole, so a decoding error cannot interrupt a loop.
    - [mkdir] of the output directory, and failures of the file system
      other than a missing file.
    - Connection handling of the database driver, and other clients
      writing to the tables while a stage runs.
    - The CSV reader's limit on the size of a field. *)

From Stdlib Require Import Ascii ZArith.
From stdpp Require Import base tactics option list strings.

(** ** Exceptions and results *)

(** The exceptions the four scripts can raise or catch. *)
Inductive exn : Type :=
| KeyError (key : string)
| ValueError
| TypeError
| FileNotFoundError (path : list string)
| CsvError
| DbError
| ApiError (msg : string).

#[export] Instance exn_eq_dec : EqDecision exn.
Proof. solve_decision. Defined.

(** The outcome of a call that may raise. *)
Inductive result (A : Type) : Type :=
| Ok (a : A)
| Raise (e : exn).
Arguments Ok {A} a.
Arguments Raise {A} e.

#[export] Instance result_eq_dec `{EqDecision A} : EqDecision (result A).
Proof. solve_decision. Defined.

#[export] Instance result_ret : MRet result := @Ok.
#[export] Instance result_bind : MBind result := λ A B f r,
  match r with Ok a => f a | Raise e => Raise e end.
#[export] Instance result_fmap : FMap result := λ A B f r,
  match r with Ok a => Ok (f a) | Raise e => Raise e end.

(** [of_option e o]: the value of [o], or the exception [e]. *)
Definition of_option {A} (e : exn) (o : option A) : result A :=
  match o with Some a => Ok a | None => Raise e end.

(** [l[:n]] for a list: a negative [n] counts from the end. *)
Definition list_slice_to {A} (n : Z) (l : list A) : list A :=
  if (0 <=? n)%Z then take (Z.to_nat n) l
  else take (length l - Z.to_nat (- n)) l.

(** [enumerate(l, start)] *)
Definition enumerate {A} (start : nat) (l : list A) : list (nat * A) :=
  zip (seq start (length l)) l.

Declare Scope py_scope.
Delimit Scope py_scope with py.

(** ** Hint databases and tactics *)

(** [py] holds the rewriting rules that evaluate the builtins' models on
    constructors; [pyr] the lemmas that [eauto with pyr] chains. *)
Create HintDb pyr discriminated.
Create Rewrite HintDb py.

(** Case analysis on the scrutinee of the first [match] of the goal that
    is a [result] or an [option], keeping the equation. *)
Ltac case_result :=
  match goal with
  | |- context [match ?r with Ok _ => _ | Raise _ => _ end] =>
      let E := fresh "E" in destruct r eqn:E
  | |- context [match ?o with Some _ => _ | None => _ end] =>
      let E := fresh "E" in destruct o eqn:E
  end.

(** Invert hypotheses that equate constructors of [result]. *)
Ltac inv_result :=
  repeat match goal with
  | H : Ok _ = Ok _ |- _ => injection H as H; subst
  | H : Ok _ = Raise _ |- _ => discriminate H
  | H : Raise _ = Ok _ |- _ => discriminate H
  | H : Raise _ = Raise _ |- _ => injection H as H; subst
  | H : Some _ = Some _ |- _ => injection H as H; subst
  | H : Some _ = None |- _ => discriminate H
  | H : None = Some _ |- _ => discriminate H
  end.

(** Two successful results of the same call are the same value. *)
Ltac same_result :=
  repeat match goal with
  | H1 : ?o = Ok ?x, H2 : ?o = Ok ?y |- _ =>
      assert (y = x) by congruence; subst y; clear H2
  end.

(** Split the boolean conjunctions and negations of the hypotheses. *)
Ltac bool_hyps :=
  repeat match goal with
  | H : _ && _ = true |- _ => apply andb_true_iff in H; destruct H
  | H : negb _ = true |- _ => apply negb_true_iff in H
  | H : negb _ = false |- _ => apply negb_false_iff in H
  | H : _ || _ = false |- _ => apply orb_false_iff in H; destruct H
  | H : bool_decide _ = true |- _ => apply bool_decide_eq_true in H
  | H : bool_decide _ = false |- _ => apply bool_decide_eq_false in H
  | H : (_ <? _)%Z = true |- _ => apply Z.ltb_lt in H
  | H : (_ <? _)%Z = false |- _ => apply Z.ltb_ge in H
  | H : (_ <=? _)%Z = true |- _ => apply Z.leb_le in H
  | H : (_ <=? _)%Z = false |- _ => apply Z.leb_gt in H
  end.

(** ** Results: the laws the components use *)

Section result_lemmas.
Context {A B : Type}.
Implicit Types (r : result A) (f : A → result B) (o : option A).

Lemma bind_Ok a f : (Ok a ≫= f) = f a.
Proof. reflexivity. Qed.

Lemma bind_Raise e f : (Raise e ≫= f) = Raise e.
Proof. reflexivity. Qed.

Lemma bind_Ok_inv r f b :
  r ≫= f = Ok b → ∃ a, r = Ok a ∧ f a = Ok b.
Proof. destruct r; [eauto | discriminate]. Qed.
End result_lemmas.

#[export] Hint Rewrite @bind_Ok @bind_Raise : py.

(** ** Lists and options *)

Section list_lemmas.
Context {A B : Type}.
Implicit Types (l : list A) (f : A → option B).

(** [omap] is the filter-and-collect of the skip-on-error loops. *)
Lemma omap_length_le f l : length (omap f l) ≤ length l.
Proof. induction l as [|a l IH]; csimpl; [done|]. destruct (f a); simpl; lia. Qed.

Lemma omap_all_Some f l :
  Forall (λ a, is_Some (f a)) l → length (omap f l) = length l.
Proof.
  induction 1 as [|a l [b Hb] _ IH]; csimpl; [done|]. rewrite Hb. simpl. lia.
Qed.

Lemma omap_all_None f l :
  Forall (λ a, f a = None) l → omap f l = [].
Proof. induction 1 as [|a l Ha _ IH]; csimpl; [done|]. by rewrite Ha. Qed.

Lemma omap_sublist_fmap (g : A → B) f l :
  (∀ a b, f a = Some b → b = g a) → omap f l `sublist_of` g <$> l.
Proof.
  intros Hfg. induction l as [|a l IH]; csimpl; [constructor|].
  destruct (f a) as [b|] eqn:E.
  - rewrite (Hfg _ _ E). by constructor.
  - by constructor.
Qed.
Lemma list_slice_to_nonneg (n : Z) (l : list A) :
  (0 ≤ n)%Z → list_slice_to n l = take (Z.to_nat n) l.
Proof. intros Hn. unfold list_slice_to. by rewrite (proj2 (Z.leb_le 0 n) Hn). Qed.

Lemma list_slice_to_neg (n : Z) (l : list A) :
  (n < 0)%Z → list_slice_to n l = take (length l - Z.to_nat (- n)) l.
Proof. intros Hn. unfold list_slice_to. by rewrite (proj2 (Z.leb_gt 0 n) Hn). Qed.

(** A slice is a prefix of the list. *)
Lemma list_slice_to_prefix (n : Z) (l : list A) : list_slice_to n l `prefix_of` l.
Proof. unfold list_slice_to. case_match; apply prefix_take. Qed.

Lemma enumerate_nil start : enumerate start ([] : list A) = [].
Proof. reflexivity. Qed.

Lemma enumerate_cons start (x : A) l :
  enumerate start (x :: l) = (start, x) :: enumerate (S start) l.
Proof. reflexivity. Qed.

End list_lemmas.

(** ** Strings

    [string] has few lemmas in the libraries; these are the ones the
    components share.  [str_all p s] holds when every character of [s]
    satisfies [p]; [str_take] and [str_drop] split a string at an
    index. *)

Fixpoint str_all (p : ascii → bool) (s : string) : bool :=
  match s with
  | EmptyString => true
  | String c s' => p c && str_all p s'
  end.

Fixpoint str_take (n : nat) (s : string) : string :=
  match n, s with
  | S n', String c s' => String c (str_take n' s')
  | _, _ => EmptyString
  end.

Fixpoint str_drop (n : nat) (s : string) : string :=
  match n, s with
  | S n', String c s' => str_drop n' s'
  | _, _ => s
  end.

Section string_lemmas.
Implicit Types (s t u : string) (c : ascii) (p : ascii → bool) (n : nat).

(** [String.app] does not reduce under [simpl]: its two equations. *)
Lemma str_app_nil_l s : "" +:+ s = s.
Proof. reflexivity. Qed.

Lemma str_app_cons c s t : String c s +:+ t = String c (s +:+ t).
Proof. reflexivity. Qed.

Lemma str_app_nil_r s : s +:+ "" = s.
Proof. induction s as [|c s IH]; [done|]. by rewrite str_app_cons, IH. Qed.

Lemma str_app_assoc s t u : (s +:+ t) +:+ u = s +:+ (t +:+ u).
Proof. induction s as [|c s IH]; [done|]. by rewrite !str_app_cons, IH. Qed.

Lemma str_length_app s t :
  String.length (s +:+ t) = String.length s + String.length t.
Proof. induction s as [|c s IH]; [done|]. rewrite str_app_cons. simpl. by rewrite IH. Qed.

Lemma str_app_eq_nil s t : s +:+ t = "" ↔ s = "" ∧ t = "".
Proof. destruct s; [|rewrite str_app_cons]; split; try done; by intros [? ?]. Qed.

Lemma str_length_0 s : String.length s = 0 ↔ s = "".
Proof. by destruct s. Qed.

Lemma str_all_cons p c s : str_all p (String c s) = p c && str_all p s.
Proof. reflexivity. Qed.

Lemma str_all_app p s t : str_all p (s +:+ t) = str_all p s && str_all p t.
Proof.
  induction s as [|c s IH]; [done|]. rewrite str_app_cons. simpl.
  by rewrite IH, andb_assoc.
Qed.

Lemma str_all_impl p q s :
  (∀ c, p c = true → q c = true) → str_all p s = true → str_all q s = true.
Proof.
  intros Hpq. induction s as [|c s IH]; simpl; [done|].
  intros [? ?]%andb_true_iff. rewrite Hpq, IH; done.
Qed.

Lemma str_take_drop n s : str_take n s +:+ str_drop n s = s.
Proof.
  revert s. induction n as [|n IH]; intros [|c s]; simpl; try done.
  by rewrite str_app_cons, IH.
Qed.

Lemma str_take_length n s :
  String.length (str_take n s) = n `min` String.length s.
Proof.
  revert s. induction n as [|n IH]; intros [|c s]; simpl; try done.
  by rewrite IH.
Qed.

Lemma str_take_app_length s t : str_take (String.length s) (s +:+ t) = s.
Proof.
  induction s as [|c s IH]; [by destruct t|].
  rewrite str_app_cons. simpl. by rewrite IH.
Qed.

Lemma str_take_take n s : str_take n (str_take n s) = str_take n s.
Proof.
  revert s. induction n as [|n IH]; intros [|c s]; simpl; try done.
  by rewrite IH.
Qed.

Lemma str_take_ge n s : String.length s ≤ n → str_take n s = s.
Proof.
  revert s. induction n as [|n IH]; intros [|c s]; simpl; try done; [lia|].
  intros ?. rewrite IH; [done | lia].
Qed.

Lemma str_all_take p n s : str_all p s = true → str_all p (str_take n s) = true.
Proof.
  revert s. induction n as [|n IH]; intros [|c s]; simpl; try done.
  intros [? ?]%andb_true_iff. rewrite IH; [by rewrite andb_true_r | done].
Qed.

Lemma str_all_drop p n s : str_all p s = true → str_all p (str_drop n s) = true.
Proof.
  revert s. induction n as [|n IH]; intros [|c s]; simpl; try done.
  intros [? ?]%andb_true_iff. by apply IH.
Qed.

Lemma str_take_cons n c s : str_take (S n) (String c s) = String c (str_take n s).
Proof. reflexivity. Qed.

Lemma str_app_inv_head s t u : s +:+ t = s +:+ u → t = u.
Proof. apply (inj (String.app s)). Qed.

Lemma str_app_length_absurd s t c : String c (s +:+ t) ≠ t.
Proof.
  intros Heq%(f_equal String.length). simpl in Heq.
  rewrite str_length_app in Heq. lia.
Qed.

Lemma str_app_inv_tail s t u : s +:+ u = t +:+ u → s = t.
Proof.
  revert t. induction s as [|c s IH]; intros [|d t];
    rewrite ?str_app_nil_l, ?str_app_cons; intros Heq; try done.
  - symmetry in Heq. by apply str_app_length_absurd in Heq.
  - by apply str_app_length_absurd in Heq.
  - injection Heq as -> Heq. f_equal. by apply IH.
Qed.
End string_lemmas.

#[export] Hint Rewrite str_app_nil_l str_app_cons str_app_nil_r str_app_assoc str_length_app
  str_all_app str_take_drop str_take_length str_take_app_length : py.
