(* ===== verification/PyStr.v ===== *)
(** * Python [str] operations used by the pipeline

    [normalize_naver_detail.py] cleans every field with [str.strip()],
    tests fields for emptiness, measures the date with [len] and cuts it
    with the slice [date_str[:7]]; [int()] and [float()] strip their
    argument themselves, with a smaller set of white-space characters.
    This file gives those operations on [string] with the facts the
    stages rely on: what stripping removes, that it is idempotent, and
    when it leaves a string alone.  Stripping is defined once, for any
    predicate on characters, and instantiated twice. *)

From Stdlib Require Import Ascii.
From stdpp Require Import base tactics strings.
From S2P Require Import Prelude.

Module PyStr.

(** [str.isspace] on the ASCII range: tab, line feed, vertical tab, form
    feed, carriage return, the four separators 0x1c-0x1f and the space. *)
Definition is_space (c : ascii) : bool :=
  match c with
  | "009" | "010" | "011" | "012" | "013"
  | "028" | "029" | "030" | "031" | " " => true
  | _ => false
  end%char.

(** The white space that [int()] and [float()] skip around a literal
    (CPython's [Py_ISSPACE]): the six characters of C's [isspace]. *)
Definition c_isspace (c : ascii) : bool :=
  match c with
  | "009" | "010" | "011" | "012" | "013" | " " => true
  | _ => false
  end%char.

(** Remove the leading characters that satisfy [p]. *)
Fixpoint lstrip_by (p : ascii → bool) (s : string) : string :=
  match s with
  | EmptyString => EmptyString
  | String c s' => if p c then lstrip_by p s' else s
  end.

(** Remove the trailing characters that satisfy [p]: a character is
    dropped when it satisfies [p] and nothing remains after it. *)
Fixpoint rstrip_by (p : ascii → bool) (s : string) : string :=
  match s with
  | EmptyString => EmptyString
  | String c s' =>
      match rstrip_by p s' with
      | EmptyString => if p c then EmptyString else String c EmptyString
      | r => String c r
      end
  end.

Definition strip_by (p : ascii → bool) (s : string) : string :=
  rstrip_by p (lstrip_by p s).

(** [s.strip()] *)
Definition strip (s : string) : string := strip_by is_space s.

(** The argument of [int()] or [float()] without the white space
    around it. *)
Definition c_strip (s : string) : string := strip_by c_isspace s.

(** [len(s)] *)
Definition len (s : string) : nat := String.length s.

(** [s[:n]] for [n >= 0] *)
Definition slice_to (n : nat) (s : string) : string := str_take n s.

(** [bool(s)]: a string is true when it is not empty. *)
Definition truthy (s : string) : bool :=
  match s with EmptyString => false | String _ _ => true end.

(** No character satisfying [p] at the first position. *)
Definition head_clean (p : ascii → bool) (s : string) : bool :=
  match s with EmptyString => true | String c _ => negb (p c) end.

(** No character satisfying [p] at the last position. *)
Fixpoint last_clean (p : ascii → bool) (s : string) : bool :=
  match s with
  | EmptyString => true
  | String c EmptyString => negb (p c)
  | String _ s' => last_clean p s'
  end.

(** A string that [strip_by p] leaves unchanged. *)
Definition stripped (p : ascii → bool) (s : string) : bool :=
  head_clean p s && last_clean p s.

Lemma truthy_true s : truthy s = true ↔ s ≠ "".
Proof. by destruct s. Qed.

Lemma truthy_false s : truthy s = false ↔ s = "".
Proof. by destruct s. Qed.

Lemma c_isspace_is_space c : c_isspace c = true → is_space c = true.
Proof. by destruct c as [[] [] [] [] [] [] [] []]. Qed.

Section strip_by.
Context (p : ascii → bool).
Implicit Types (s t l r : string) (c : ascii).

(** *** [lstrip_by] *)

Lemma lstrip_head_clean s : head_clean p (lstrip_by p s) = true.
Proof.
  induction s as [|c s IH]; simpl; [done|].
  destruct (p c) eqn:E; simpl; [done | by rewrite E].
Qed.

Lemma lstrip_clean s : head_clean p s = true → lstrip_by p s = s.
Proof. destruct s as [|c s]; simpl; [done|]. by intros ->%negb_true_iff. Qed.

Lemma lstrip_all s : str_all p s = true → lstrip_by p s = "".
Proof.
  induction s as [|c s IH]; simpl; [done|].
  intros [-> ?]%andb_true_iff. auto.
Qed.

Lemma lstrip_app l s : str_all p l = true → lstrip_by p (l +:+ s) = lstrip_by p s.
Proof.
  induction l as [|c l IH]; [done|]. rewrite str_app_cons. simpl.
  intros [-> ?]%andb_true_iff. auto.
Qed.

Lemma lstrip_split s :
  ∃ l, s = l +:+ lstrip_by p s ∧ str_all p l = true.
Proof.
  induction s as [|c s (l & Hl & Hsp)]; simpl; [by exists ""|].
  destruct (p c) eqn:E; [|by exists ""].
  exists (String c l). rewrite str_app_cons. simpl. rewrite E, Hsp.
  by rewrite <- Hl.
Qed.

(** *** [rstrip_by] *)

Lemma rstrip_nil_iff s : rstrip_by p s = "" ↔ str_all p s = true.
Proof.
  induction s as [|c s IH]; simpl; [done|].
  destruct (rstrip_by p s) as [|d r] eqn:E.
  - destruct (p c); simpl; [|done]. by rewrite <- IH.
  - split; [done|]. intros [_ H]%andb_true_iff. by apply IH in H.
Qed.

Lemma rstrip_cons c s :
  rstrip_by p (String c s) =
    if p c && str_all p s then "" else String c (rstrip_by p s).
Proof.
  simpl. destruct (rstrip_by p s) as [|d r] eqn:E.
  - apply rstrip_nil_iff in E. rewrite E, andb_true_r. by destruct (p c).
  - assert (str_all p s = false) as ->.
    { apply not_true_is_false. intros H%rstrip_nil_iff. congruence. }
    by rewrite andb_false_r.
Qed.

Lemma rstrip_last_clean s : last_clean p (rstrip_by p s) = true.
Proof.
  induction s as [|c s IH]; [done|]. rewrite rstrip_cons.
  destruct (p c && str_all p s) eqn:E; [done|]. simpl.
  destruct (rstrip_by p s) as [|d r] eqn:Er; [|done].
  apply rstrip_nil_iff in Er. rewrite Er, andb_true_r in E. by rewrite E.
Qed.

Lemma last_clean_not_all c s :
  last_clean p (String c s) = true → str_all p (String c s) = false.
Proof.
  revert c. induction s as [|d s IH]; intros c; simpl.
  - intros ->%negb_true_iff. done.
  - intros H. apply IH in H. simpl in H. rewrite H. apply andb_false_r.
Qed.

Lemma rstrip_clean s : last_clean p s = true → rstrip_by p s = s.
Proof.
  induction s as [|c s IH]; [done|]. intros H. rewrite rstrip_cons.
  pose proof (last_clean_not_all _ _ H) as Hns. simpl in Hns.
  rewrite Hns. f_equal. apply IH. destruct s; [done|]. exact H.
Qed.

Lemma rstrip_head_clean s :
  head_clean p s = true → head_clean p (rstrip_by p s) = true.
Proof.
  destruct s as [|c s]; [done|]. intros Hc. rewrite rstrip_cons.
  simpl in Hc. apply negb_true_iff in Hc. rewrite Hc. simpl. by rewrite Hc.
Qed.

Lemma rstrip_split s :
  ∃ r, s = rstrip_by p s +:+ r ∧ str_all p r = true.
Proof.
  induction s as [|c s (r & Hr & Hsp)]; [by exists ""|].
  rewrite rstrip_cons. destruct (p c && str_all p s) eqn:E.
  - exists (String c s). by rewrite str_app_nil_l.
  - exists r. rewrite str_app_cons. by rewrite <- Hr.
Qed.

Lemma rstrip_app s r : str_all p r = true → rstrip_by p (s +:+ r) = rstrip_by p s.
Proof.
  intros Hr. induction s as [|c s IH].
  - rewrite str_app_nil_l. by apply rstrip_nil_iff.
  - rewrite str_app_cons, !rstrip_cons, IH, str_all_app, Hr.
    by rewrite andb_true_r.
Qed.

(** *** [strip_by] *)

(** The result has no character satisfying [p] at either end. *)
Lemma strip_by_stripped s : stripped p (strip_by p s) = true.
Proof.
  unfold stripped, strip_by. rewrite rstrip_last_clean, andb_true_r.
  apply rstrip_head_clean, lstrip_head_clean.
Qed.

(** A string with no such character at either end is left alone. *)
Lemma strip_by_id s : stripped p s = true → strip_by p s = s.
Proof.
  unfold stripped, strip_by. intros [Hh Hl]%andb_true_iff.
  by rewrite (lstrip_clean _ Hh), (rstrip_clean _ Hl).
Qed.

Lemma strip_by_idemp s : strip_by p (strip_by p s) = strip_by p s.
Proof. apply strip_by_id, strip_by_stripped. Qed.

(** Stripping removes a prefix and a suffix of characters satisfying
    [p], and nothing else. *)
Lemma strip_by_split s :
  ∃ l r, s = l +:+ strip_by p s +:+ r
         ∧ str_all p l = true ∧ str_all p r = true.
Proof.
  destruct (lstrip_split s) as (l & Hl & Hls).
  destruct (rstrip_split (lstrip_by p s)) as (r & Hr & Hrs).
  exists l, r. unfold strip_by. by rewrite <- Hr, <- Hl.
Qed.

Lemma strip_by_nil_iff s : strip_by p s = "" ↔ str_all p s = true.
Proof.
  unfold strip_by. rewrite rstrip_nil_iff. split; intros H.
  - destruct (lstrip_split s) as (l & Hl & Hls).
    rewrite Hl, str_all_app, Hls, H. done.
  - by rewrite lstrip_all.
Qed.

Lemma strip_by_app l s r :
  str_all p l = true → str_all p r = true →
  strip_by p (l +:+ s +:+ r) = strip_by p s.
Proof.
  intros Hl Hr. unfold strip_by. rewrite lstrip_app by done.
  destruct (str_all p s) eqn:Hs.
  - rewrite !lstrip_all; [done | done |]. by rewrite str_all_app, Hs, Hr.
  - destruct (lstrip_split s) as (l' & Hl' & Hls').
    assert (lstrip_by p s ≠ "") as Hne.
    { intros E. rewrite E, str_app_nil_r in Hl'. congruence. }
    pose proof (lstrip_head_clean s) as Hh.
    rewrite Hl' at 1. rewrite str_app_assoc, lstrip_app by done.
    rewrite lstrip_clean.
    + by apply rstrip_app.
    + destruct (lstrip_by p s); [done|]. by rewrite str_app_cons.
Qed.

Lemma strip_by_length_le s : String.length (strip_by p s) ≤ String.length s.
Proof.
  destruct (strip_by_split s) as (l & r & Hs & _).
  rewrite Hs at 2. rewrite !str_length_app. lia.
Qed.

(** A string without any character satisfying [p] is stripped. *)
Lemma stripped_none s :
  str_all (λ c, negb (p c)) s = true → stripped p s = true.
Proof.
  unfold stripped. intros H. apply andb_true_iff. split.
  - destruct s; simpl in *; [done|]. by apply andb_true_iff in H as [? _].
  - induction s as [|c s IH]; [done|]. simpl in H.
    apply andb_true_iff in H as [Hc Hs]. destruct s; [done|]. by apply IH.
Qed.
End strip_by.

(** A string stripped for [str.strip] is stripped for [int()] and
    [float()] as well. *)
Lemma stripped_c_isspace s : stripped is_space s = true → stripped c_isspace s = true.
Proof.
  unfold stripped. intros [Hh Hl]%andb_true_iff. apply andb_true_iff. split.
  - destruct s as [|c s]; [done|]. simpl in *.
    destruct (c_isspace c) eqn:E; [|done].
    by rewrite (c_isspace_is_space _ E) in Hh.
  - clear Hh. induction s as [|c s IH]; [done|]. destruct s as [|d s].
    + simpl in *. destruct (c_isspace c) eqn:E; [|done].
      by rewrite (c_isspace_is_space _ E) in Hl.
    + apply IH. exact Hl.
Qed.

Lemma c_strip_strip s : c_strip (strip s) = strip s.
Proof. apply strip_by_id, stripped_c_isspace, strip_by_stripped. Qed.

Lemma slice_to_length n s : len (slice_to n s) = n `min` len s.
Proof. apply str_take_length. Qed.

End PyStr.

#[export] Hint Rewrite PyStr.strip_by_idemp PyStr.slice_to_length
  PyStr.c_strip_strip : py.
#[export] Hint Resolve PyStr.strip_by_stripped PyStr.stripped_none
  PyStr.stripped_c_isspace : pyr.
