(* ===== verification/PyInt.v ===== *)
(** * Python [int(s)] and [str(n)]

    The normalizer and the loader convert the CSV field [model_id] with
    [int(row["model_id"])]; the writers print an [int] with [str].  A
    Python [int] is unbounded: it is a [Z] here.

    [int_of_str] follows CPython's [PyLong_FromString] in base 10: white
    space around the literal is skipped, one sign is accepted, and the
    digits may be grouped by single underscores that stand between two
    digits.  [None] stands for [ValueError].  The digits are read and
    printed with the Standard Library's [Decimal] numbers. *)

From Stdlib Require Import Ascii ZArith DecimalString DecimalZ DecimalPos.
From stdpp Require Import base tactics option strings.
From S2P Require Import Prelude PyStr.

Module PyInt.
Import PyStr.

Definition is_digit (c : ascii) : bool :=
  match c with
  | "0" | "1" | "2" | "3" | "4" | "5" | "6" | "7" | "8" | "9" => true
  | _ => false
  end%char.

(** The digits that follow a digit, without the underscores that group
    them: an underscore must be followed by a digit. *)
Fixpoint digits_after (s : string) : option string :=
  match s with
  | EmptyString => Some EmptyString
  | String c s' =>
      if is_digit c then String c <$> digits_after s'
      else if decide (c = "_"%char) then
        match s' with
        | String d s'' =>
            if is_digit d then String d <$> digits_after s'' else None
        | EmptyString => None
        end
      else None
  end.

(** A literal without its sign: it starts with a digit. *)
Definition digits_of (s : string) : option string :=
  match s with
  | String c s' => if is_digit c then String c <$> digits_after s' else None
  | EmptyString => None
  end.

(** The value of an unsigned literal. *)
Definition int_digits (s : string) : option Z :=
  d ← digits_of s; u ← NilEmpty.uint_of_string d; Some (Z.of_uint u).

(** [int(s)] for a [str] argument; [None] is [ValueError]. *)
Definition int_of_str (s : string) : option Z :=
  match c_strip s with
  | String c r =>
      if decide (c = "+"%char) then int_digits r
      else if decide (c = "-"%char) then Z.opp <$> int_digits r
      else int_digits (String c r)
  | EmptyString => None
  end.

(** [int(v)] for a value that is a [str] or [None]: [int(None)] raises
    [TypeError], a malformed literal [ValueError]. *)
Definition py_int (v : option string) : result Z :=
  match v with
  | None => Raise TypeError
  | Some s => of_option ValueError (int_of_str s)
  end.

(** [str(n)] *)
Definition str_of_int (n : Z) : string := NilZero.string_of_int (Z.to_int n).

(** ** Digits *)

Lemma is_digit_not_c_isspace c : is_digit c = true → c_isspace c = false.
Proof. by destruct c as [[] [] [] [] [] [] [] []]. Qed.

Lemma is_digit_not_space c : is_digit c = true → is_space c = false.
Proof. by destruct c as [[] [] [] [] [] [] [] []]. Qed.

Lemma is_digit_not_sign c : is_digit c = true → c ≠ "+"%char ∧ c ≠ "-"%char.
Proof. by destruct c as [[] [] [] [] [] [] [] []]. Qed.

Lemma uint_of_char_digit c u :
  is_digit c = true → is_Some (uint_of_char c (Some u)).
Proof. destruct c as [[] [] [] [] [] [] [] []]; try done; by eexists. Qed.

Lemma string_of_uint_digits u : str_all is_digit (NilEmpty.string_of_uint u) = true.
Proof. induction u; simpl; by rewrite ?IHu. Qed.

Lemma string_of_uint_nonnil u :
  u ≠ Decimal.Nil → NilZero.string_of_uint u = NilEmpty.string_of_uint u.
Proof. by destruct u. Qed.

Lemma string_of_uint_nonempty u : u ≠ Decimal.Nil → NilEmpty.string_of_uint u ≠ "".
Proof. by destruct u. Qed.

Lemma digits_after_all s : str_all is_digit s = true → digits_after s = Some s.
Proof.
  induction s as [|c s IH]; [done|]. simpl.
  intros [-> ?]%andb_true_iff. by rewrite IH.
Qed.

Lemma digits_of_all s : str_all is_digit s = true → s ≠ "" → digits_of s = Some s.
Proof.
  destruct s as [|c s]; [done|]. simpl.
  intros [-> ?]%andb_true_iff _. by rewrite digits_after_all.
Qed.

Lemma uint_of_string_digits s :
  str_all is_digit s = true → is_Some (NilEmpty.uint_of_string s).
Proof.
  induction s as [|c s IH]; [by eexists|]. simpl.
  intros [Hc [u ->]%IH]%andb_true_iff. by apply uint_of_char_digit.
Qed.

Lemma int_digits_uint u :
  u ≠ Decimal.Nil → int_digits (NilEmpty.string_of_uint u) = Some (Z.of_uint u).
Proof.
  intros Hu. unfold int_digits.
  rewrite digits_of_all by auto using string_of_uint_digits, string_of_uint_nonempty.
  simpl. by rewrite NilEmpty.usu.
Qed.

(** A string of digits has no white space at its ends. *)
Lemma digits_stripped s : str_all is_digit s = true → stripped c_isspace s = true.
Proof.
  intros H. apply stripped_none. revert H. apply str_all_impl.
  intros c Hc. by rewrite is_digit_not_c_isspace.
Qed.

(** ** [int_of_str] *)

(** [int()] ignores the white space around its argument. *)
Lemma int_of_str_ws l s r :
  str_all c_isspace l = true → str_all c_isspace r = true →
  int_of_str (l +:+ s +:+ r) = int_of_str s.
Proof. intros Hl Hr. unfold int_of_str, c_strip. by rewrite strip_by_app. Qed.

(** An unsigned string of digits is read as the number it denotes. *)
Lemma int_of_str_digits s :
  str_all is_digit s = true → s ≠ "" → int_of_str s = int_digits s.
Proof.
  intros Hd Hne. unfold int_of_str, c_strip.
  rewrite strip_by_id by by apply digits_stripped.
  destruct s as [|c s]; [done|]. simpl in Hd.
  apply andb_true_iff in Hd as [[? ?]%is_digit_not_sign _].
  by rewrite !decide_False.
Qed.

Lemma int_of_str_neg s :
  str_all is_digit s = true → s ≠ "" →
  int_of_str (String "-" s) = Z.opp <$> int_digits s.
Proof.
  intros Hd Hne. unfold int_of_str, c_strip. rewrite strip_by_id.
  - by rewrite decide_False, decide_True.
  - apply digits_stripped in Hd. unfold stripped in *.
    apply andb_true_iff in Hd as [_ Hl]. destruct s; [done|]. exact Hl.
Qed.

Lemma int_of_str_all_space s : str_all c_isspace s = true → int_of_str s = None.
Proof.
  intros H. unfold int_of_str, c_strip.
  by rewrite (proj2 (strip_by_nil_iff _ _) H).
Qed.

(** ** [str_of_int] *)

(** [str] of a number that is not negative prints the digits of a
    decimal number that denotes it. *)
Lemma str_of_int_nonneg a :
  (0 ≤ a)%Z →
  ∃ u, u ≠ Decimal.Nil ∧ str_of_int a = NilEmpty.string_of_uint u ∧ Z.of_uint u = a.
Proof.
  destruct a as [|p|p]; [| |lia]; intros _.
  - by exists (Decimal.D0 Decimal.Nil).
  - exists (Pos.to_uint p). pose proof (Unsigned.to_uint_nonnil p) as Hnn.
    split; [done|]. split.
    + unfold str_of_int. simpl. by apply string_of_uint_nonnil.
    + unfold Z.of_uint. by rewrite Unsigned.of_to.
Qed.

Lemma str_of_int_neg p :
  str_of_int (Z.neg p) = String "-" (str_of_int (Z.pos p)).
Proof. reflexivity. Qed.

Lemma str_of_int_nonneg_digits a :
  (0 ≤ a)%Z → str_all is_digit (str_of_int a) = true ∧ str_of_int a ≠ "".
Proof.
  intros (u & Hu & -> & _)%str_of_int_nonneg.
  auto using string_of_uint_digits, string_of_uint_nonempty.
Qed.

Lemma int_digits_str_of_int a : (0 ≤ a)%Z → int_digits (str_of_int a) = Some a.
Proof.
  intros (u & Hu & -> & <-)%str_of_int_nonneg. by apply int_digits_uint.
Qed.

(** What [str] prints of a number is a literal of that number. *)
Lemma int_of_str_of_int n : int_of_str (str_of_int n) = Some n.
Proof.
  destruct n as [|p|p].
  - reflexivity.
  - destruct (str_of_int_nonneg_digits (Z.pos p)) as [Hd Hne]; [lia|].
    rewrite int_of_str_digits by done. apply int_digits_str_of_int. lia.
  - destruct (str_of_int_nonneg_digits (Z.pos p)) as [Hd Hne]; [lia|].
    rewrite str_of_int_neg, int_of_str_neg by done.
    rewrite int_digits_str_of_int by lia. reflexivity.
Qed.

Lemma py_int_Ok v n : py_int v = Ok n ↔ ∃ s, v = Some s ∧ int_of_str s = Some n.
Proof.
  destruct v as [s|]; simpl; [|split; [done | by intros (? & ? & _)]].
  split.
  - destruct (int_of_str s) eqn:E; simpl; [|done]. intros [= ->]. eauto.
  - intros (? & [= <-] & ->). done.
Qed.

(** C39: [int(str(n)) == n] for every integer [n], also when the text
    is surrounded by white space: what the writer prints of a
    [model_id], the reader's [int()] reads back. *)
Theorem py_int_str_of_int n l r :
  str_all c_isspace l = true → str_all c_isspace r = true →
  py_int (Some (l +:+ str_of_int n +:+ r)) = Ok n.
Proof. intros Hl Hr. simpl. by rewrite int_of_str_ws, int_of_str_of_int. Qed.

Lemma py_int_str_of_int_witness :
  py_int (Some (" " +:+ str_of_int (-2025) +:+ String "010" "")) = Ok (-2025)%Z.
Proof. apply (py_int_str_of_int (-2025) " " (String "010" "")); reflexivity. Defined.

End PyInt.

#[export] Hint Resolve PyInt.string_of_uint_digits PyInt.digits_stripped : pyr.
