(* ===== verification/PyFloat.v ===== *)
(** * The interface to Python [float]

    The stages use a [float] in four ways: [float(s)] parses a CSV field
    (normalizer line 57, loader line 69), the CSV writer prints a value
    with [repr], the database refuses a value that is not finite, and
    the aggregator averages the stored values.  They never look inside
    a value, so the development states what it needs of [float] as an
    interface: [FloatOps] gives the operations, [FloatLaws] the facts
    about them that the stages' theorems assume.  [DecFloat] provides an
    instance that computes.

    The laws hold of CPython's binary64 [float]: [repr] prints the
    shortest literal that [float] reads back as the same value, in the
    characters of [repr_char]; [float()] skips the white space around
    its argument and accepts no empty literal. *)

From Stdlib Require Import Ascii QArith Qcanon.
From stdpp Require Import base tactics option strings.
From S2P Require Import Prelude PyStr.

Local Close Scope Q_scope.
Local Close Scope Qc_scope.

(** The characters [repr] of a [float] is made of: digits, the signs,
    the point, the exponent mark and the letters of [inf] and [nan]. *)
Definition repr_char (c : ascii) : bool :=
  match c with
  | "0" | "1" | "2" | "3" | "4" | "5" | "6" | "7" | "8" | "9"
  | "+" | "-" | "." | "e" | "i" | "n" | "f" | "a" => true
  | _ => false
  end%char.

Class FloatOps := {
  (** the values of type [float] *)
  float : Type;
  float_eq_dec :: EqDecision float;
  (** the representation invariant of the model's values *)
  float_wf : float → Prop;
  (** [float(s)] for a [str]; [None] is [ValueError] *)
  float_of_str : string → option float;
  (** [repr(x)], which is also [str(x)] *)
  float_repr : float → string;
  (** [math.isfinite(x)] *)
  float_finite : float → bool;
  (** the number a finite value denotes *)
  float_value : float → Qc;
}.

Class FloatLaws `{FloatOps} := {
  float_of_str_wf s x : float_of_str s = Some x → float_wf x;
  (** [float(repr(x)) == x] *)
  float_of_str_repr x : float_wf x → float_of_str (float_repr x) = Some x;
  float_repr_chars x : float_wf x → str_all repr_char (float_repr x) = true;
  float_repr_nonempty x : float_wf x → float_repr x ≠ "";
  (** [float()] strips its argument *)
  float_of_str_ws l s r :
    str_all PyStr.c_isspace l = true → str_all PyStr.c_isspace r = true →
    float_of_str (l +:+ s +:+ r) = float_of_str s;
  float_of_str_empty : float_of_str "" = None;
}.

(** [float(v)] for a value that is a [str] or [None]: [float(None)]
    raises [TypeError], a malformed literal [ValueError]. *)
Definition py_float `{FloatOps} (v : option string) : result float :=
  match v with
  | None => Raise TypeError
  | Some s => of_option ValueError (float_of_str s)
  end.

Section float_lemmas.
Context `{FloatLaws}.

Lemma repr_char_not_space c : repr_char c = true → PyStr.is_space c = false.
Proof. by destruct c as [[] [] [] [] [] [] [] []]. Qed.

(** [repr] has no white space: [strip] leaves it alone. *)
Lemma float_repr_stripped x :
  float_wf x → PyStr.stripped PyStr.is_space (float_repr x) = true.
Proof.
  intros Hx. apply PyStr.stripped_none.
  apply (str_all_impl repr_char); [|by apply float_repr_chars].
  intros c Hc. by rewrite repr_char_not_space.
Qed.

Lemma float_strip_repr x : float_wf x → PyStr.strip (float_repr x) = float_repr x.
Proof. intros Hx. by apply PyStr.strip_by_id, float_repr_stripped. Qed.

(** A string that is only white space is no literal. *)
Lemma float_of_str_all_space s :
  str_all PyStr.c_isspace s = true → float_of_str s = None.
Proof.
  intros Hs. replace s with (s +:+ "" +:+ "") by (by rewrite !str_app_nil_r).
  rewrite float_of_str_ws by done. apply float_of_str_empty.
Qed.

Lemma py_float_Ok v x :
  py_float v = Ok x ↔ ∃ s, v = Some s ∧ float_of_str s = Some x.
Proof.
  destruct v as [s|]; simpl; [|split; [done | by intros (? & ? & _)]].
  split.
  - destruct (float_of_str s) eqn:E; simpl; [|done]. intros [= ->]. eauto.
  - intros (? & [= <-] & ->). done.
Qed.

Lemma py_float_repr x : float_wf x → py_float (Some (float_repr x)) = Ok x.
Proof. intros Hx. simpl. by rewrite float_of_str_repr. Qed.
End float_lemmas.

#[export] Hint Resolve float_of_str_wf float_repr_stripped : pyr.
#[export] Hint Rewrite @float_of_str_repr @float_strip_repr
  using (eauto with pyr) : py.
