(* ===== verification/DecFloat.v ===== *)
(** * A decimal model of [float]

    An instance of the interface of [PyFloat] that computes.  A finite
    value is kept as the decimal literal that denotes it, in normal
    form: a sign, the significant digits [ds] (no leading and no
    trailing zero) and the position [pt] of the decimal point, for the
    number [0.ds * 10^pt].  [float_of_str] reads what CPython's
    [float()] reads (white space, sign, grouping underscores, fraction,
    exponent, [inf], [infinity] and [nan] in any case) and [dec_repr]
    prints as [repr] does: positional notation when [-4 < pt <= 16],
    scientific notation otherwise.

    The model is exact where CPython rounds to binary64: it agrees with
    CPython on the literals that binary64 reads and prints back
    unchanged, which are those of at most 15 significant digits within
    the exponent range, and it does not overflow to [inf] or underflow
    to zero. *)

From Stdlib Require Import Ascii ZArith QArith Qcanon DecimalString.
From stdpp Require Import base tactics option strings.
From S2P Require Import Prelude PyStr PyInt PyFloat.

Local Close Scope Q_scope.
Local Close Scope Qc_scope.

Module DecFloat.
Import PyStr PyInt.

Inductive dfloat : Type :=
| DFin (neg : bool) (ds : string) (pt : Z)
| DInf (neg : bool)
| DNan.

#[export] Instance dfloat_eq_dec : EqDecision dfloat.
Proof. solve_decision. Defined.

Definition is_zero (c : ascii) : bool := bool_decide (c = "0"%char).

(** The normal form: digits only, no zero at either end, and the point
    at 0 for zero. *)
Definition canon (x : dfloat) : bool :=
  match x with
  | DFin _ ds pt =>
      str_all is_digit ds && stripped is_zero ds
      && (truthy ds || bool_decide (pt = 0%Z))
  | _ => true
  end.

(** ** Reading a literal *)

(** The longest prefix of characters satisfying [p], and the rest. *)
Fixpoint span (p : ascii → bool) (s : string) : string * string :=
  match s with
  | String c s' =>
      if p c then let '(a, b) := span p s' in (String c a, b)
      else (EmptyString, s)
  | EmptyString => (EmptyString, EmptyString)
  end.

(** What the scan of the underscores remembers of the previous
    character. *)
Inductive prev_kind := POther | PDigit | PUnder.

(** Remove the grouping underscores; each must stand between two
    digits. *)
Fixpoint drop_underscores (prev : prev_kind) (s : string) : option string :=
  match s with
  | EmptyString => match prev with PUnder => None | _ => Some EmptyString end
  | String c s' =>
      if decide (c = "_"%char) then
        match prev with PDigit => drop_underscores PUnder s' | _ => None end
      else if is_digit c then String c <$> drop_underscores PDigit s'
      else match prev with
           | PUnder => None
           | _ => String c <$> drop_underscores POther s'
           end
  end.

Definition lower (c : ascii) : ascii :=
  let n := nat_of_ascii c in
  if (65 <=? n)%nat && (n <=? 90)%nat then ascii_of_nat (n + 32) else c.

Fixpoint str_lower (s : string) : string :=
  match s with
  | EmptyString => EmptyString
  | String c s' => String (lower c) (str_lower s')
  end.

(** An optional sign: whether it is [-], and the rest. *)
Definition parse_sign (s : string) : bool * string :=
  match s with
  | String c r =>
      if decide (c = "-"%char) then (true, r)
      else if decide (c = "+"%char) then (false, r)
      else (false, s)
  | EmptyString => (false, EmptyString)
  end.

(** The value of one or more digits. *)
Definition parse_unsigned (r : string) : option Z :=
  if str_all is_digit r && truthy r
  then Z.of_uint <$> NilEmpty.uint_of_string r
  else None.

(** The text after [e]: an optional sign and at least one digit. *)
Definition parse_exponent (s : string) : option Z :=
  let '(neg, r) := parse_sign s in
  (λ v, if neg : bool then (- v)%Z else v) <$> parse_unsigned r.

(** The value of the digits [ip.fp] with exponent [ex], in normal form. *)
Definition mk_fin (neg : bool) (ip fp : string) (ex : Z) : dfloat :=
  let m := ip +:+ fp in
  let m1 := lstrip_by is_zero m in
  let lead := (String.length m - String.length m1)%nat in
  match rstrip_by is_zero m1 with
  | EmptyString => DFin neg EmptyString 0
  | ds => DFin neg ds (Z.of_nat (String.length ip) + ex - Z.of_nat lead)
  end.

(** The fraction: the digits after a decimal point, and what follows. *)
Definition parse_frac (r1 : string) : string * string :=
  match r1 with
  | String c r => if decide (c = "."%char) then span is_digit r else (EmptyString, r1)
  | EmptyString => (EmptyString, EmptyString)
  end.

(** What follows the digits: nothing, or an exponent. *)
Definition parse_tail (neg : bool) (ip fp r2 : string) : option dfloat :=
  if truthy ip || truthy fp then
    match r2 with
    | EmptyString => Some (mk_fin neg ip fp 0)
    | String c r3 =>
        if bool_decide (c = "e"%char) || bool_decide (c = "E"%char)
        then mk_fin neg ip fp <$> parse_exponent r3
        else None
    end
  else None.

(** A number: digits, an optional fraction, an optional exponent; at
    least one digit before the exponent. *)
Definition parse_number (neg : bool) (s : string) : option dfloat :=
  let '(ip, r1) := span is_digit s in
  let '(fp, r2) := parse_frac r1 in
  parse_tail neg ip fp r2.

(** [inf], [infinity] and [nan], in any case. *)
Definition parse_special (neg : bool) (s : string) : option dfloat :=
  let l := str_lower s in
  if bool_decide (l = "inf") || bool_decide (l = "infinity") then Some (DInf neg)
  else if decide (l = "nan") then Some DNan
  else None.

(** [float(s)]; [None] is [ValueError]. *)
Definition dec_of_str (s : string) : option dfloat :=
  t ← drop_underscores POther (c_strip s);
  let '(neg, r) := parse_sign t in
  match parse_number neg r with
  | Some x => Some x
  | None => parse_special neg r
  end.

(** ** Printing *)

Fixpoint zeros (n : nat) : string :=
  match n with O => EmptyString | S n' => String "0" (zeros n') end.

(** The exponent of the scientific notation: a sign and at least two
    digits. *)
Definition exp_digits (a : Z) : string :=
  if (a <? 10)%Z then String "0" (str_of_int a) else str_of_int a.

Definition repr_exp (e : Z) : string :=
  String (if (e <? 0)%Z then "-" else "+")%char (exp_digits (Z.abs e)).

Definition repr_fin (ds : string) (pt : Z) : string :=
  match ds with
  | EmptyString => "0.0"
  | String d rest =>
      let k := Z.of_nat (String.length ds) in
      if ((-4 <? pt) && (pt <=? 16))%Z then
        if (pt <=? 0)%Z then "0." +:+ zeros (Z.to_nat (- pt)) +:+ ds
        else if (pt <? k)%Z then
          str_take (Z.to_nat pt) ds +:+ "." +:+ str_drop (Z.to_nat pt) ds
        else ds +:+ zeros (Z.to_nat (pt - k)) +:+ ".0"
      else
        String d (match rest with
                  | EmptyString => EmptyString
                  | _ => String "." rest
                  end) +:+ "e" +:+ repr_exp (pt - 1)
  end.

(** [repr(x)] *)
Definition dec_repr (x : dfloat) : string :=
  match x with
  | DFin neg ds pt => (if neg then "-" else "") +:+ repr_fin ds pt
  | DInf neg => if neg then "-inf" else "inf"
  | DNan => "nan"
  end.

Definition dec_finite (x : dfloat) : bool :=
  match x with DFin _ _ _ => true | _ => false end.

(** The number [0.ds * 10^pt], with its sign. *)
Definition dec_value (x : dfloat) : Qc :=
  match x with
  | DFin neg ds pt =>
      let m := match NilEmpty.uint_of_string ds with
               | Some u => Z.of_uint u
               | None => 0%Z
               end in
      let q := (inject_Z (if neg then - m else m)
                * Qpower (10 # 1) (pt - Z.of_nat (String.length ds)))%Q in
      Q2Qc q
  | _ => Q2Qc 0
  end.

#[export] Instance dec_float_ops : FloatOps := {
  float := dfloat;
  float_wf x := canon x = true;
  float_of_str := dec_of_str;
  float_repr := dec_repr;
  float_finite := dec_finite;
  float_value := dec_value;
}.

(** ** Scanning *)

Lemma span_app p a b :
  str_all p a = true → head_clean p b = true → span p (a +:+ b) = (a, b).
Proof.
  intros Ha Hb. induction a as [|c a IH].
  - rewrite str_app_nil_l. destruct b as [|c b]; [done|]. simpl in *.
    by apply negb_true_iff in Hb as ->.
  - rewrite str_app_cons. simpl in *. apply andb_true_iff in Ha as [-> Ha].
    by rewrite IH.
Qed.

Lemma span_all p a : str_all p a = true → span p a = (a, "").
Proof. intros Ha. rewrite <- (str_app_nil_r a) at 1. by apply span_app. Qed.

Lemma span_fst_all p s : str_all p (span p s).1 = true.
Proof.
  induction s as [|c s IH]; [done|]. simpl.
  destruct (p c) eqn:E; [|done]. destruct (span p s). simpl in *. by rewrite E.
Qed.

Lemma repr_char_not_underscore c : repr_char c = true → c ≠ "_"%char.
Proof. by destruct c as [[] [] [] [] [] [] [] []]. Qed.

Lemma is_digit_repr_char c : is_digit c = true → repr_char c = true.
Proof. by destruct c as [[] [] [] [] [] [] [] []]. Qed.

Lemma is_zero_digit c : is_zero c = true → is_digit c = true.
Proof. unfold is_zero. by intros ->%bool_decide_eq_true. Qed.

(** A text without underscores is left alone. *)
Lemma drop_underscores_plain prev s :
  prev ≠ PUnder → str_all repr_char s = true → drop_underscores prev s = Some s.
Proof.
  revert prev. induction s as [|c s IH]; intros prev Hp; simpl.
  - by destruct prev.
  - intros [Hc Hs]%andb_true_iff.
    rewrite decide_False by by apply repr_char_not_underscore.
    destruct (is_digit c); [by rewrite IH|].
    destruct prev; [|by rewrite IH|done]. by rewrite IH.
Qed.

(** ** Zeros *)

Lemma zeros_all n : str_all is_zero (zeros n) = true.
Proof. induction n as [|n IH]; [done|]. simpl. by rewrite IH. Qed.

Lemma zeros_digits n : str_all is_digit (zeros n) = true.
Proof. induction n as [|n IH]; [done|]. simpl. by rewrite IH. Qed.

Lemma zeros_length n : String.length (zeros n) = n.
Proof. induction n as [|n IH]; [done|]. simpl. by rewrite IH. Qed.

(** [mk_fin] on digits that are [ds] between [a] leading and some
    trailing zeros. *)
Lemma mk_fin_spec neg ip fp ex a b c ds :
  ip +:+ fp = zeros a +:+ String c ds +:+ zeros b →
  stripped is_zero (String c ds) = true →
  mk_fin neg ip fp ex
  = DFin neg (String c ds) (Z.of_nat (String.length ip) + ex - Z.of_nat a).
Proof.
  intros Hm [Hh Hl]%andb_true_iff. unfold mk_fin. rewrite Hm.
  rewrite lstrip_app by apply zeros_all.
  rewrite lstrip_clean by (by rewrite str_app_cons).
  rewrite rstrip_app by apply zeros_all. rewrite rstrip_clean by done.
  rewrite (str_length_app (zeros a)), zeros_length.
  replace (a + _ - _)%nat with a by lia. done.
Qed.

Lemma mk_fin_zero neg ip fp ex :
  str_all is_zero (ip +:+ fp) = true → mk_fin neg ip fp ex = DFin neg "" 0.
Proof. intros H. unfold mk_fin. by rewrite (lstrip_all _ _ H). Qed.

Lemma str_all_strip_by p q s :
  str_all p s = true → str_all p (strip_by q s) = true.
Proof.
  intros H. destruct (strip_by_split q s) as (l & r & Hs & _).
  rewrite Hs, !str_all_app in H. by bool_hyps.
Qed.

Lemma mk_fin_canon neg ip fp ex :
  str_all is_digit ip = true → str_all is_digit fp = true →
  canon (mk_fin neg ip fp ex) = true.
Proof.
  intros Hi Hf. unfold mk_fin.
  change (rstrip_by is_zero (lstrip_by is_zero (ip +:+ fp)))
    with (strip_by is_zero (ip +:+ fp)).
  pose proof (strip_by_stripped is_zero (ip +:+ fp)) as Hs.
  pose proof (str_all_strip_by is_digit is_zero (ip +:+ fp)) as Hd.
  rewrite str_all_app, Hi, Hf in Hd. specialize (Hd eq_refl).
  destruct (strip_by is_zero (ip +:+ fp)) as [|c ds]; [done|].
  cbv [canon]. by rewrite Hd, Hs.
Qed.

(** ** The characters of [dec_repr] *)

Lemma digits_repr_chars s : str_all is_digit s = true → str_all repr_char s = true.
Proof. apply str_all_impl, is_digit_repr_char. Qed.

(** The digits of the exponent read back as its absolute value. *)
Lemma exp_digits_spec a :
  (0 ≤ a)%Z →
  str_all is_digit (exp_digits a) = true ∧ parse_unsigned (exp_digits a) = Some a.
Proof.
  intros (u & Hu & Hs & Hv)%str_of_int_nonneg.
  pose proof (string_of_uint_digits u) as Hd.
  pose proof (string_of_uint_nonempty u Hu) as Hne%truthy_true.
  unfold exp_digits, parse_unsigned. rewrite Hs.
  destruct (a <? 10)%Z; simpl; rewrite Hd, ?Hne; simpl; rewrite NilEmpty.usu;
    simpl; by rewrite <- Hv.
Qed.

Lemma repr_exp_chars e : str_all repr_char (repr_exp e) = true.
Proof.
  destruct (exp_digits_spec (Z.abs e)) as [Hd%digits_repr_chars _]; [lia|].
  unfold repr_exp. simpl. rewrite Hd. by destruct (e <? 0)%Z.
Qed.

Lemma repr_fin_chars ds pt :
  str_all is_digit ds = true → str_all repr_char (repr_fin ds pt) = true.
Proof.
  intros Hd. pose proof (digits_repr_chars _ Hd) as Hr.
  destruct ds as [|d rest]; [done|]. unfold repr_fin.
  pose proof (digits_repr_chars _ (zeros_digits (Z.to_nat (- pt)))) as Hz1.
  pose proof (digits_repr_chars _ (zeros_digits (Z.to_nat (pt - Z.of_nat (String.length (String d rest)))))) as Hz2.
  pose proof (str_all_take _ (Z.to_nat pt) _ Hr) as Ht.
  pose proof (str_all_drop _ (Z.to_nat pt) _ Hr) as Hdr.
  pose proof (repr_exp_chars (pt - 1)) as He.
  repeat case_match; rewrite ?str_all_app, ?Hz1, ?Hz2, ?Ht, ?Hdr, ?Hr, ?He; try done.
  all: simpl in Hr; apply andb_true_iff in Hr as [Hd1 Hr]; simpl in *; by rewrite Hd1, ?Hr.
Qed.

Lemma dec_repr_chars x : canon x = true → str_all repr_char (dec_repr x) = true.
Proof.
  destruct x as [neg ds pt|[]|]; try done. simpl. intros Hc. bool_hyps.
  rewrite str_all_app, repr_fin_chars by done. by destruct neg.
Qed.

(** Every finite literal starts with a digit. *)
Lemma repr_fin_head ds pt :
  str_all is_digit ds = true →
  ∃ c r, repr_fin ds pt = String c r ∧ is_digit c = true.
Proof.
  intros Hd. destruct ds as [|d rest]; [by exists "0"%char, ".0"|].
  simpl in Hd. apply andb_true_iff in Hd as [Hc Hd]. unfold repr_fin.
  repeat case_match; rewrite ?str_app_cons; try by eauto.
  destruct (Z.to_nat pt) as [|n] eqn:E; [lia|]. rewrite str_take_cons, str_app_cons. eauto.
Qed.

Lemma dec_repr_nonempty x : dec_repr x ≠ "".
Proof.
  destruct x as [neg ds pt|[]|]; try done. simpl.
  destruct neg; [done|]. rewrite str_app_nil_l.
  destruct ds; [done|]. unfold repr_fin. repeat case_match; rewrite ?str_app_cons; try done.
  destruct (Z.to_nat pt) as [|n] eqn:E; [lia|]. by rewrite str_take_cons, str_app_cons.
Qed.

Lemma repr_char_not_c_isspace c : repr_char c = true → c_isspace c = false.
Proof. by destruct c as [[] [] [] [] [] [] [] []]. Qed.

Lemma dec_repr_c_strip x : canon x = true → c_strip (dec_repr x) = dec_repr x.
Proof.
  intros Hx. apply strip_by_id, stripped_none.
  apply (str_all_impl repr_char); [|by apply dec_repr_chars].
  intros c Hc. by rewrite repr_char_not_c_isspace.
Qed.

Lemma parse_sign_digit c r : is_digit c = true → parse_sign (String c r) = (false, String c r).
Proof. intros [? ?]%is_digit_not_sign. simpl. by rewrite !decide_False. Qed.

Lemma parse_exponent_repr e : parse_exponent (repr_exp e) = Some e.
Proof.
  destruct (exp_digits_spec (Z.abs e)) as [_ Hp]; [lia|].
  unfold repr_exp, parse_exponent.
  destruct (e <? 0)%Z eqn:E; simpl; rewrite Hp; simpl; f_equal; lia.
Qed.

(** ** Reading back what [dec_repr] prints *)

Lemma parse_number_fixed neg ip fp :
  str_all is_digit ip = true → str_all is_digit fp = true →
  truthy ip || truthy fp = true →
  parse_number neg (ip +:+ String "." fp) = Some (mk_fin neg ip fp 0).
Proof.
  intros Hi Hf Ht. unfold parse_number, parse_frac, parse_tail.
  rewrite span_app by done.
  rewrite decide_True by done. rewrite span_all by done. by rewrite Ht.
Qed.

Lemma parse_number_sci neg d rest e :
  is_digit d = true → str_all is_digit rest = true →
  parse_number neg (String d (match rest with
                              | EmptyString => EmptyString
                              | _ => String "." rest
                              end) +:+ "e" +:+ repr_exp e)
  = Some (mk_fin neg (String d "") rest e).
Proof.
  intros Hd Hr. unfold parse_number, parse_frac, parse_tail.
  destruct rest as [|c rest].
  - rewrite (span_app is_digit (String d "") ("e" +:+ repr_exp e)) by (simpl; rewrite ?Hd; done).
    rewrite str_app_cons, str_app_nil_l. rewrite decide_False by done.
    simpl. by rewrite parse_exponent_repr.
  - change (String d (String "." (String c rest)) +:+ "e" +:+ repr_exp e)
      with (String d "" +:+ String "." (String c rest +:+ "e" +:+ repr_exp e)).
    rewrite span_app by (simpl; rewrite ?Hd; done).
    rewrite decide_True by done. rewrite span_app by done.
    rewrite str_app_cons, str_app_nil_l. simpl. by rewrite parse_exponent_repr.
Qed.

Lemma zeros_snoc n : zeros n +:+ "0" = zeros (S n).
Proof. induction n as [|n IH]; [done|]. simpl. by rewrite str_app_cons, IH. Qed.

Lemma parse_number_repr_fin neg ds pt :
  canon (DFin neg ds pt) = true →
  parse_number neg (repr_fin ds pt) = Some (DFin neg ds pt).
Proof.
  simpl. intros [[H Hs]%andb_true_iff Hz]%andb_true_iff. destruct ds as [|d rest].
  { apply bool_decide_eq_true in Hz as ->. reflexivity. }
  assert (is_digit d = true ∧ str_all is_digit rest = true) as [Hd Hr].
  { simpl in H. by apply andb_true_iff in H. }
  unfold repr_fin. destruct ((-4 <? pt) && (pt <=? 16))%Z eqn:Erange; cycle 1.
  { rewrite parse_number_sci by done. f_equal.
    erewrite (mk_fin_spec _ _ _ _ 0 0); [f_equal; simpl; lia| |done].
    by rewrite str_app_nil_r. }
  repeat case_match; bool_hyps.
  - change ("0." +:+ ?x) with ("0" +:+ String "." x).
    rewrite parse_number_fixed; [|done|by rewrite str_all_app, zeros_digits|done].
    f_equal. erewrite (mk_fin_spec _ _ _ _ (S (Z.to_nat (- pt))) 0); [f_equal; simpl; lia | | done].
    by rewrite str_app_nil_r.
  - change (?a +:+ "." +:+ ?b) with (a +:+ String "." b).
    rewrite parse_number_fixed; [|by apply str_all_take|by apply str_all_drop|].
    + f_equal. erewrite (mk_fin_spec _ _ _ _ 0 0); [|by rewrite str_take_drop, str_app_nil_r|done].
      f_equal. rewrite str_take_length. simpl String.length in *. lia.
    + destruct (Z.to_nat pt) eqn:E; [lia|done].
  - change (?a +:+ ?z +:+ ".0") with (a +:+ z +:+ String "." "0").
    rewrite <- str_app_assoc.
    rewrite parse_number_fixed; [|by rewrite str_all_app, H, zeros_digits|done|done].
    f_equal. erewrite (mk_fin_spec _ _ _ _ 0 (S (Z.to_nat (pt - Z.of_nat (String.length (String d rest))))));
      [|by rewrite !str_app_assoc, zeros_snoc|done].
    f_equal. rewrite str_length_app, zeros_length. lia.
Qed.

(** [float(repr(x)) == x] in the model. *)
Lemma dec_of_str_repr x : canon x = true → dec_of_str (dec_repr x) = Some x.
Proof.
  intros Hx. unfold dec_of_str.
  rewrite dec_repr_c_strip, drop_underscores_plain by auto using dec_repr_chars.
  destruct x as [neg ds pt|[]|]; try reflexivity. simpl.
  pose proof (parse_number_repr_fin _ _ _ Hx) as Hp.
  destruct neg; simpl.
  - by rewrite str_app_nil_l, Hp.
  - rewrite str_app_nil_l. destruct (repr_fin_head ds pt) as (c & r & Hr & Hc).
    { simpl in Hx. by bool_hyps. }
    rewrite Hr in *. rewrite parse_sign_digit by done. by rewrite Hp.
Qed.

(** ** What [dec_of_str] reads is in normal form *)

Lemma parse_frac_fst_all r1 : str_all is_digit (parse_frac r1).1 = true.
Proof.
  destruct r1 as [|c r]; [done|]. simpl.
  destruct (decide _); [apply span_fst_all | done].
Qed.

Lemma parse_tail_canon neg ip fp r2 x :
  str_all is_digit ip = true → str_all is_digit fp = true →
  parse_tail neg ip fp r2 = Some x → canon x = true.
Proof.
  intros Hi Hf. unfold parse_tail. repeat case_match; try done.
  - intros [= <-]. by apply mk_fin_canon.
  - destruct (parse_exponent _); [|done]. intros [= <-]. by apply mk_fin_canon.
Qed.

Lemma parse_number_canon neg s x : parse_number neg s = Some x → canon x = true.
Proof.
  unfold parse_number. pose proof (span_fst_all is_digit s) as Hi.
  destruct (span is_digit s) as [ip r1]. pose proof (parse_frac_fst_all r1) as Hf.
  destruct (parse_frac r1) as [fp r2]. by apply parse_tail_canon.
Qed.

Lemma dec_of_str_canon s x : dec_of_str s = Some x → canon x = true.
Proof.
  unfold dec_of_str. destruct (drop_underscores _ _) as [t|]; [|done]. simpl.
  destruct (parse_sign t) as [neg r].
  destruct (parse_number neg r) eqn:E.
  - intros [= <-]. by eapply parse_number_canon.
  - unfold parse_special. repeat case_match; by intros [= <-].
Qed.

Lemma dec_of_str_ws l s r :
  str_all c_isspace l = true → str_all c_isspace r = true →
  dec_of_str (l +:+ s +:+ r) = dec_of_str s.
Proof. intros Hl Hr. unfold dec_of_str, c_strip. by rewrite strip_by_app. Qed.

#[export] Instance dec_float_laws : FloatLaws.
Proof.
  split.
  - exact dec_of_str_canon.
  - exact dec_of_str_repr.
  - exact dec_repr_chars.
  - intros x _. apply dec_repr_nonempty.
  - exact dec_of_str_ws.
  - reflexivity.
Qed.

(** [float(repr(x)) == x] for every value of the decimal model,
    also when the text is surrounded by white space: what the writer
    prints of a ratio, the reader's [float()] reads back. *)
Theorem py_float_dec_repr x l r :
  canon x = true → str_all c_isspace l = true → str_all c_isspace r = true →
  py_float (Some (l +:+ dec_repr x +:+ r)) = Ok x.
Proof.
  intros Hx Hl Hr. unfold py_float. cbn [float_of_str dec_float_ops].
  by rewrite dec_of_str_ws, dec_of_str_repr.
Qed.

Lemma py_float_dec_repr_witness :
  py_float (Some (" " +:+ dec_repr (DFin true "125" 2) +:+ "")) = Ok (DFin true "125" 2).
Proof. apply (py_float_dec_repr (DFin true "125" 2) " " ""); reflexivity. Defined.

End DecFloat.
