(* ===== verification/Csv.v ===== *)
(** * The CSV files between the stages

    The fetcher and the normalizer write their files with
    [csv.DictWriter] (opened with [newline=""]), the normalizer and the
    loader read them with [csv.DictReader] (opened in text mode with the
    default [newline=None]).  This file models what those calls do to
    the text of a file, for the default dialect [excel]: delimiter [,],
    quote character 0x22 doubled inside a quoted field, minimal quoting,
    line terminator CR LF, not strict.

    - [write_record] is [csv.writer.writerow];
    - [universal_newlines] is the translation of line ends that a text
      file opened with [newline=None] applies when it is read;
    - [step] is one transition of the reader's state machine
      ([parse_process_char] in CPython's [_csv.c]) and [read_chars] the
      loop of [next(reader)] over the lines of the file: the end-of-line
      event follows every line feed and the unterminated last line;
    - [dict_rows] is what iterating a [csv.DictReader] yields.

    The reader's limit on the size of a field (131072 characters) is
    not modelled. *)

From Stdlib Require Import Ascii.
From stdpp Require Import base tactics option list strings gmap.
From S2P Require Import Prelude.

Module Csv.

(** ** The dialect *)

Definition delimiter : ascii := ","%char.
Definition quotechar : ascii := "034"%char.
Definition CR : ascii := "013"%char.
Definition LF : ascii := "010"%char.
Definition lineterminator : string := String CR (String LF EmptyString).

Definition is_nl (c : ascii) : bool :=
  bool_decide (c = CR) || bool_decide (c = LF).

(** ** Writing *)

(** The characters that make the writer quote a field: the delimiter,
    the quote character and those of the line terminator. *)
Definition special (c : ascii) : bool :=
  bool_decide (c = delimiter) || bool_decide (c = quotechar) || is_nl c.

Definition plain (c : ascii) : bool := negb (special c).

(** The text of a field between its quotes: every quote is doubled. *)
Fixpoint escape (s : string) : string :=
  match s with
  | EmptyString => EmptyString
  | String c s' =>
      if bool_decide (c = quotechar)
      then String quotechar (String quotechar (escape s'))
      else String c (escape s')
  end.

Definition write_field (s : string) : string :=
  if str_all plain s then s
  else String quotechar (escape s +:+ String quotechar EmptyString).

Fixpoint join_fields (fs : list string) : string :=
  match fs with
  | [] => EmptyString
  | [f] => write_field f
  | f :: fs' => write_field f +:+ String delimiter (join_fields fs')
  end.

(** [writer.writerow(fields)]: a record whose single field is empty is
    written as an empty quoted field, to tell it from an empty record. *)
Definition write_record (fs : list string) : string :=
  match fs with
  | [EmptyString] => String quotechar (String quotechar lineterminator)
  | _ => join_fields fs +:+ lineterminator
  end.

(** [writer.writerows(records)] *)
Definition write_records (rs : list (list string)) : string :=
  foldr (λ r acc, write_record r +:+ acc) EmptyString rs.

(** ** Reading *)

(** A text file opened with [newline=None]: on reading, CR LF and a
    lone CR both become LF. *)
Fixpoint universal_newlines (s : string) : string :=
  match s with
  | EmptyString => EmptyString
  | String c s' =>
      if bool_decide (c = CR) then
        match s' with
        | String d s'' =>
            if bool_decide (d = LF) then String LF (universal_newlines s'')
            else String LF (universal_newlines s')
        | EmptyString => String LF EmptyString
        end
      else String c (universal_newlines s')
  end.

(** The states of the reader (the dialect has no escape character, so
    the states for escapes are never entered). *)
Inductive state : Type :=
| START_RECORD
| START_FIELD
| IN_FIELD
| IN_QUOTED_FIELD
| QUOTE_IN_QUOTED_FIELD
| EAT_CRNL.

#[export] Instance state_eq_dec : EqDecision state.
Proof. solve_decision. Defined.

(** The reader: its state, the field being read and the fields of the
    record read so far. *)
Record reader : Type := Reader {
  r_state : state;
  r_field : string;
  r_fields : list string;
}.

Definition reset : reader := Reader START_RECORD EmptyString [].

Definition add_char (r : reader) (c : ascii) : reader :=
  Reader (r_state r) (r_field r +:+ String c EmptyString) (r_fields r).

Definition save_field (r : reader) : reader :=
  Reader (r_state r) EmptyString (r_fields r ++ [r_field r]).

Definition set_state (r : reader) (s : state) : reader :=
  Reader s (r_field r) (r_fields r).

(** The reader in state [START_FIELD], on a character or ([None]) the
    end of a line. *)
Definition step_start_field (r : reader) (c : option ascii) : reader :=
  match c with
  | None => set_state (save_field r) START_RECORD
  | Some c =>
      if is_nl c then set_state (save_field r) EAT_CRNL
      else if bool_decide (c = quotechar) then set_state r IN_QUOTED_FIELD
      else if bool_decide (c = delimiter) then save_field r
      else set_state (add_char r c) IN_FIELD
  end.

(** One transition of the reader. *)
Definition step (r : reader) (c : option ascii) : result reader :=
  match r_state r with
  | START_RECORD =>
      match c with
      | None => Ok r
      | Some c' =>
          if is_nl c' then Ok (set_state r EAT_CRNL)
          else Ok (step_start_field (set_state r START_FIELD) c)
      end
  | START_FIELD => Ok (step_start_field r c)
  | IN_FIELD =>
      match c with
      | None => Ok (set_state (save_field r) START_RECORD)
      | Some c =>
          if is_nl c then Ok (set_state (save_field r) EAT_CRNL)
          else if bool_decide (c = delimiter)
               then Ok (set_state (save_field r) START_FIELD)
          else Ok (add_char r c)
      end
  | IN_QUOTED_FIELD =>
      match c with
      | None => Ok r
      | Some c =>
          if bool_decide (c = quotechar) then Ok (set_state r QUOTE_IN_QUOTED_FIELD)
          else Ok (add_char r c)
      end
  | QUOTE_IN_QUOTED_FIELD =>
      match c with
      | None => Ok (set_state (save_field r) START_RECORD)
      | Some c =>
          if bool_decide (c = quotechar) then Ok (set_state (add_char r c) IN_QUOTED_FIELD)
          else if bool_decide (c = delimiter)
               then Ok (set_state (save_field r) START_FIELD)
          else if is_nl c then Ok (set_state (save_field r) EAT_CRNL)
          else Ok (set_state (add_char r c) IN_FIELD)
      end
  | EAT_CRNL =>
      match c with
      | None => Ok (set_state r START_RECORD)
      | Some c => if is_nl c then Ok r else Raise CsvError
      end
  end.

(** The end of a line: the reader takes the end-of-line event; a record
    is complete when this leaves it in [START_RECORD]. *)
Definition end_line (r : reader) : result (option (list string) * reader) :=
  r' ← step r None;
  Ok (if decide (r_state r' = START_RECORD)
      then (Some (r_fields r'), reset)
      else (None, r')).

(** At the end of the input, a field is pending when it has characters
    or the reader is inside quotes. *)
Definition pending (r : reader) : bool :=
  match r_field r with
  | String _ _ => true
  | EmptyString => bool_decide (r_state r = IN_QUOTED_FIELD)
  end.

(** The end of the input: the last record, if a field is pending. *)
Definition end_input (r : reader) : list (list string) :=
  if pending r then [r_fields r ++ [r_field r]] else [].

Definition cons_record (rec : option (list string)) (rest : list (list string))
  : list (list string) :=
  match rec with Some fs => fs :: rest | None => rest end.

(** The records of a text: the loop of [next(reader)] over the lines of
    the file.  [mid] tells whether characters were read since the last
    line feed.  At the end of the text a field that is still open is
    saved and the record returned. *)
Fixpoint read_chars (mid : bool) (r : reader) (s : string)
  : result (list (list string)) :=
  match s with
  | EmptyString =>
      if mid then
        '(rec, r') ← end_line r; Ok (cons_record rec (end_input r'))
      else Ok (end_input r)
  | String c s' =>
      r1 ← step r (Some c);
      if bool_decide (c = LF) then
        '(rec, r2) ← end_line r1;
        cons_record rec <$> read_chars false r2 s'
      else read_chars true r1 s'
  end.

(** [list(csv.reader(f))] for a file of text [s] opened with
    [newline=None]. *)
Definition read_records (s : string) : result (list (list string)) :=
  read_chars false reset (universal_newlines s).

(** ** Definitions for the round trip *)

Definition field_start (st : state) : Prop := st = START_RECORD ∨ st = START_FIELD.

(** The state in which the reader leaves a field written by
    [write_field], when it entered it in state [st]. *)
Definition after_field (st : state) (f : string) : state :=
  if str_all plain f
  then match f with EmptyString => st | _ => IN_FIELD end
  else QUOTE_IN_QUOTED_FIELD.

(** The text of a record before its line terminator. *)
Definition record_body (fs : list string) : string :=
  match fs with
  | [EmptyString] => String quotechar (String quotechar EmptyString)
  | _ => join_fields fs
  end.

Definition not_cr (c : ascii) : bool := negb (bool_decide (c = CR)).

(** A text without carriage return. *)
Definition no_cr (s : string) : bool := str_all not_cr s.

(** What holds of the reader between two characters of a text without
    carriage return: it is not waiting for the end of a line, and what
    it has read holds no carriage return. *)
Definition reader_ok (r : reader) : Prop :=
  r_state r ≠ EAT_CRNL ∧ no_cr (r_field r) = true
  ∧ Forall (λ f, no_cr f = true) (r_fields r).

(** ** [csv.DictReader] and [csv.DictWriter] *)

(** A row of a [DictReader]: a [dict] from the names of the header to
    the fields of the record; a name without a field (the record is
    shorter than the header) has the value [None].  The entry under the
    key [None] that holds the fields beyond the header is left out: no
    lookup by a name finds it. *)
Definition put_some (d : gmap string (option string)) (kv : string * string)
  : gmap string (option string) :=
  <[kv.1 := Some kv.2]> d.

Definition put_none (d : gmap string (option string)) (k : string)
  : gmap string (option string) :=
  <[k := None]> d.

Definition zip_row (names row : list string) : gmap string (option string) :=
  foldl put_none (foldl put_some ∅ (zip names row)) (drop (length row) names).

(** The rows a [DictReader] yields from the records of the file: the
    first record is the header, and the empty records are skipped. *)
Definition dict_rows (recs : list (list string))
  : list (gmap string (option string)) :=
  match recs with
  | [] => []
  | names :: rest => zip_row names <$> filter (λ r, r ≠ []) rest
  end.

(** [row[key]] *)
Definition getitem (key : string) (row : gmap string (option string))
  : result (option string) :=
  of_option (KeyError key) (row !! key).

(** [row.get(key)] *)
Definition get (key : string) (row : gmap string (option string))
  : option string :=
  mjoin (row !! key).

(** [writer.writeheader(); writer.writerows(rows)] for a [DictWriter]
    with the field names [names], each row given as its fields in the
    order of [names]. *)
Definition write_dict_rows (names : list string) (rows : list (list string))
  : string :=
  write_records (names :: rows).

(** [list(csv.DictReader(f))] for a file of text [s]. *)
Definition read_dict_rows (s : string)
  : result (list (gmap string (option string))) :=
  dict_rows <$> read_records s.

(** ** The reader on written text *)

Lemma plain_inv c :
  plain c = true →
  bool_decide (c = CR) = false ∧ bool_decide (c = LF) = false
  ∧ bool_decide (c = quotechar) = false ∧ bool_decide (c = delimiter) = false.
Proof.
  unfold plain, special, is_nl. intros H%negb_true_iff.
  by apply orb_false_iff in H as [[Hd Hq]%orb_false_iff [Hc Hl]%orb_false_iff].
Qed.

Lemma read_chars_cons mid r c s :
  read_chars mid r (String c s) =
    r1 ← step r (Some c);
    if bool_decide (c = LF)
    then '(rec, r2) ← end_line r1; cons_record rec <$> read_chars false r2 s
    else read_chars true r1 s.
Proof. reflexivity. Qed.

Lemma read_chars_mid m1 m2 r c s :
  read_chars m1 r (String c s) = read_chars m2 r (String c s).
Proof. reflexivity. Qed.

Lemma cons_record_None (x : result (list (list string))) : cons_record None <$> x = x.
Proof. by destruct x. Qed.

Lemma step_in_field_plain f0 fs d :
  plain d = true →
  step (Reader IN_FIELD f0 fs) (Some d) = Ok (Reader IN_FIELD (f0 +:+ String d "") fs).
Proof.
  intros (Hcr & Hlf & _ & Hd)%plain_inv. unfold step, is_nl. simpl.
  by rewrite Hcr, Hlf, Hd.
Qed.

Lemma step_in_quoted f0 fs d :
  d ≠ quotechar →
  step (Reader IN_QUOTED_FIELD f0 fs) (Some d)
  = Ok (Reader IN_QUOTED_FIELD (f0 +:+ String d "") fs).
Proof. intros Hd. unfold step. simpl. by rewrite bool_decide_eq_false_2. Qed.

Lemma step_in_quoted_quote f0 fs :
  step (Reader IN_QUOTED_FIELD f0 fs) (Some quotechar)
  = Ok (Reader QUOTE_IN_QUOTED_FIELD f0 fs).
Proof. reflexivity. Qed.

Lemma step_quote_quote f0 fs :
  step (Reader QUOTE_IN_QUOTED_FIELD f0 fs) (Some quotechar)
  = Ok (Reader IN_QUOTED_FIELD (f0 +:+ String quotechar "") fs).
Proof. reflexivity. Qed.

Lemma end_line_in_quoted f0 fs :
  end_line (Reader IN_QUOTED_FIELD f0 fs) = Ok (None, Reader IN_QUOTED_FIELD f0 fs).
Proof. reflexivity. Qed.

(** Plain characters inside an unquoted field are added to it. *)
Lemma read_plain mid f0 fs f c rest :
  str_all plain f = true →
  read_chars mid (Reader IN_FIELD f0 fs) (f +:+ String c rest)
  = read_chars mid (Reader IN_FIELD (f0 +:+ f) fs) (String c rest).
Proof.
  revert mid f0. induction f as [|d f IH]; intros mid f0 Hf.
  - by rewrite str_app_nil_l, str_app_nil_r.
  - simpl in Hf. apply andb_true_iff in Hf as [Hd Hf].
    rewrite str_app_cons, read_chars_cons, step_in_field_plain, bind_Ok by done.
    apply plain_inv in Hd as (_ & -> & _).
    rewrite (IH true), str_app_assoc by done. apply read_chars_mid.
Qed.

Lemma escape_cons d f :
  escape (String d f) =
    if bool_decide (d = quotechar)
    then String quotechar (String quotechar (escape f))
    else String d (escape f).
Proof. reflexivity. Qed.

(** The characters of an escaped field, read inside quotes, are the field. *)
Lemma read_escape mid f0 fs f c rest :
  read_chars mid (Reader IN_QUOTED_FIELD f0 fs) (escape f +:+ String c rest)
  = read_chars mid (Reader IN_QUOTED_FIELD (f0 +:+ f) fs) (String c rest).
Proof.
  revert mid f0. induction f as [|d f IH]; intros mid f0.
  - by rewrite str_app_nil_l, str_app_nil_r.
  - rewrite escape_cons. destruct (bool_decide (d = quotechar)) eqn:Eq.
    + apply bool_decide_eq_true in Eq as ->.
      rewrite !str_app_cons, read_chars_cons, step_in_quoted_quote, bind_Ok.
      rewrite bool_decide_eq_false_2 by done.
      rewrite read_chars_cons, step_quote_quote, bind_Ok.
      rewrite bool_decide_eq_false_2 by done.
      rewrite (IH true), str_app_assoc. apply read_chars_mid.
    + apply bool_decide_eq_false in Eq.
      rewrite str_app_cons, read_chars_cons, step_in_quoted, bind_Ok by done.
      destruct (bool_decide (d = LF)).
      * rewrite end_line_in_quoted, bind_Ok, cons_record_None.
        rewrite (IH false), str_app_assoc. apply read_chars_mid.
      * rewrite (IH true), str_app_assoc. apply read_chars_mid.
Qed.

Lemma step_start_plain st fs d :
  field_start st → plain d = true →
  step (Reader st "" fs) (Some d) = Ok (Reader IN_FIELD (String d "") fs).
Proof.
  intros Hst (Hcr & Hlf & Hq & Hd)%plain_inv.
  destruct Hst as [-> | ->]; unfold step, step_start_field, is_nl; simpl;
    by rewrite Hcr, Hlf, Hq, Hd.
Qed.

Lemma step_start_quote st fs :
  field_start st →
  step (Reader st "" fs) (Some quotechar) = Ok (Reader IN_QUOTED_FIELD "" fs).
Proof. by intros [-> | ->]. Qed.

(** Reading a written field up to the character that follows it. *)
Lemma read_field mid st fs f c rest :
  field_start st →
  read_chars mid (Reader st "" fs) (write_field f +:+ String c rest)
  = read_chars mid (Reader (after_field st f) f fs) (String c rest).
Proof.
  intros Hst. unfold write_field, after_field.
  destruct (str_all plain f) eqn:Hp.
  - destruct f as [|d f]; [done|]. simpl in Hp.
    apply andb_true_iff in Hp as [Hd Hf].
    rewrite str_app_cons, read_chars_cons, step_start_plain, bind_Ok by done.
    apply plain_inv in Hd as (_ & -> & _).
    rewrite read_plain by done. apply read_chars_mid.
  - rewrite str_app_cons, read_chars_cons, step_start_quote, bind_Ok by done.
    rewrite bool_decide_eq_false_2 by done.
    rewrite str_app_assoc, str_app_cons, str_app_nil_l, read_escape.
    rewrite str_app_nil_l, read_chars_cons, step_in_quoted_quote, bind_Ok.
    rewrite bool_decide_eq_false_2 by done. apply read_chars_mid.
Qed.

Lemma step_after_delim st f fs :
  field_start st →
  step (Reader (after_field st f) f fs) (Some delimiter)
  = Ok (Reader START_FIELD "" (fs ++ [f])).
Proof.
  intros Hst. unfold after_field. destruct (str_all plain f); [|done].
  destruct f; [|done]. by destruct Hst as [-> | ->].
Qed.

Lemma step_after_lf st f fs :
  field_start st → after_field st f ≠ START_RECORD →
  step (Reader (after_field st f) f fs) (Some LF)
  = Ok (Reader EAT_CRNL "" (fs ++ [f])).
Proof.
  intros Hst. unfold after_field. destruct (str_all plain f); [|done].
  destruct f; [|done]. by destruct Hst as [-> | ->].
Qed.

Lemma read_field_delim mid st fs f rest :
  field_start st →
  read_chars mid (Reader st "" fs) (write_field f +:+ String delimiter rest)
  = read_chars true (Reader START_FIELD "" (fs ++ [f])) rest.
Proof.
  intros Hst. rewrite read_field, read_chars_cons, step_after_delim, bind_Ok by done.
  by rewrite bool_decide_eq_false_2.
Qed.

Lemma read_field_lf mid st fs f rest :
  field_start st → after_field st f ≠ START_RECORD →
  read_chars mid (Reader st "" fs) (write_field f +:+ String LF rest)
  = ((fs ++ [f]) ::.) <$> read_chars false reset rest.
Proof.
  intros Hst Hne. rewrite read_field, read_chars_cons, step_after_lf, bind_Ok by done.
  by rewrite bool_decide_eq_true_2.
Qed.

(** A record of at least one field, read from the start of a field. *)
Lemma read_join mid fs0 f fs rest :
  read_chars mid (Reader START_FIELD "" fs0) (join_fields (f :: fs) +:+ String LF rest)
  = ((fs0 ++ f :: fs) ::.) <$> read_chars false reset rest.
Proof.
  revert mid fs0 f. induction fs as [|g fs IH]; intros mid fs0 f.
  - simpl. rewrite read_field_lf; [done | by right |].
    unfold after_field. by repeat case_match.
  - change (join_fields (f :: g :: fs))
      with (write_field f +:+ String delimiter (join_fields (g :: fs))).
    rewrite str_app_assoc, str_app_cons, read_field_delim by by right.
    rewrite IH. by rewrite <- app_assoc.
Qed.

(** A written record, terminated by a line feed, is read back. *)
Lemma read_record fs rest :
  read_chars false reset (record_body fs +:+ String LF rest)
  = (fs ::.) <$> read_chars false reset rest.
Proof.
  destruct fs as [|f fs]; [done|]. destruct fs as [|g fs].
  - destruct f as [|d f]; [done|]. unfold record_body, join_fields, reset.
    rewrite read_field_lf; [done | by left |].
    unfold after_field. by repeat case_match.
  - replace (record_body (f :: g :: fs))
      with (write_field f +:+ String delimiter (join_fields (g :: fs)))
      by by destruct f.
    unfold reset.
    rewrite str_app_assoc, str_app_cons, read_field_delim by by left.
    by rewrite read_join.
Qed.

(** ** Line ends *)

Lemma universal_newlines_app s t :
  no_cr s = true → universal_newlines (s +:+ t) = s +:+ universal_newlines t.
Proof.
  unfold no_cr. induction s as [|c s IH]; [done|]. simpl.
  intros [Hc Hs]%andb_true_iff. rewrite !str_app_cons. simpl.
  apply negb_true_iff in Hc. by rewrite Hc, IH.
Qed.

Lemma universal_newlines_crlf t :
  universal_newlines (lineterminator +:+ t) = String LF (universal_newlines t).
Proof. reflexivity. Qed.

Lemma universal_newlines_no_cr s : no_cr s = true → universal_newlines s = s.
Proof.
  intros H. rewrite <- (str_app_nil_r s) at 1.
  by rewrite universal_newlines_app, str_app_nil_r.
Qed.

Lemma escape_no_cr f : no_cr f = true → no_cr (escape f) = true.
Proof.
  unfold no_cr. induction f as [|c f IH]; [done|]. simpl.
  intros [Hc Hf]%andb_true_iff. destruct (bool_decide (c = quotechar)); simpl;
    by rewrite ?Hc, IH.
Qed.

Lemma write_field_no_cr f : no_cr f = true → no_cr (write_field f) = true.
Proof.
  intros Hf. unfold write_field. destruct (str_all plain f); [done|].
  pose proof (escape_no_cr _ Hf) as He.
  unfold no_cr in *. simpl. rewrite str_all_app, He. done.
Qed.

Lemma join_fields_no_cr fs :
  Forall (λ f, no_cr f = true) fs → no_cr (join_fields fs) = true.
Proof.
  induction 1 as [|f fs Hf Hfs IH]; [done|].
  destruct fs as [|g fs]; [by apply write_field_no_cr|].
  change (join_fields (f :: g :: fs))
    with (write_field f +:+ String delimiter (join_fields (g :: fs))).
  pose proof (write_field_no_cr _ Hf) as Hw.
  unfold no_cr in *. by rewrite str_all_app, Hw, str_all_cons, IH.
Qed.

Lemma record_body_no_cr fs :
  Forall (λ f, no_cr f = true) fs → no_cr (record_body fs) = true.
Proof.
  intros H. destruct fs as [|[|c f] [|g fs]]; try done; by apply join_fields_no_cr.
Qed.

Lemma write_records_app rs1 rs2 :
  write_records (rs1 ++ rs2) = write_records rs1 +:+ write_records rs2.
Proof.
  induction rs1 as [|r rs1 IH]; simpl; [done|]. by rewrite IH, str_app_assoc.
Qed.

Lemma write_records_snoc rs r :
  write_records (rs ++ [r]) = write_records rs +:+ write_record r.
Proof. rewrite write_records_app. simpl. by rewrite str_app_nil_r. Qed.

Lemma write_record_body fs : write_record fs = record_body fs +:+ lineterminator.
Proof. by destruct fs as [|[|c f] [|g fs]]. Qed.

(** Round trip: the records written by [writerows], none of whose fields
    holds a carriage return, are the records the reader returns. *)
Theorem read_write_records rs :
  Forall (Forall (λ f, no_cr f = true)) rs →
  read_records (write_records rs) = Ok rs.
Proof.
  unfold read_records. induction 1 as [|r rs Hr Hrs IH]; [done|].
  simpl. rewrite write_record_body, str_app_assoc.
  rewrite universal_newlines_app by by apply record_body_no_cr.
  rewrite universal_newlines_crlf, read_record, IH. done.
Qed.

(** ** The reader on any text *)

Lemma universal_newlines_out s : no_cr (universal_newlines s) = true.
Proof.
  unfold no_cr. assert (∀ n s, String.length s ≤ n →
    str_all not_cr (universal_newlines s) = true) as Hn;
    [|by apply (Hn (String.length s))].
  clear s. induction n as [|n IH]; intros [|c s] Hl; try done; [simpl in Hl; lia|].
  simpl in Hl. destruct (bool_decide (c = CR)) eqn:Ec.
  - destruct s as [|d s]; [by simpl; rewrite Ec|].
    destruct (bool_decide (d = LF)) eqn:Ed.
    + simpl. rewrite Ec, Ed. simpl in *. apply IH. lia.
    + change (str_all not_cr (if bool_decide (c = CR)
        then if bool_decide (d = LF) then String LF (universal_newlines s)
             else String LF (universal_newlines (String d s))
        else String c (universal_newlines (String d s))) = true).
      rewrite Ec, Ed, str_all_cons. apply IH. lia.
  - change (str_all not_cr (if bool_decide (c = CR)
      then match s with
           | String d s2 => if bool_decide (d = LF) then String LF (universal_newlines s2)
                            else String LF (universal_newlines s)
           | EmptyString => String LF EmptyString end
      else String c (universal_newlines s)) = true).
    rewrite Ec, str_all_cons. unfold not_cr at 1. rewrite Ec. apply IH. lia.
Qed.

Lemma no_cr_snoc f c : no_cr f = true → not_cr c = true → no_cr (f +:+ String c "") = true.
Proof. unfold no_cr. intros Hf Hc. by rewrite str_all_app, Hf, str_all_cons, Hc. Qed.

Lemma reader_ok_reset : reader_ok reset.
Proof. by repeat split. Qed.

Lemma not_cr_not_nl c : not_cr c = true → c ≠ LF → is_nl c = false.
Proof.
  unfold not_cr, is_nl. intros ->%negb_true_iff Hlf.
  by rewrite bool_decide_eq_false_2.
Qed.

(** A character that ends no line keeps the reader well. *)
Lemma step_char_ok r c :
  reader_ok r → not_cr c = true → c ≠ LF →
  ∃ r', step r (Some c) = Ok r' ∧ reader_ok r'.
Proof.
  intros (Hst & Hf & Hfs) Hc Hlf. pose proof (not_cr_not_nl _ Hc Hlf) as Hnl.
  pose proof (no_cr_snoc _ _ Hf Hc) as Hsnoc.
  assert (Forall (λ f, no_cr f = true) (r_fields r ++ [r_field r])) as Hsave.
  { apply Forall_app. split; [done|]. by constructor. }
  destruct r as [st f fs]. simpl in *. unfold step, step_start_field. simpl.
  destruct st; try done; rewrite ?Hnl; repeat case_match;
    eexists; (split; [reflexivity|]); by repeat split.
Qed.

(** A line feed and the end of its line keep the reader well, and the
    record they may complete holds no carriage return. *)
Lemma step_lf_ok r :
  reader_ok r →
  ∃ r1 rec r2, step r (Some LF) = Ok r1 ∧ end_line r1 = Ok (rec, r2)
    ∧ reader_ok r2 ∧ (∀ fs, rec = Some fs → Forall (λ f, no_cr f = true) fs).
Proof.
  intros (Hst & Hf & Hfs).
  assert (no_cr (r_field r +:+ String LF "") = true) as Hsnoc by by apply no_cr_snoc.
  assert (Forall (λ f, no_cr f = true) (r_fields r ++ [r_field r])) as Hsave.
  { apply Forall_app. split; [done|]. by constructor. }
  destruct r as [st f fs]. simpl in *.
  destruct st; try done; (do 3 eexists); (split; [reflexivity|]);
    (split; [reflexivity|]); simpl; (split; [by repeat split|]);
    intros ? [= <-] || intros ? [=]; done.
Qed.

Lemma end_line_ok r :
  reader_ok r →
  ∃ rec r2, end_line r = Ok (rec, r2) ∧ reader_ok r2
    ∧ (∀ fs, rec = Some fs → Forall (λ f, no_cr f = true) fs).
Proof.
  intros (Hst & Hf & Hfs).
  assert (Forall (λ f, no_cr f = true) (r_fields r ++ [r_field r])) as Hsave.
  { apply Forall_app. split; [done|]. by constructor. }
  destruct r as [st f fs]. simpl in *.
  destruct st; try done; (do 2 eexists); (split; [reflexivity|]); simpl;
    (split; [by repeat split|]); intros ? [= <-] || intros ? [=]; done.
Qed.

Lemma end_input_ok r :
  reader_ok r → Forall (Forall (λ f, no_cr f = true)) (end_input r).
Proof.
  intros (Hst & Hf & Hfs). unfold end_input. destruct (pending r); [|done].
  constructor; [|done]. apply Forall_app. split; [done|]. by constructor.
Qed.

Lemma cons_record_ok rec rs :
  (∀ fs, rec = Some fs → Forall (λ f, no_cr f = true) fs) →
  Forall (Forall (λ f, no_cr f = true)) rs →
  Forall (Forall (λ f, no_cr f = true)) (cons_record rec rs).
Proof. intros Hrec Hrs. destruct rec; simpl; [|done]. constructor; auto. Qed.

(** The reader never fails on a text without carriage return, and the
    fields it returns hold none. *)
Lemma read_chars_ok mid r s :
  no_cr s = true → reader_ok r →
  ∃ rs, read_chars mid r s = Ok rs ∧ Forall (Forall (λ f, no_cr f = true)) rs.
Proof.
  revert mid r. induction s as [|c s IH]; intros mid r Hs Hr.
  - simpl. destruct mid; [|eauto using end_input_ok].
    destruct (end_line_ok r Hr) as (rec & r2 & -> & Hr2 & Hrec). simpl.
    eauto using cons_record_ok, end_input_ok.
  - unfold no_cr in Hs. rewrite str_all_cons in Hs.
    apply andb_true_iff in Hs as [Hc Hs]. rewrite read_chars_cons.
    destruct (bool_decide (c = LF)) eqn:Elf.
    + apply bool_decide_eq_true in Elf as ->.
      destruct (step_lf_ok r Hr) as (r1 & rec & r2 & -> & Hend & Hr2 & Hrec).
      rewrite bind_Ok, Hend, bind_Ok.
      destruct (IH false r2 Hs Hr2) as (rs & -> & Hrs). simpl.
      eauto using cons_record_ok.
    + apply bool_decide_eq_false in Elf.
      destruct (step_char_ok r c Hr Hc Elf) as (r1 & -> & Hr1).
      rewrite bind_Ok. by apply IH.
Qed.

(** Reading never raises: every text is a sequence of records, and no
    field of theirs holds a carriage return. *)
Theorem read_records_total s :
  ∃ rs, read_records s = Ok rs ∧ Forall (Forall (λ f, no_cr f = true)) rs.
Proof.
  apply read_chars_ok; [apply universal_newlines_out | apply reader_ok_reset].
Qed.

(** ** Rows as dicts *)

Lemma foldl_put_some_notin d l k :
  k ∉ l.*1 → foldl put_some d l !! k = d !! k.
Proof.
  revert d. induction l as [|[k' v] l IH]; intros d Hk; [done|].
  simpl in *. apply not_elem_of_cons in Hk as [Hne Hk].
  rewrite IH by done. unfold put_some. simpl. by rewrite lookup_insert_ne.
Qed.

Lemma foldl_put_some_in d l i k v :
  NoDup l.*1 → l !! i = Some (k, v) → foldl put_some d l !! k = Some (Some v).
Proof.
  revert d i. induction l as [|[k' v'] l IH]; intros d i Hnd Hi; [done|].
  simpl in *. apply NoDup_cons in Hnd as [Hk' Hnd]. destruct i as [|i].
  - injection Hi as -> ->. rewrite foldl_put_some_notin by done.
    unfold put_some. simpl. by rewrite lookup_insert_eq.
  - eauto.
Qed.

Lemma foldl_put_none_notin d l k : k ∉ l → foldl put_none d l !! k = d !! k.
Proof.
  revert d. induction l as [|k' l IH]; intros d Hk; [done|].
  simpl. apply not_elem_of_cons in Hk as [Hne Hk].
  rewrite IH by done. unfold put_none. by rewrite lookup_insert_ne.
Qed.

Lemma foldl_put_none_in d l k : k ∈ l → foldl put_none d l !! k = Some None.
Proof.
  revert d. induction l as [|k' l IH]; intros d Hk; [by apply elem_of_nil in Hk|].
  simpl. destruct (decide (k ∈ l)) as [|Hn]; [by apply IH|].
  apply elem_of_cons in Hk as [->|]; [|done].
  rewrite foldl_put_none_notin by done. unfold put_none. by rewrite lookup_insert_eq.
Qed.

Lemma NoDup_take_drop {A} (l : list A) n k :
  NoDup l → k ∈ take n l → k ∉ drop n l.
Proof.
  intros Hnd Hin Hin'. rewrite <- (take_drop n l) in Hnd.
  apply NoDup_app in Hnd as (_ & Hd & _). by apply (Hd k).
Qed.

Lemma zip_fst_take {A B} (l : list A) (k : list B) :
  (zip l k).*1 = take (length k) l.
Proof.
  revert k. induction l as [|x l IH]; intros [|y k]; simpl; try done.
  by rewrite IH.
Qed.

Lemma NoDup_take {A} (l : list A) n : NoDup l → NoDup (take n l).
Proof. intros H. eapply sublist_NoDup; [done|]. apply sublist_take. Qed.

(** The field of a name that has one. *)
Lemma zip_row_lookup names row i k v :
  NoDup names → names !! i = Some k → row !! i = Some v →
  zip_row names row !! k = Some (Some v).
Proof.
  intros Hnd Hk Hv. unfold zip_row.
  assert (i < length row) as Hi by by eapply lookup_lt_Some.
  rewrite foldl_put_none_notin.
  - apply (foldl_put_some_in _ _ i).
    + rewrite zip_fst_take. by apply NoDup_take.
    + apply lookup_zip_with_Some. eauto.
  - apply NoDup_take_drop; [done|]. apply elem_of_take. eauto.
Qed.

(** A name beyond the fields of the record has the value [None]. *)
Lemma zip_row_lookup_short names row i k :
  names !! i = Some k → length row ≤ i → zip_row names row !! k = Some None.
Proof.
  intros Hk Hi. unfold zip_row. apply foldl_put_none_in.
  apply list_elem_of_lookup. exists (i - length row).
  rewrite lookup_drop. by replace (length row + (i - length row)) with i by lia.
Qed.

(** A name that is not in the header is no key of the row. *)
Lemma zip_row_lookup_None names row k : k ∉ names → zip_row names row !! k = None.
Proof.
  intros Hk. unfold zip_row. rewrite foldl_put_none_notin, foldl_put_some_notin; [done| |].
  - rewrite zip_fst_take. intros Hin%elem_of_take. destruct Hin as (i & Hi & _).
    by apply list_elem_of_lookup_2 in Hi.
  - intros (i & Hi)%list_elem_of_lookup. rewrite lookup_drop in Hi.
    by apply list_elem_of_lookup_2 in Hi.
Qed.

Lemma getitem_zip_row names row i k v :
  NoDup names → names !! i = Some k → row !! i = Some v →
  getitem k (zip_row names row) = Ok (Some v).
Proof. intros. unfold getitem. by erewrite zip_row_lookup. Qed.

Lemma get_zip_row names row i k v :
  NoDup names → names !! i = Some k → row !! i = Some v →
  get k (zip_row names row) = Some v.
Proof. intros. unfold get. by erewrite zip_row_lookup. Qed.

Lemma getitem_zip_row_short names row i k :
  names !! i = Some k → length row ≤ i → getitem k (zip_row names row) = Ok None.
Proof. intros. unfold getitem. by erewrite zip_row_lookup_short. Qed.

Lemma getitem_zip_row_missing names row k :
  k ∉ names → getitem k (zip_row names row) = Raise (KeyError k).
Proof. intros. unfold getitem. by rewrite zip_row_lookup_None. Qed.

(** No record is skipped when none is empty. *)
Lemma dict_rows_cons names rows :
  Forall (λ r, r ≠ []) rows → dict_rows (names :: rows) = zip_row names <$> rows.
Proof.
  intros Hne. simpl. f_equal. induction Hne as [|r rs Hr _ IH]; [done|].
  rewrite filter_cons_True by done. by rewrite IH.
Qed.

(** C38: what a [DictWriter] writes, a [DictReader] reads back: one row
    per written row, under the names of the header, provided no field
    holds a carriage return. *)
Theorem read_write_dict_rows names rows :
  Forall (λ f, no_cr f = true) names →
  Forall (Forall (λ f, no_cr f = true)) rows →
  Forall (λ r, r ≠ []) rows →
  read_dict_rows (write_dict_rows names rows) = Ok (zip_row names <$> rows).
Proof.
  intros Hn Hr Hne. unfold read_dict_rows, write_dict_rows.
  rewrite read_write_records by by constructor.
  cbn [fmap result_fmap]. by rewrite dict_rows_cons.
Qed.

Lemma read_write_dict_rows_witness :
  read_dict_rows (write_dict_rows ["id"; "note"]
                    [["1"; "a,b"]; ["2"; String quotechar "x"]; ["3"; ""]])
  = Ok (zip_row ["id"; "note"]
          <$> [["1"; "a,b"]; ["2"; String quotechar "x"]; ["3"; ""]]).
Proof.
  apply (read_write_dict_rows ["id"; "note"]
           [["1"; "a,b"]; ["2"; String quotechar "x"]; ["3"; ""]]);
    by repeat constructor.
Defined.

(** Reading a file as dicts never raises. *)
Lemma read_dict_rows_total s : ∃ rows, read_dict_rows s = Ok rows.
Proof.
  unfold read_dict_rows. destruct (read_records_total s) as (rs & -> & _). eauto.
Qed.

Lemma foldl_put_none_Some d l k v :
  foldl put_none d l !! k = Some (Some v) → d !! k = Some (Some v).
Proof.
  revert d. induction l as [|k' l IH]; intros d; [done|]. simpl.
  intros Hk%IH. unfold put_none in Hk.
  destruct (decide (k' = k)) as [->|Hne]; [by rewrite lookup_insert_eq in Hk|].
  by rewrite lookup_insert_ne in Hk.
Qed.

Lemma foldl_put_some_Some d l k v :
  foldl put_some d l !! k = Some (Some v) → d !! k = Some (Some v) ∨ v ∈ l.*2.
Proof.
  revert d. induction l as [|[k' v'] l IH]; intros d; [by left|]. simpl.
  intros [Hk|Hin]%IH; [|right; by right]. unfold put_some in Hk. simpl in Hk.
  destruct (decide (k' = k)) as [->|Hne].
  - rewrite lookup_insert_eq in Hk. injection Hk as ->. right. left.
  - rewrite lookup_insert_ne in Hk by done. by left.
Qed.

(** The values of a row are fields of its record. *)
Lemma zip_row_lookup_elem names row k v :
  zip_row names row !! k = Some (Some v) → v ∈ row.
Proof.
  unfold zip_row. intros [Hk|Hin]%foldl_put_none_Some%foldl_put_some_Some; [done|].
  revert Hin. clear. revert row. induction names as [|n names IH]; intros [|f row]; simpl;
    try by intros ?%elem_of_nil.
  intros [->|Hin]%elem_of_cons; [left|right; by apply IH].
Qed.

Lemma dict_rows_no_cr recs d k v :
  Forall (Forall (λ f, no_cr f = true)) recs →
  d ∈ dict_rows recs → d !! k = Some (Some v) → no_cr v = true.
Proof.
  intros Hrecs Hd Hk. destruct recs as [|names rest]; [by apply elem_of_nil in Hd|].
  simpl in Hd. apply list_elem_of_fmap in Hd as (row & -> & Hrow).
  apply list_elem_of_filter in Hrow as [_ Hrow].
  apply zip_row_lookup_elem in Hk. apply Forall_cons in Hrecs as [_ Hrest].
  rewrite Forall_forall in Hrest. specialize (Hrest row Hrow).
  rewrite Forall_forall in Hrest. by apply Hrest.
Qed.

(** No value of a row read from a file holds a carriage return. *)
Lemma read_dict_rows_no_cr s ds d k v :
  read_dict_rows s = Ok ds → d ∈ ds → d !! k = Some (Some v) → no_cr v = true.
Proof.
  unfold read_dict_rows. destruct (read_records_total s) as (recs & -> & Hrecs).
  intros [= <-]. by apply dict_rows_no_cr.
Qed.

End Csv.
