(* ===== verification/Fs.v ===== *)
(** * Paths and files

    The stages meet through files under [data/raw/naver/<run_id>/].  A
    path is the list of its segments, pathlib's [/] appends a segment,
    and the file system is a finite map from paths to the text of the
    files.  The text is the decoded content: the byte order mark that
    the codec [utf-8-sig] writes and removes is not part of it.
    Directories are not modelled ([mkdir(parents=True, exist_ok=True)]
    makes every write succeed).  A file that is written piece by piece
    is modelled as if it were not buffered: [append_text] adds to its
    end.

    Two paths of the model are equal exactly when pathlib builds the
    same path, as long as every segment is a plain name: not empty, not
    [.] or [..], and without a slash. *)

From stdpp Require Import base tactics option list strings gmap.
From S2P Require Import Prelude.

Module Fs.

Abbreviation path := (list string).

(** pathlib's [p / seg] *)
Definition div (p : path) (seg : string) : path := p ++ [seg].

Abbreviation fs := (gmap path string).

(** [p.exists()] *)
Definition exists_ (p : path) (files : fs) : bool :=
  bool_decide (is_Some (files !! p)).

(** The text of [p] opened for reading. *)
Definition read_text (p : path) (files : fs) : result string :=
  of_option (FileNotFoundError p) (files !! p).

(** [p] opened with mode [w], written and closed. *)
Definition write_text (p : path) (text : string) (files : fs) : fs :=
  <[p := text]> files.

(** [f.write(text)] on the file [p] while it is open for writing: the
    text goes to its end. *)
Definition append_text (p : path) (text : string) (files : fs) : fs :=
  <[p := default "" (files !! p) +:+ text]> files.

Lemma exists_true p files : exists_ p files = true ↔ is_Some (files !! p).
Proof. apply bool_decide_eq_true. Qed.

Lemma exists_false p files : exists_ p files = false ↔ files !! p = None.
Proof.
  unfold exists_. rewrite bool_decide_eq_false. by rewrite eq_None_not_Some.
Qed.

Lemma read_text_Ok p files text : read_text p files = Ok text ↔ files !! p = Some text.
Proof. unfold read_text. destruct (files !! p); simpl; naive_solver. Qed.

Lemma read_write_text p text files : read_text p (write_text p text files) = Ok text.
Proof. unfold read_text, write_text. by rewrite lookup_insert_eq. Qed.

Lemma read_write_text_ne p q text files :
  p ≠ q → read_text q (write_text p text files) = read_text q files.
Proof. intros. unfold read_text, write_text. by rewrite lookup_insert_ne. Qed.

Lemma exists_write_text p text files : exists_ p (write_text p text files) = true.
Proof. apply exists_true. unfold write_text. by rewrite lookup_insert_eq. Qed.

Lemma exists_write_text_ne p q text files :
  p ≠ q → exists_ q (write_text p text files) = exists_ q files.
Proof. intros. unfold exists_, write_text. by rewrite lookup_insert_ne. Qed.

(** Writing the same text twice is writing it once. *)
Lemma write_text_idemp p text files :
  write_text p text (write_text p text files) = write_text p text files.
Proof. apply insert_insert_eq. Qed.

Lemma append_write_text p text more files :
  append_text p more (write_text p text files) = write_text p (text +:+ more) files.
Proof.
  unfold append_text, write_text. rewrite lookup_insert_eq. apply insert_insert_eq.
Qed.

Lemma append_text_ne p q text files : p ≠ q → append_text p text files !! q = files !! q.
Proof. intros. unfold append_text. by rewrite lookup_insert_ne. Qed.

Lemma div_inj p seg seg' : div p seg = div p seg' → seg = seg'.
Proof. unfold div. by intros [= ->]%app_inv_head. Qed.

End Fs.

#[export] Hint Rewrite Fs.read_write_text Fs.exists_write_text : py.
