(* ===== verification/Prog.v ===== *)
(** * Programs: state, printed lines and exceptions

    A stage is a Python function that prints, reads and writes a shared
    state (files, tables) and may raise.  [prog S E A] is the type of
    such a computation: run from a state [S], it gives the lines it
    printed (of type [E]), the state it leaves and either a value or the
    exception that ended it.  What was printed and written before an
    exception stays so, as in Python.

    [x ← m; k] is sequencing, [print] a call of [print()], [lift] a
    call of a function that only returns or raises, [try_skip] the
    pattern [try: x = ... except Errors: continue], [catch] a [try]
    with a handler, [fold_m] a [for] loop that carries its local
    variables, [for_each] one that carries none, [zoom] a program that
    works on a part of the state.  Two programs are equivalent ([≡]) when they behave alike from
    every state; the monad laws hold up to this equivalence. *)

From stdpp Require Import base tactics option list.
From S2P Require Import Prelude.

Record prog (S E A : Type) : Type := Prog { run : S → list E * S * result A }.
Arguments Prog {S E A} _.
Arguments run {S E A} _ _.

Section prog.
Context {S E : Type}.

Definition ret {A} (a : A) : prog S E A := Prog (λ s, ([], s, Ok a)).

Definition bind {A B} (m : prog S E A) (f : A → prog S E B) : prog S E B :=
  Prog (λ s,
    match run m s with
    | (l1, s1, Ok a) => let '(l2, s2, r) := run (f a) s1 in (l1 ++ l2, s2, r)
    | (l1, s1, Raise e) => (l1, s1, Raise e)
    end).

(** [print(e)] *)
Definition print (e : E) : prog S E unit := Prog (λ s, ([e], s, Ok tt)).

(** [raise e] *)
Definition raise {A} (e : exn) : prog S E A := Prog (λ s, ([], s, Raise e)).

(** A call that only returns or raises. *)
Definition lift {A} (r : result A) : prog S E A := Prog (λ s, ([], s, r)).

(** Reading and changing the state. *)
Definition gets {A} (f : S → A) : prog S E A := Prog (λ s, ([], s, Ok (f s))).

Definition modify (f : S → S) : prog S E unit := Prog (λ s, ([], f s, Ok tt)).

(** [try: m except <the exceptions caught accepts>: h] *)
Definition catch {A} (m : prog S E A) (caught : exn → bool) (h : exn → prog S E A)
  : prog S E A :=
  Prog (λ s,
    match run m s with
    | (l1, s1, Raise e) =>
        if caught e then let '(l2, s2, r) := run (h e) s1 in (l1 ++ l2, s2, r)
        else (l1, s1, Raise e)
    | out => out
    end).

(** A block whose changes to the state are undone when it raises:
    [restore s0 s1] is the state [s1] with the part under the
    transaction put back to what it was in [s0]. *)
Definition atomically {A} (restore : S → S → S) (m : prog S E A) : prog S E A :=
  Prog (λ s,
    match run m s with
    | (l1, s1, Raise e) => (l1, restore s s1, Raise e)
    | out => out
    end).

Definition prog_equiv {A} (m1 m2 : prog S E A) : Prop := ∀ s, run m1 s = run m2 s.

End prog.

(** A program of one stage as a part of a larger one: its events are
    tagged with [f]. *)
Definition with_events {S E E' A} (f : E → E') (m : prog S E A) : prog S E' A :=
  Prog (λ s, let '(l, s', r) := run m s in (f <$> l, s', r)).

(** A program on a part of the state: [get] reads the part and [set]
    puts it back. *)
Definition zoom {S T E A} (get : T → S) (set : S → T → T) (m : prog S E A)
  : prog T E A :=
  Prog (λ t, let '(l, s', r) := run m (get t) in (l, set s' t, r)).

#[export] Instance prog_ret {S E} : MRet (prog S E) := @ret S E.
#[export] Instance prog_bind {S E} : MBind (prog S E) := λ A B f m, bind m f.
#[export] Instance prog_equiv_inst {S E A} : Equiv (prog S E A) := prog_equiv.

(** [try: x = r except <caught>: continue]: the value, or [None] when
    an exception that is caught was raised; the others propagate. *)
Definition try_skip {A} (caught : exn → bool) (r : result A) : result (option A) :=
  match r with
  | Ok a => Ok (Some a)
  | Raise e => if caught e then Ok None else Raise e
  end.

Section loops.
Context {S E : Type}.

(** [for x in l: acc = body(acc, x)] *)
Fixpoint fold_m {A B} (body : B → A → prog S E B) (l : list A) (acc : B)
  : prog S E B :=
  match l with
  | [] => mret acc
  | x :: l' => acc' ← body acc x; fold_m body l' acc'
  end.

(** [for x in l: body(x)] *)
Definition for_each {A} (body : A → prog S E unit) (l : list A) : prog S E unit :=
  fold_m (λ _ x, body x) l tt.

End loops.

(** The parts of an outcome. *)
Definition printed {S E A} (out : list E * S * result A) : list E := out.1.1.
Definition final {S E A} (out : list E * S * result A) : S := out.1.2.
Definition returned {S E A} (out : list E * S * result A) : result A := out.2.

Section prog_lemmas.
Context {S E : Type}.
Implicit Types s : S.

#[export] Instance prog_equiv_equivalence {A} : Equivalence (≡@{prog S E A}).
Proof.
  split; [by intros m s | by intros m1 m2 H s |].
  intros m1 m2 m3 H1 H2 s. by rewrite (H1 s).
Qed.

Lemma run_ret {A} (a : A) s : run (mret a : prog S E A) s = ([], s, Ok a).
Proof. reflexivity. Qed.

Lemma run_bind {A B} (m : prog S E A) (f : A → prog S E B) s :
  run (m ≫= f) s =
    match run m s with
    | (l1, s1, Ok a) => let '(l2, s2, r) := run (f a) s1 in (l1 ++ l2, s2, r)
    | (l1, s1, Raise e) => (l1, s1, Raise e)
    end.
Proof. reflexivity. Qed.

Lemma run_bind_Ok {A B} (m : prog S E A) (f : A → prog S E B) s l1 s1 a :
  run m s = (l1, s1, Ok a) →
  run (m ≫= f) s = (l1 ++ printed (run (f a) s1), final (run (f a) s1),
                     returned (run (f a) s1)).
Proof. intros Hm. rewrite run_bind, Hm. by destruct (run (f a) s1) as [[??]?]. Qed.

Lemma run_bind_Raise {A B} (m : prog S E A) (f : A → prog S E B) s l1 s1 e :
  run m s = (l1, s1, Raise e) → run (m ≫= f) s = (l1, s1, Raise e).
Proof. intros Hm. by rewrite run_bind, Hm. Qed.

Lemma run_bind_lift {A B} (r : result A) (f : A → prog S E B) s :
  run (lift r ≫= f) s =
    match r with Ok a => run (f a) s | Raise e => ([], s, Raise e) end.
Proof. rewrite run_bind. destruct r; simpl; [|done]. by destruct (run (f a) s) as [[??]?]. Qed.

Lemma run_bind_print {B} (e : E) (k : prog S E B) s :
  run (print e ;; k) s = (e :: printed (run k s), final (run k s), returned (run k s)).
Proof. rewrite run_bind. simpl. by destruct (run k s) as [[??]?]. Qed.

Lemma run_bind_gets {A B} (g : S → A) (f : A → prog S E B) s :
  run (gets g ≫= f) s = run (f (g s)) s.
Proof. rewrite run_bind. simpl. by destruct (run (f (g s)) s) as [[??]?]. Qed.

Lemma run_bind_modify {B} (g : S → S) (k : prog S E B) s :
  run (modify g ;; k) s = run k (g s).
Proof. rewrite run_bind. simpl. by destruct (run k (g s)) as [[??]?]. Qed.

(** ** The monad laws *)

Lemma bind_ret_l {A B} (a : A) (f : A → prog S E B) : mret a ≫= f ≡ f a.
Proof. intros s. rewrite run_bind. simpl. by destruct (run (f a) s) as [[??]?]. Qed.

Lemma bind_ret_r {A} (m : prog S E A) : m ≫= mret ≡ m.
Proof.
  intros s. rewrite run_bind. destruct (run m s) as [[l s1] [a|e]]; simpl; [|done].
  by rewrite app_nil_r.
Qed.

Lemma bind_assoc {A B C} (m : prog S E A) (f : A → prog S E B) (g : B → prog S E C) :
  (m ≫= f) ≫= g ≡ m ≫= (λ a, f a ≫= g).
Proof.
  intros s. rewrite !run_bind. destruct (run m s) as [[l1 s1] [a|e]]; [|done].
  rewrite run_bind. destruct (run (f a) s1) as [[l2 s2] [b|e]]; [|done].
  destruct (run (g b) s2) as [[l3 s3] r]. by rewrite app_assoc.
Qed.

#[export] Instance bind_proper {A B} :
  Proper (pointwise_relation A (≡) ==> (≡) ==> (≡)) (mbind (M:=prog S E) (A:=A) (B:=B)).
Proof.
  intros f g Hfg m1 m2 Hm s. rewrite !run_bind, (Hm s).
  destruct (run m2 s) as [[l1 s1] [a|e]]; [|done]. by rewrite (Hfg a s1).
Qed.

(** ** [try_skip] *)

Lemma try_skip_Some {A} caught (r : result A) a :
  try_skip caught r = Ok (Some a) ↔ r = Ok a.
Proof.
  destruct r as [a'|e]; simpl; [split; congruence|].
  by destruct (caught e).
Qed.

Lemma try_skip_None {A} caught (r : result A) :
  try_skip caught r = Ok None ↔ ∃ e, r = Raise e ∧ caught e = true.
Proof.
  destruct r as [a'|e]; simpl; [split; [done | by intros (? & ? & _)]|].
  destruct (caught e) eqn:He; split; try done; eauto.
  intros (? & [= <-] & ?). congruence.
Qed.

Lemma try_skip_Raise {A} caught (r : result A) e :
  try_skip caught r = Raise e ↔ r = Raise e ∧ caught e = false.
Proof.
  destruct r as [a'|e']; simpl; [split; [done | by intros [? _]]|].
  destruct (caught e') eqn:He; split.
  - done.
  - intros [[= <-] ?]. congruence.
  - by intros [= <-].
  - by intros [[= <-] _].
Qed.

(** ** Loops *)

Lemma fold_m_nil {A B} (body : B → A → prog S E B) acc s :
  run (fold_m body [] acc) s = ([], s, Ok acc).
Proof. reflexivity. Qed.

Lemma fold_m_cons {A B} (body : B → A → prog S E B) x l acc :
  fold_m body (x :: l) acc = (body acc x ≫= fold_m body l).
Proof. reflexivity. Qed.

(** A loop over [l1 ++ l2] is the loop over [l1] followed by the loop
    over [l2]. *)
Lemma fold_m_app {A B} (body : B → A → prog S E B) l1 l2 acc :
  fold_m body (l1 ++ l2) acc ≡ fold_m body l1 acc ≫= fold_m body l2.
Proof.
  revert acc. induction l1 as [|x l1 IH]; intros acc s.
  - symmetry. exact (bind_ret_l acc (fold_m body l2) s).
  - rewrite <- app_comm_cons, !fold_m_cons, (bind_assoc _ _ _ s), !run_bind.
    destruct (run (body acc x) s) as [[l s1] [b|e]]; [|done]. by rewrite (IH b s1).
Qed.

End prog_lemmas.

#[export] Hint Rewrite @run_ret @run_bind_lift @run_bind_print @run_bind_gets
  @run_bind_modify : py.
