(* ===== verification/Db.v ===== *)
(** * The tables and the statements the stages run on them

    The stages reach the database through four SQL statements, written
    out in the sources:

    - [run_naver_trend_crawl.py] lines 31-44:
      [SELECT model_id, brand_name, model_name_kr FROM car_model
      WHERE brand_name IN (:b0, :b1, ...) ORDER BY brand_name,
      model_name_kr], executed with the dict that binds the names
      ([execute_select_models]: a placeholder [:name] takes the value
      bound to [name] ([bind_name], [bound_values]), a name that is
      not bound and an empty [IN ()] are errors; [select_models] is
      the query on the values);
    - [load_naver_interest_detail.py] lines 32-55:
      [INSERT INTO model_monthly_interest_detail ... ON DUPLICATE KEY
      UPDATE ratio = VALUES(ratio)]                      ([upsert_detail]);
    - [aggregate_naver_interest.py] lines 20-30:
      [SELECT model_id, month, AVG(ratio) ... GROUP BY model_id, month
      ORDER BY month, model_id]                          ([select_avg]);
    - [aggregate_naver_interest.py] lines 64-87:
      [INSERT INTO model_monthly_interest ... ON DUPLICATE KEY UPDATE
      naver_search_index = VALUES(naver_search_index)]   ([upsert_summary]).

    A table is the list of its rows in the order of insertion.  The
    statements have the meaning MySQL gives them:

    - a new row conflicts with a stored one when they agree on every
      column of the unique key and none of these is [NULL]: a [NULL]
      never equals anything, itself included;
    - on a conflict the stored row is kept and only the column named
      after [UPDATE] is assigned; otherwise the new row is appended,
      [NOW()] giving its [created_at];
    - [AVG] skips the [NULL]s of its group and is [NULL] when nothing is
      left; it is computed exactly, as a rational number: the rounding
      of the floating-point division is not modelled.  [avg_Some]
      characterises it by [x * count xs = total xs], and [avg_bounds]
      places it between the bounds of the values;
    - a value that is not a finite number cannot be stored.

    The schema is not part of the sources.  The columns are those the
    statements name, and the unique keys are the ones [ON DUPLICATE KEY]
    relies on: [(model_id, month, device, gender, age_group)] for the
    detail table and [(model_id, month)] for the summary table, where
    [model_id] and [month] are never [NULL].  The columns of the catalog
    table are not [NULL] either.  Whatever else the schema
    demands (types, lengths, foreign keys) is the class [Schema]: the
    theorems hold for every instance.  Strings are compared byte by
    byte (no collation), and [month] is ordered as a string, which is
    the order of dates for months of the form [YYYY-MM-DD].

    [upsert_detail_conflict] states the effect of a conflict column by
    column: the stored row keeps its place, its key and its
    [created_at], and takes the new ratio. *)

From Stdlib Require Import Ascii ZArith QArith Qcanon OrdersEx.
From stdpp Require Import base tactics option list strings sorting gmap.
From S2P Require Import Prelude PyFloat DecFloat.

Local Close Scope Q_scope.
Local Close Scope Qc_scope.

Module Db.

(** Update the first element that satisfies [P]. *)
Fixpoint update_first {A} (P : A → bool) (f : A → A) (l : list A) : list A :=
  match l with
  | [] => []
  | x :: l' => if P x then f x :: l' else x :: update_first P f l'
  end.

(** The mean of a list of numbers; [None] is [NULL]. *)
Definition avg (xs : list Qc) : option Qc :=
  match xs with
  | [] => None
  | _ => Some (foldr Qcplus (Q2Qc 0) xs / Q2Qc (inject_Z (Z.of_nat (length xs))))%Qc
  end.

(** The sum of a list of numbers, and the number of its elements. *)
Definition total (xs : list Qc) : Qc := foldr Qcplus (Q2Qc 0) xs.

Definition count (xs : list Qc) : Qc := Q2Qc (inject_Z (Z.of_nat (length xs))).

(** The order of [ORDER BY month, model_id]. *)
Definition group_le (a b : string * Z) : Prop :=
  a.1 ≠ b.1 ∧ String.leb a.1 b.1 = true ∨ a.1 = b.1 ∧ (a.2 ≤ b.2)%Z.

#[export] Instance group_le_dec : RelDecision group_le.
Proof. intros a b. unfold group_le. apply _. Defined.

(** ** The catalog table *)

(** A row of [car_model]: the columns the fetcher selects. *)
Record car_model : Type := CarModel {
  c_model_id : Z;
  c_brand_name : string;
  c_model_name_kr : string;
}.

#[export] Instance car_model_eq_dec : EqDecision car_model.
Proof. solve_decision. Defined.

(** The order of [ORDER BY brand_name, model_name_kr]. *)
Definition model_le (a b : car_model) : Prop :=
  c_brand_name a ≠ c_brand_name b
    ∧ String.leb (c_brand_name a) (c_brand_name b) = true
  ∨ c_brand_name a = c_brand_name b
    ∧ String.leb (c_model_name_kr a) (c_model_name_kr b) = true.

#[export] Instance model_le_dec : RelDecision model_le.
Proof. intros a b. unfold model_le. apply _. Defined.

(** [SELECT model_id, brand_name, model_name_kr FROM car_model
    WHERE brand_name IN (...) ORDER BY brand_name, model_name_kr] *)
Definition select_models (brands : list string) (t : list car_model)
  : list car_model :=
  merge_sort model_le (filter (λ r, c_brand_name r ∈ brands) t).

(** The name of a placeholder [:name]. *)
Definition bind_name (placeholder : string) : option string :=
  match placeholder with
  | String ":"%char name => Some name
  | _ => None
  end.

(** The values bound to the placeholders of a statement, when each has
    one. *)
Definition bound_values (placeholders : list string) (params : gmap string string)
  : option (list string) :=
  mapM (λ ph, bind_name ph ≫= (params !!.)) placeholders.

(** [conn.execute(sql, params)] for that statement, given the
    placeholders of its [IN] list and the parameters: a list without
    placeholders reads [IN ()], which MySQL refuses, as the driver does
    a placeholder without a value. *)
Definition execute_select_models (placeholders : list string)
    (params : gmap string string) (t : list car_model) : result (list car_model) :=
  match placeholders with
  | [] => Raise DbError
  | _ =>
      match bound_values placeholders params with
      | Some brands => Ok (select_models brands t)
      | None => Raise DbError
      end
  end.

Section tables.
Context `{FloatOps}.

(** ** The detail table *)

Record detail_row : Type := DetailRow {
  d_model_id : Z;
  d_month : string;
  d_device : option string;
  d_gender : option string;
  d_age_group : option string;
  d_ratio : option float;
  d_created_at : nat;
}.

(** The parameters bound to the loader's statement. *)
Record detail_params : Type := DetailParams {
  p_model_id : Z;
  p_month : option string;
  p_device : option string;
  p_gender : option string;
  p_age_group : option string;
  p_ratio : float;
}.

(** The columns of the unique key. *)
Definition detail_key : Type :=
  Z * string * option string * option string * option string.

Definition key_of (r : detail_row) : detail_key :=
  (d_model_id r, d_month r, d_device r, d_gender r, d_age_group r).

(** A key without [NULL]. *)
Definition complete (k : detail_key) : bool :=
  match k with
  | (_, _, Some _, Some _, Some _) => true
  | _ => false
  end.

(** Two keys conflict when they are equal and hold no [NULL]. *)
Definition conflicts (k1 k2 : detail_key) : bool :=
  bool_decide (k1 = k2) && complete k1.

Definition set_ratio (x : float) (r : detail_row) : detail_row :=
  DetailRow (d_model_id r) (d_month r) (d_device r) (d_gender r)
    (d_age_group r) (Some x) (d_created_at r).

Definition new_detail (now : nat) (k : detail_key) (x : float) : detail_row :=
  let '(model_id, month, device, gender, age_group) := k in
  DetailRow model_id month device gender age_group (Some x) now.

(** [INSERT ... ON DUPLICATE KEY UPDATE ratio = VALUES(ratio)] *)
Definition upsert_detail (now : nat) (k : detail_key) (x : float)
    (t : list detail_row) : list detail_row :=
  if existsb (λ r, conflicts k (key_of r)) t
  then update_first (λ r, conflicts k (key_of r)) (set_ratio x) t
  else t ++ [new_detail now k x].

(** No two rows of the table conflict. *)
Definition detail_unique (t : list detail_row) : Prop :=
  ∀ i j ri rj, t !! i = Some ri → t !! j = Some rj →
    conflicts (key_of ri) (key_of rj) = true → i = j.

(** The table as a map from keys to ratios: the ratio of the first row
    with the key. *)
Definition detail_view (t : list detail_row) : gmap detail_key (option float) :=
  list_to_map ((λ r, (key_of r, d_ratio r)) <$> t).

(** ** The summary table *)

Record summary_row : Type := SummaryRow {
  s_model_id : Z;
  s_month : string;
  s_naver_search_index : option Qc;
  s_google_trend_index : option Qc;
  s_danawa_pop_rank : option Z;
  s_danawa_pop_rank_size : option Z;
  s_created_at : nat;
}.

Definition same_summary (model_id : Z) (month : string) (r : summary_row) : bool :=
  bool_decide (s_model_id r = model_id) && bool_decide (s_month r = month).

Definition set_naver_search_index (x : Qc) (r : summary_row) : summary_row :=
  SummaryRow (s_model_id r) (s_month r) (Some x) (s_google_trend_index r)
    (s_danawa_pop_rank r) (s_danawa_pop_rank_size r) (s_created_at r).

Definition new_summary (now : nat) (model_id : Z) (month : string) (x : Qc)
  : summary_row :=
  SummaryRow model_id month (Some x) None None None now.

(** [INSERT ... ON DUPLICATE KEY UPDATE naver_search_index =
    VALUES(naver_search_index)] *)
Definition upsert_summary (now : nat) (model_id : Z) (month : string) (x : Qc)
    (t : list summary_row) : list summary_row :=
  if existsb (same_summary model_id month) t
  then update_first (same_summary model_id month) (set_naver_search_index x) t
  else t ++ [new_summary now model_id month x].

(** The key of a summary row. *)
Definition summary_key (r : summary_row) : Z * string := (s_model_id r, s_month r).

(** The columns of a summary row that the aggregator never assigns. *)
Definition other_columns (r : summary_row)
  : Z * string * option Qc * option Z * option Z * nat :=
  (s_model_id r, s_month r, s_google_trend_index r, s_danawa_pop_rank r,
   s_danawa_pop_rank_size r, s_created_at r).

(** No two rows of the summary table have the same key. *)
Definition summary_unique (t : list summary_row) : Prop :=
  NoDup (summary_key <$> t).

(** ** The aggregate query *)

(** The group of a detail row. *)
Definition group_of (r : detail_row) : string * Z := (d_month r, d_model_id r).

(** The groups of the table, each once. *)
Definition groups (t : list detail_row) : list (string * Z) :=
  remove_dups (group_of <$> t).

(** [AVG(ratio)] over the rows of a group. *)
Definition group_avg (t : list detail_row) (g : string * Z) : option Qc :=
  avg (float_value <$> omap d_ratio (filter (λ r, group_of r = g) t)).

(** [SELECT model_id, month, AVG(ratio) ... GROUP BY model_id, month
    ORDER BY month, model_id] *)
Definition select_avg (t : list detail_row) : list (Z * string * option Qc) :=
  (λ g, (g.2, g.1, group_avg t g)) <$> merge_sort group_le (groups t).

(** The group of a row of the result. *)
Definition row_group (row : Z * string * option Qc) : string * Z := (row.1.2, row.1.1).

(** ** Executing a statement *)

(** What the schema accepts beyond the rules above. *)
Class Schema : Type := {
  detail_ok : detail_params → bool;
  summary_ok : Z → string → Qc → bool;
}.

Context `{Schema}.

(** The loader's statement with its parameters bound. *)
Definition execute_upsert_detail (now : nat) (p : detail_params)
    (t : list detail_row) : result (list detail_row) :=
  match p_month p with
  | Some month =>
      if float_finite (p_ratio p) && detail_ok p
      then Ok (upsert_detail now
                 (p_model_id p, month, p_device p, p_gender p, p_age_group p)
                 (p_ratio p) t)
      else Raise DbError
  | None => Raise DbError
  end.

(** The aggregator's statement with its parameters bound. *)
Definition execute_upsert_summary (now : nat) (model_id : Z) (month : string)
    (x : Qc) (t : list summary_row) : result (list summary_row) :=
  if summary_ok model_id month x
  then Ok (upsert_summary now model_id month x t)
  else Raise DbError.

End tables.

(** A schema that asks for nothing more. *)
Definition accept_all `{FloatOps} : Schema :=
  {| detail_ok := λ _, true; summary_ok := λ _ _ _, true |}.

#[export] Instance detail_row_eq_dec `{FloatOps} : EqDecision detail_row.
Proof. solve_decision. Defined.

#[export] Instance summary_row_eq_dec : EqDecision summary_row.
Proof. solve_decision. Defined.

(** ** Lemmas on [update_first] *)

Section update_first.
Context {A : Type} (P : A → bool) (f : A → A).

Lemma update_first_length l : length (update_first P f l) = length l.
Proof. induction l as [|x l IH]; simpl; [done|]. destruct (P x); simpl; congruence. Qed.

Lemma update_first_none l : existsb P l = false → update_first P f l = l.
Proof.
  induction l as [|x l IH]; simpl; [done|]. intros [-> ?]%orb_false_iff.
  by rewrite IH.
Qed.

(** The element that is updated: the first that satisfies [P]. *)
Lemma update_first_split l :
  existsb P l = true →
  ∃ l1 x l2, l = l1 ++ x :: l2 ∧ existsb P l1 = false ∧ P x = true
    ∧ update_first P f l = l1 ++ f x :: l2.
Proof.
  induction l as [|x l IH]; simpl; [done|]. destruct (P x) eqn:Hx.
  - intros _. by exists [], x, l.
  - simpl. intros (l1 & y & l2 & -> & Hl1 & Hy & ->)%IH.
    exists (x :: l1), y, l2. simpl. by rewrite Hx, Hl1.
Qed.

Lemma update_first_app_r l1 x l2 :
  existsb P l1 = false → P x = true →
  update_first P f (l1 ++ x :: l2) = l1 ++ f x :: l2.
Proof.
  induction l1 as [|y l1 IH]; simpl; [by intros _ ->|].
  intros [-> ?]%orb_false_iff ?. by rewrite IH.
Qed.
End update_first.

Lemma existsb_false {A} (P : A → bool) l : existsb P l = false ↔ Forall (λ x, P x = false) l.
Proof.
  induction l as [|x l IH]; simpl; [by split|].
  rewrite orb_false_iff, Forall_cons, IH. done.
Qed.

Section detail.
Context `{FloatOps}.
Implicit Types (t : list detail_row) (k : detail_key) (r : detail_row).

Lemma key_of_set_ratio x r : key_of (set_ratio x r) = key_of r.
Proof. reflexivity. Qed.

Lemma key_of_new_detail now k x : key_of (new_detail now k x) = k.
Proof. by destruct k as [[[[??]?]?]?]. Qed.

Lemma d_ratio_new_detail now k x : d_ratio (new_detail now k x) = Some x.
Proof. by destruct k as [[[[??]?]?]?]. Qed.

Lemma conflicts_true k k' : conflicts k k' = true ↔ k = k' ∧ complete k = true.
Proof. unfold conflicts. by rewrite andb_true_iff, bool_decide_eq_true. Qed.

Lemma conflicts_incomplete k k' : complete k = false → conflicts k k' = false.
Proof. unfold conflicts. intros ->. apply andb_false_r. Qed.

Lemma conflicts_complete k k' :
  complete k = true → conflicts k k' = bool_decide (k = k').
Proof. unfold conflicts. intros ->. apply andb_true_r. Qed.

(** A key with a [NULL] never meets a conflict: the row is appended. *)
Lemma upsert_detail_incomplete now k x t :
  complete k = false → upsert_detail now k x t = t ++ [new_detail now k x].
Proof.
  intros Hk. unfold upsert_detail.
  rewrite (proj2 (existsb_false _ t)); [done|].
  apply Forall_forall. intros r _. by apply conflicts_incomplete.
Qed.

Lemma upsert_detail_absent now k x t :
  Forall (λ r, key_of r ≠ k) t → upsert_detail now k x t = t ++ [new_detail now k x].
Proof.
  intros Hk. unfold upsert_detail. rewrite (proj2 (existsb_false _ t)); [done|].
  eapply Forall_impl; [done|]. intros r Hr. simpl.
  destruct (conflicts k (key_of r)) eqn:Hc; [|done].
  by apply conflicts_true in Hc as [-> _].
Qed.

Lemma upsert_detail_present now k x t1 r t2 :
  complete k = true → Forall (λ r, key_of r ≠ k) t1 → key_of r = k →
  upsert_detail now k x (t1 ++ r :: t2) = t1 ++ set_ratio x r :: t2.
Proof.
  intros Hk Ht1 Hr. unfold upsert_detail.
  assert (existsb (λ r, conflicts k (key_of r)) t1 = false) as Hn.
  { apply existsb_false. eapply Forall_impl; [done|]. intros r' Hr'. simpl.
    rewrite conflicts_complete by done. by apply bool_decide_eq_false_2. }
  assert (conflicts k (key_of r) = true) as Hc.
  { rewrite conflicts_complete by done. by apply bool_decide_eq_true_2. }
  rewrite existsb_app, Hn. simpl. rewrite Hc. simpl.
  by apply update_first_app_r.
Qed.

(** Whether a complete key is in the table decides between the two. *)
Lemma detail_key_cases k t :
  Forall (λ r, key_of r ≠ k) t
  ∨ ∃ t1 r t2, t = t1 ++ r :: t2 ∧ Forall (λ r, key_of r ≠ k) t1 ∧ key_of r = k.
Proof.
  induction t as [|r t IH]; [by left|].
  destruct (decide (key_of r = k)) as [Hr|Hr]; [right; by exists [], r, t|].
  destruct IH as [IH|(t1 & r' & t2 & -> & Ht1 & Hr')]; [left; by constructor|].
  right. exists (r :: t1), r', t2. by repeat constructor.
Qed.

Lemma set_ratio_set_ratio x y r : set_ratio x (set_ratio y r) = set_ratio x r.
Proof. reflexivity. Qed.

Lemma set_ratio_new_detail now k x y : set_ratio x (new_detail now k y) = new_detail now k x.
Proof. by destruct k as [[[[??]?]?]?]. Qed.

(** Upserting a key without [NULL] a second time is upserting it
    once, whatever the time of the second statement: the row count
    and the ratio are those of the last statement. *)
Theorem upsert_detail_idemp now now' k x y t :
  complete k = true →
  upsert_detail now' k x (upsert_detail now k y t) = upsert_detail now k x t.
Proof.
  intros Hk. destruct (detail_key_cases k t) as [Ht|(t1 & r & t2 & -> & Ht1 & Hr)].
  - rewrite !(upsert_detail_absent now) by done.
    rewrite upsert_detail_present; [|done..|apply key_of_new_detail].
    by rewrite set_ratio_new_detail.
  - rewrite !(upsert_detail_present now) by done.
    by rewrite upsert_detail_present.
Qed.

(** The statement row by row: the first row that conflicts takes the
    ratio; a table without such a row gets the new row at its end. *)
Lemma upsert_detail_nil now k x : upsert_detail now k x [] = [new_detail now k x].
Proof. reflexivity. Qed.

Lemma upsert_detail_cons now k x r t :
  upsert_detail now k x (r :: t)
  = if conflicts k (key_of r) then set_ratio x r :: t
    else r :: upsert_detail now k x t.
Proof.
  unfold upsert_detail. simpl. destruct (conflicts k (key_of r)); [done|]. simpl.
  by destruct (existsb _ t).
Qed.

(** The keys of the table stay, and the key upserted is among them. *)
Lemma upsert_detail_keys_mono now k x t k' :
  k' ∈ key_of <$> t → k' ∈ key_of <$> upsert_detail now k x t.
Proof.
  induction t as [|r t IH]; [by intros ?%elem_of_nil|].
  rewrite upsert_detail_cons, fmap_cons.
  destruct (conflicts k (key_of r)); rewrite fmap_cons, ?key_of_set_ratio, !elem_of_cons;
    intros [->|?]; auto.
Qed.

Lemma upsert_detail_keys_in now k x t : k ∈ key_of <$> upsert_detail now k x t.
Proof.
  induction t as [|r t IH].
  - rewrite upsert_detail_nil, fmap_cons, key_of_new_detail. apply elem_of_cons; auto.
  - rewrite upsert_detail_cons. destruct (conflicts k (key_of r)) eqn:Hc.
    + apply conflicts_true in Hc as [-> _]. rewrite fmap_cons, key_of_set_ratio.
      apply elem_of_cons; auto.
    + rewrite fmap_cons. apply elem_of_cons; auto.
Qed.

(** Statements on different keys commute when the table has one of the
    keys: what one updates the other leaves alone. *)
Lemma upsert_detail_comm now now' k1 x1 k2 x2 t :
  complete k1 = true → k1 ≠ k2 → k1 ∈ key_of <$> t →
  upsert_detail now k1 x1 (upsert_detail now' k2 x2 t)
  = upsert_detail now' k2 x2 (upsert_detail now k1 x1 t).
Proof.
  intros Hk1 Hne. induction t as [|r t IH]; [by intros ?%elem_of_nil|].
  rewrite fmap_cons, elem_of_cons, !(upsert_detail_cons _ _ _ r).
  destruct (conflicts k1 (key_of r)) eqn:H1, (conflicts k2 (key_of r)) eqn:H2;
    rewrite !upsert_detail_cons, ?key_of_set_ratio, ?H1, ?H2; intros Hin.
  - apply conflicts_true in H1 as [-> _]. by apply conflicts_true in H2 as [-> _].
  - done.
  - done.
  - f_equal. apply IH. destruct Hin as [->|?]; [|done].
    by rewrite conflicts_complete, bool_decide_eq_true_2 in H1.
Qed.

(** On a key of the table the statement does not read the clock. *)
Lemma upsert_detail_time now now' k x t :
  complete k = true → k ∈ key_of <$> t →
  upsert_detail now' k x t = upsert_detail now k x t.
Proof.
  intros Hk Hin. destruct (detail_key_cases k t) as [Ht|(t1 & r & t2 & -> & Ht1 & Hr)].
  - apply list_elem_of_fmap in Hin as (r & -> & Hr).
    rewrite Forall_forall in Ht. by destruct (Ht r).
  - by rewrite !upsert_detail_present.
Qed.

(** A statement on a key of the table does not look past the rows of
    the table. *)
Lemma upsert_detail_app_in now k x t ex :
  complete k = true → k ∈ key_of <$> t →
  upsert_detail now k x (t ++ ex) = upsert_detail now k x t ++ ex.
Proof.
  intros Hk Hin. destruct (detail_key_cases k t) as [Ht|(t1 & r & t2 & -> & Ht1 & Hr)].
  - apply list_elem_of_fmap in Hin as (r & -> & Hr).
    rewrite Forall_forall in Ht. by destruct (Ht r).
  - rewrite <- app_assoc, <- app_comm_cons, !upsert_detail_present by done.
    by rewrite <- app_assoc.
Qed.

Lemma detail_unique_app_new t r :
  detail_unique t → Forall (λ r', conflicts (key_of r') (key_of r) = false) t →
  detail_unique (t ++ [r]).
Proof.
  intros Hu Hr i j ri rj Hi Hj Hc.
  apply lookup_snoc_Some in Hi as [[Hil Hi]|[-> <-]];
    apply lookup_snoc_Some in Hj as [[Hjl Hj]|[-> <-]]; try done.
  - by apply (Hu i j ri rj).
  - rewrite Forall_forall in Hr. rewrite Hr in Hc; [done|].
    by eapply list_elem_of_lookup_2.
  - apply conflicts_true in Hc as [Hk Hc]. rewrite Forall_forall in Hr.
    assert (conflicts (key_of rj) (key_of r) = true) as Hc'.
    { apply conflicts_true. by rewrite <- Hk. }
    rewrite Hr in Hc'; [done|]. by eapply list_elem_of_lookup_2.
Qed.

Lemma detail_unique_keys t t' :
  key_of <$> t' = key_of <$> t → detail_unique t → detail_unique t'.
Proof.
  intros Hk Hu i j ri rj Hi Hj Hc.
  assert (∀ i r, t' !! i = Some r → ∃ r0, t !! i = Some r0 ∧ key_of r0 = key_of r) as Hl.
  { intros i' r' Hi'. apply (f_equal (λ l, l !! i')) in Hk.
    rewrite !list_lookup_fmap, Hi' in Hk.
    destruct (t !! i') as [r0|]; simplify_eq/=. exists r0. split; [done|].
    unfold key_of. congruence. }
  destruct (Hl i ri Hi) as (ri0 & Hi0 & Hki), (Hl j rj Hj) as (rj0 & Hj0 & Hkj).
  apply (Hu i j ri0 rj0); [done..|]. by rewrite Hki, Hkj.
Qed.

(** The statement keeps the unique key unique. *)
Lemma upsert_detail_unique now k x t :
  detail_unique t → detail_unique (upsert_detail now k x t).
Proof.
  intros Hu. destruct (complete k) eqn:Hk; cycle 1.
  { rewrite upsert_detail_incomplete by done. apply detail_unique_app_new; [done|].
    apply Forall_forall. intros r _. rewrite key_of_new_detail.
    destruct (conflicts (key_of r) k) eqn:Hc; [|done].
    apply conflicts_true in Hc as [-> ?]. congruence. }
  destruct (detail_key_cases k t) as [Ht|(t1 & r & t2 & -> & Ht1 & Hr)].
  - rewrite upsert_detail_absent by done. apply detail_unique_app_new; [done|].
    eapply Forall_impl; [done|]. intros r Hr. simpl. rewrite key_of_new_detail.
    destruct (conflicts (key_of r) k) eqn:Hc; [|done].
    by apply conflicts_true in Hc as [? _].
  - rewrite upsert_detail_present by done. revert Hu. apply detail_unique_keys.
    by rewrite !fmap_app, !fmap_cons, key_of_set_ratio.
Qed.

(** C11: on a conflict the stored row keeps every column but [ratio],
    its [created_at] included, and takes the new ratio; the table
    changes nowhere else: no row is added, none moves, and the time of
    the statement is not recorded. *)
Theorem upsert_detail_conflict now k x t i r :
  detail_unique t → complete k = true → t !! i = Some r → key_of r = k →
  upsert_detail now k x t
  = <[i := DetailRow (d_model_id r) (d_month r) (d_device r) (d_gender r)
             (d_age_group r) (Some x) (d_created_at r)]> t.
Proof.
  intros Hu Hk Hi Hr.
  destruct (detail_key_cases k t) as [Ht|(t1 & r' & t2 & -> & Ht1 & Hr')].
  { rewrite Forall_forall in Ht. destruct (Ht r); [by eapply list_elem_of_lookup_2|done]. }
  assert (i = length t1) as ->.
  { apply (Hu i (length t1) r r'); [done|by rewrite list_lookup_middle|].
    apply conflicts_true. by rewrite Hr, Hr'. }
  rewrite list_lookup_middle in Hi by done. injection Hi as <-.
  rewrite upsert_detail_present by done.
  by rewrite insert_app_r_alt, Nat.sub_diag by lia.
Qed.

Lemma detail_view_app t1 t2 :
  detail_view (t1 ++ t2) = detail_view t1 ∪ detail_view t2.
Proof. unfold detail_view. by rewrite fmap_app, list_to_map_app. Qed.

Lemma detail_view_absent k t :
  Forall (λ r, key_of r ≠ k) t → detail_view t !! k = None.
Proof.
  intros Ht. apply not_elem_of_list_to_map_1. rewrite <- list_fmap_compose.
  intros (r & -> & Hr)%list_elem_of_fmap. rewrite Forall_forall in Ht. by apply (Ht r).
Qed.

(** C37: the table implements a finite map on the keys without [NULL]:
    the statement is the insertion into the map. *)
Theorem upsert_detail_view now k x t :
  complete k = true →
  detail_view (upsert_detail now k x t) = <[k := Some x]> (detail_view t).
Proof.
  intros Hk. destruct (detail_key_cases k t) as [Ht|(t1 & r & t2 & -> & Ht1 & Hr)].
  - rewrite upsert_detail_absent by done. rewrite detail_view_app.
    unfold detail_view at 2. simpl. rewrite key_of_new_detail, d_ratio_new_detail.
    rewrite insert_empty, <- insert_union_singleton_r by by apply detail_view_absent.
    done.
  - rewrite upsert_detail_present by done. rewrite !detail_view_app.
    unfold detail_view at 2 4. rewrite !fmap_cons, !list_to_map_cons.
    rewrite key_of_set_ratio, Hr. simpl.
    rewrite <- !insert_union_r by by apply detail_view_absent.
    by rewrite insert_insert_eq.
Qed.

(** The rows of the other keys are not touched. *)
Lemma upsert_detail_others now k x t :
  filter (λ r, key_of r ≠ k) (upsert_detail now k x t) = filter (λ r, key_of r ≠ k) t.
Proof.
  assert (filter (λ r, key_of r ≠ k) (t ++ [new_detail now k x])
          = filter (λ r, key_of r ≠ k) t) as Happ.
  { rewrite filter_app, filter_cons_False, filter_nil, app_nil_r; [done|].
    rewrite key_of_new_detail. by intros []. }
  destruct (complete k) eqn:Hk; [|by rewrite upsert_detail_incomplete].
  destruct (detail_key_cases k t) as [Ht|(t1 & r & t2 & -> & Ht1 & Hr)].
  - by rewrite upsert_detail_absent.
  - rewrite upsert_detail_present by done.
    rewrite !filter_app, !filter_cons_False; [done|by intros []..].
Qed.

Lemma upsert_detail_length_incomplete now k x t :
  complete k = false → length (upsert_detail now k x t) = S (length t).
Proof. intros Hk. rewrite upsert_detail_incomplete by done. rewrite length_app. simpl. lia. Qed.

End detail.

(** ** The summary table *)

Section summary.
Implicit Types (t : list summary_row) (r : summary_row).

Lemma same_summary_true id mo r :
  same_summary id mo r = true ↔ summary_key r = (id, mo).
Proof.
  unfold same_summary, summary_key.
  rewrite andb_true_iff, !bool_decide_eq_true. split; [by intros [-> ->]|by intros [= -> ->]].
Qed.

Lemma same_summary_false id mo r :
  same_summary id mo r = false ↔ summary_key r ≠ (id, mo).
Proof. rewrite <- same_summary_true. by destruct (same_summary id mo r). Qed.

Lemma summary_key_set x r : summary_key (set_naver_search_index x r) = summary_key r.
Proof. reflexivity. Qed.

Lemma other_columns_set x r : other_columns (set_naver_search_index x r) = other_columns r.
Proof. reflexivity. Qed.

Lemma summary_key_cases id mo t :
  Forall (λ r, summary_key r ≠ (id, mo)) t
  ∨ ∃ t1 r t2, t = t1 ++ r :: t2 ∧ Forall (λ r, summary_key r ≠ (id, mo)) t1
      ∧ summary_key r = (id, mo).
Proof.
  induction t as [|r t IH]; [by left|].
  destruct (decide (summary_key r = (id, mo))) as [Hr|Hr]; [right; by exists [], r, t|].
  destruct IH as [IH|(t1 & r' & t2 & -> & Ht1 & Hr')]; [left; by constructor|].
  right. exists (r :: t1), r', t2. by repeat constructor.
Qed.

Lemma existsb_same_summary_false id mo t :
  Forall (λ r, summary_key r ≠ (id, mo)) t → existsb (same_summary id mo) t = false.
Proof.
  intros Ht. apply existsb_false. eapply Forall_impl; [done|].
  intros r Hr. by apply same_summary_false.
Qed.

Lemma upsert_summary_absent time id mo x t :
  Forall (λ r, summary_key r ≠ (id, mo)) t →
  upsert_summary time id mo x t = t ++ [new_summary time id mo x].
Proof. intros Ht. unfold upsert_summary. by rewrite existsb_same_summary_false. Qed.

Lemma upsert_summary_present time id mo x t1 r t2 :
  Forall (λ r, summary_key r ≠ (id, mo)) t1 → summary_key r = (id, mo) →
  upsert_summary time id mo x (t1 ++ r :: t2) = t1 ++ set_naver_search_index x r :: t2.
Proof.
  intros Ht1 Hr. unfold upsert_summary.
  pose proof (existsb_same_summary_false _ _ _ Ht1) as Hn.
  pose proof (proj2 (same_summary_true id mo r) Hr) as Hc.
  rewrite existsb_app, Hn. simpl. rewrite Hc. simpl. by apply update_first_app_r.
Qed.

(** The statement keeps the key of the summary table unique. *)
Lemma upsert_summary_unique time id mo x t :
  summary_unique t → summary_unique (upsert_summary time id mo x t).
Proof.
  unfold summary_unique. intros Hu.
  destruct (summary_key_cases id mo t) as [Ht|(t1 & r & t2 & -> & Ht1 & Hr)].
  - rewrite upsert_summary_absent by done. rewrite fmap_app. simpl.
    apply NoDup_app. split; [done|]. split; [|apply NoDup_singleton].
    intros k (r & -> & Hr)%list_elem_of_fmap Hk%list_elem_of_singleton.
    rewrite Forall_forall in Ht. by apply (Ht r).
  - rewrite upsert_summary_present by done. revert Hu.
    by rewrite !fmap_app, !fmap_cons.
Qed.

(** Every row that was in the table is still there, at its place, with
    its key and the columns of the other pipelines as they were. *)
Lemma upsert_summary_other_columns time id mo x t :
  other_columns <$> take (length t) (upsert_summary time id mo x t) = other_columns <$> t.
Proof.
  destruct (summary_key_cases id mo t) as [Ht|(t1 & r & t2 & -> & Ht1 & Hr)].
  - rewrite upsert_summary_absent by done. by rewrite take_app_length.
  - rewrite upsert_summary_present by done.
    rewrite firstn_all2 by (rewrite !length_app; simpl; lia).
    by rewrite !fmap_app, !fmap_cons, other_columns_set.
Qed.

Lemma upsert_summary_length time id mo x t :
  length t ≤ length (upsert_summary time id mo x t).
Proof.
  unfold upsert_summary. destruct (existsb _ t).
  - by rewrite update_first_length.
  - rewrite length_app. lia.
Qed.

(** After the statement the row of the key holds the new index. *)
Lemma upsert_summary_lookup time id mo x t :
  ∃ i r, upsert_summary time id mo x t !! i = Some r
    ∧ summary_key r = (id, mo) ∧ s_naver_search_index r = Some x.
Proof.
  destruct (summary_key_cases id mo t) as [Ht|(t1 & r & t2 & -> & Ht1 & Hr)].
  - rewrite upsert_summary_absent by done.
    exists (length t), (new_summary time id mo x). by rewrite list_lookup_middle.
  - rewrite upsert_summary_present by done.
    exists (length t1), (set_naver_search_index x r). by rewrite list_lookup_middle.
Qed.

Lemma upsert_summary_idemp time time' id mo x y t :
  upsert_summary time' id mo x (upsert_summary time id mo y t)
  = upsert_summary time id mo x t.
Proof.
  destruct (summary_key_cases id mo t) as [Ht|(t1 & r & t2 & -> & Ht1 & Hr)].
  - rewrite !(upsert_summary_absent time) by done.
    by rewrite upsert_summary_present.
  - rewrite !(upsert_summary_present time) by done.
    by rewrite upsert_summary_present.
Qed.
End summary.

(** ** The aggregate query *)

Lemma string_compare_OT a b : String.compare a b = String_as_OT.compare a b.
Proof.
  revert b. induction a as [|x a IH]; intros [|y b]; simpl; [done..|].
  rewrite IH. unfold Ascii.compare, Ascii_as_OT.compare.
  by destruct (_ ?= _)%N.
Qed.

Lemma string_leb_iff a b : String.leb a b = true ↔ a = b ∨ String_as_OT.lt a b.
Proof.
  unfold String.leb. rewrite string_compare_OT.
  destruct (String_as_OT.compare_spec a b) as [Heq|Hlt|Hgt]; split; auto; try done.
  intros [->|Hlt]; [by apply irreflexivity in Hgt; [|apply _]|].
  destruct (irreflexivity String_as_OT.lt a). by etrans.
Qed.

Lemma string_leb_trans a b c :
  String.leb a b = true → String.leb b c = true → String.leb a c = true.
Proof.
  rewrite !string_leb_iff.
  intros [->|Hab] [->|Hbc]; auto. right. by etrans.
Qed.

#[export] Instance group_le_total : Total group_le.
Proof.
  intros [m1 i1] [m2 i2]. unfold group_le. simpl.
  destruct (decide (m1 = m2)) as [->|Hne].
  - destruct (Z.le_ge_cases i1 i2); auto.
  - destruct (String.leb_total m1 m2); auto.
Qed.

#[export] Instance group_le_trans : Transitive group_le.
Proof.
  intros [m1 i1] [m2 i2] [m3 i3]. unfold group_le. simpl.
  intros [[Hne1 Hle1]|[-> Hi1]] [[Hne2 Hle2]|[-> Hi2]]; auto.
  - left. split; [|by eapply string_leb_trans]. intros ->.
    by apply Hne1, String.leb_antisym.
  - right. split; [done|lia].
Qed.

#[export] Instance group_le_antisym : AntiSymm (=) group_le.
Proof.
  intros [m1 i1] [m2 i2]. unfold group_le. simpl.
  intros [[Hne1 Hle1]|[-> Hi1]] [[Hne2 Hle2]|[? Hi2]]; try done.
  - destruct Hne1. by apply String.leb_antisym.
  - f_equal. lia.
Qed.

#[export] Instance model_le_total : Total model_le.
Proof.
  intros a b. unfold model_le.
  destruct (decide (c_brand_name a = c_brand_name b)) as [Heq|Hne].
  - rewrite Heq. destruct (String.leb_total (c_model_name_kr a) (c_model_name_kr b)); auto.
  - destruct (String.leb_total (c_brand_name a) (c_brand_name b)); auto.
Qed.

#[export] Instance model_le_trans : Transitive model_le.
Proof.
  intros a b c. unfold model_le.
  intros [[Hne1 Hle1]|[Heq1 Hn1]] [[Hne2 Hle2]|[Heq2 Hn2]].
  - left. split; [|by eapply string_leb_trans]. intros Heq. rewrite Heq in *.
    by apply Hne1, String.leb_antisym.
  - left. by rewrite <- Heq2.
  - left. by rewrite Heq1.
  - right. split; [congruence|by eapply string_leb_trans].
Qed.

(** ** The catalog query *)

Lemma select_models_perm brands t :
  select_models brands t ≡ₚ filter (λ r, c_brand_name r ∈ brands) t.
Proof. apply merge_sort_Permutation. Qed.

(** In the order of [ORDER BY brand_name, model_name_kr]. *)
Lemma select_models_sorted brands t : StronglySorted model_le (select_models brands t).
Proof. apply StronglySorted_merge_sort; apply _. Qed.

(** The rows of the brands asked for, and no other. *)
Lemma elem_of_select_models brands t r :
  r ∈ select_models brands t ↔ r ∈ t ∧ c_brand_name r ∈ brands.
Proof. rewrite select_models_perm, list_elem_of_filter. tauto. Qed.

Lemma select_models_length brands t : length (select_models brands t) ≤ length t.
Proof. rewrite select_models_perm. apply length_filter. Qed.

Lemma select_models_nil brands : select_models brands [] = [].
Proof. reflexivity. Qed.

Lemma execute_select_models_Ok placeholders params brands t :
  placeholders ≠ [] → bound_values placeholders params = Some brands →
  execute_select_models placeholders params t = Ok (select_models brands t).
Proof. intros Hne Hb. unfold execute_select_models. rewrite Hb. by destruct placeholders. Qed.

Lemma avg_two (a b : Qc) : avg [a; b] = Some ((a + b) / Q2Qc 2)%Qc.
Proof. unfold avg. simpl. f_equal. f_equal. ring. Qed.

Lemma avg_None xs : avg xs = None ↔ xs = [].
Proof. by destruct xs. Qed.

Lemma count_nonzero xs : xs ≠ [] → count xs ≠ Q2Qc 0.
Proof.
  intros Hxs Hc%Q2Qc_eq_iff. destruct xs as [|x xs]; [done|].
  unfold Qeq in Hc. simpl in Hc. lia.
Qed.

(** [AVG] is the number that, times the count, gives the sum. *)
Lemma avg_Some xs x :
  avg xs = Some x ↔ xs ≠ [] ∧ (x * count xs = total xs)%Qc.
Proof.
  destruct xs as [|y ys]; [by split; [|intros []]|].
  pose proof (count_nonzero (y :: ys)) as Hn. unfold avg.
  fold (total (y :: ys)) (count (y :: ys)). split.
  - intros [= <-]. split; [done|]. rewrite Qcmult_comm. by apply Qcmult_div_r, Hn.
  - intros [_ Hx]. f_equal. rewrite <- Hx. by apply Qcdiv_mult_l, Hn.
Qed.

Lemma count_cons x xs : count (x :: xs) = (Q2Qc 1 + count xs)%Qc.
Proof.
  apply Qc_is_canon. unfold count. cbn [length Qcplus Qcanon.this Q2Qc].
  rewrite !Qred_correct, Nat2Z.inj_succ. unfold Qeq, Qplus. simpl. lia.
Qed.

Lemma count_nonneg xs : (Q2Qc 0 ≤ count xs)%Qc.
Proof.
  unfold count, Qcle. cbn [Qcanon.this Q2Qc]. rewrite !Qred_correct.
  unfold Qle. simpl. lia.
Qed.

Lemma count_pos xs : xs ≠ [] → (Q2Qc 0 < count xs)%Qc.
Proof.
  intros Hxs.
  pose proof (count_nonneg xs) as Hc. apply Qcle_lt_or_eq in Hc as [?|Hc]; [done|].
  by destruct (count_nonzero xs).
Qed.

(** The sum lies between the count times a lower and an upper bound. *)
Lemma total_bounds lo hi xs :
  Forall (λ y, lo ≤ y ∧ y ≤ hi)%Qc xs →
  (lo * count xs ≤ total xs ∧ total xs ≤ hi * count xs)%Qc.
Proof.
  induction 1 as [|y xs [Hlo Hhi] _ [IHlo IHhi]].
  { change (count []) with (Q2Qc 0). change (total []) with (Q2Qc 0). split.
    - replace (lo * Q2Qc 0)%Qc with (Q2Qc 0) by ring. apply Qcle_refl.
    - replace (hi * Q2Qc 0)%Qc with (Q2Qc 0) by ring. apply Qcle_refl. }
  rewrite count_cons. change (total (y :: xs)) with (y + total xs)%Qc. split.
  - replace (lo * (Q2Qc 1 + count xs))%Qc with (lo + lo * count xs)%Qc by ring.
    by apply Qcplus_le_compat.
  - replace (hi * (Q2Qc 1 + count xs))%Qc with (hi + hi * count xs)%Qc by ring.
    by apply Qcplus_le_compat.
Qed.

(** The mean lies between the least and the greatest of the numbers. *)
Lemma avg_bounds lo hi xs x :
  Forall (λ y, lo ≤ y ∧ y ≤ hi)%Qc xs → avg xs = Some x → (lo ≤ x ∧ x ≤ hi)%Qc.
Proof.
  intros [Hlo Hhi]%total_bounds [Hne Hx]%avg_Some. rewrite <- Hx in Hlo, Hhi.
  pose proof (count_pos xs Hne) as Hc.
  split; by eapply Qcmult_lt_0_le_reg_r.
Qed.

Lemma StronglySorted_fmap_inv {A B} (f : A → B) (R : relation B) l :
  StronglySorted R (f <$> l) → StronglySorted (λ a b, R (f a) (f b)) l.
Proof.
  induction l as [|x l IH]; [constructor|]. rewrite fmap_cons.
  intros [Hl Hx]%StronglySorted_inv. constructor; [by apply IH|].
  by rewrite Forall_fmap in Hx.
Qed.

Section select.
Context `{FloatOps}.
Implicit Types (t : list detail_row) (g : string * Z).

Lemma select_avg_groups t : row_group <$> select_avg t = merge_sort group_le (groups t).
Proof.
  unfold select_avg. rewrite <- list_fmap_compose.
  rewrite <- (list_fmap_id (merge_sort _ _)) at 2. apply list_fmap_ext.
  by intros _ [??] _.
Qed.

(** One row for each group of the table. *)
Lemma select_avg_perm t : row_group <$> select_avg t ≡ₚ groups t.
Proof. rewrite select_avg_groups. apply merge_sort_Permutation. Qed.

Lemma select_avg_NoDup t : NoDup (row_group <$> select_avg t).
Proof. rewrite select_avg_perm. apply NoDup_remove_dups. Qed.

(** In the order of [ORDER BY month, model_id]. *)
Lemma select_avg_sorted t : StronglySorted group_le (row_group <$> select_avg t).
Proof. rewrite select_avg_groups. apply StronglySorted_merge_sort; apply _. Qed.

Lemma elem_of_groups t g : g ∈ groups t ↔ ∃ r, r ∈ t ∧ group_of r = g.
Proof.
  unfold groups. rewrite elem_of_remove_dups, list_elem_of_fmap.
  split; intros (r & ? & ?); by exists r.
Qed.

Lemma elem_of_select_avg t id mo a :
  (id, mo, a) ∈ select_avg t ↔ (mo, id) ∈ groups t ∧ a = group_avg t (mo, id).
Proof.
  unfold select_avg. rewrite list_elem_of_fmap. split.
  - intros ([mo' id'] & [= -> -> ->] & Hg). split; [|done].
    by rewrite merge_sort_Permutation in Hg.
  - intros [Hg ->]. exists (mo, id). split; [done|].
    by rewrite merge_sort_Permutation.
Qed.

Lemma select_avg_nil : select_avg [] = [].
Proof. reflexivity. Qed.

Lemma select_avg_length t : length (select_avg t) = length (groups t).
Proof.
  unfold select_avg. rewrite length_fmap. apply Permutation_length, merge_sort_Permutation.
Qed.

Lemma groups_nil_inv t : groups t = [] → t = [].
Proof.
  destruct t as [|r t]; [done|]. intros Hg.
  assert (group_of r ∈ groups (r :: t)) as Hin.
  { apply elem_of_groups. exists r. split; [left|done]. }
  rewrite Hg in Hin. by apply elem_of_nil in Hin.
Qed.

(** The result is empty only for the empty table. *)
Lemma select_avg_nil_inv t : select_avg t = [] → t = [].
Proof.
  intros Hs. apply groups_nil_inv, length_zero_iff_nil.
  by rewrite <- select_avg_length, Hs.
Qed.

(** The mean of a group is [NULL] only if every ratio of the group is. *)
Lemma group_avg_None t g :
  group_avg t g = None ↔ ∀ r, r ∈ t → group_of r = g → d_ratio r = None.
Proof.
  unfold group_avg. rewrite avg_None. split.
  - intros Hnil%fmap_nil_inv r Hr Hg. destruct (d_ratio r) as [x|] eqn:Hx; [|done].
    assert (x ∈ omap d_ratio (filter (λ r, group_of r = g) t)) as Hin.
    { apply list_elem_of_omap. exists r. by rewrite list_elem_of_filter. }
    rewrite Hnil in Hin. by apply elem_of_nil in Hin.
  - intros Hall. replace (omap d_ratio _) with (@nil float); [done|].
    symmetry. apply elem_of_nil_inv. intros x (r & Hr & Hx)%list_elem_of_omap.
    apply list_elem_of_filter in Hr as [Hg Hr]. by rewrite (Hall r) in Hx.
Qed.
End select.

(** ** Examples, with the decimal model of [float] *)

Import DecFloat.

(** A key without [NULL], a row stored under it and two ratios. *)
Definition ex_key : detail_key := (5%Z, "2025-03-01", Some "pc", Some "m", Some "20").

Definition ex_old : float := DFin false "125" 2.

Definition ex_new : float := DFin false "3" 1.

Definition ex_stored : detail_row :=
  DetailRow 5 "2025-03-01" (Some "pc") (Some "m") (Some "20")
    (Some ex_old) 1.

Lemma upsert_detail_conflict_witness :
  upsert_detail 2 ex_key ex_new [ex_stored]
  = <[0 := DetailRow 5 "2025-03-01" (Some "pc") (Some "m") (Some "20") (Some ex_new) 1]>
      [ex_stored].
Proof.
  apply (upsert_detail_conflict 2 ex_key ex_new [ex_stored] 0 ex_stored);
    try reflexivity.
  intros [|i] [|j] ri rj Hi Hj _; try done; destruct i || destruct j; discriminate.
Defined.

Lemma upsert_detail_idemp_witness :
  upsert_detail 2 ex_key ex_new
    (upsert_detail 1 ex_key ex_old [])
  = upsert_detail 1 ex_key ex_new [].
Proof.
  apply (upsert_detail_idemp 1 2 ex_key ex_new
           ex_old []).
  reflexivity.
Defined.

Lemma upsert_detail_view_witness :
  detail_view (upsert_detail 2 ex_key ex_new [ex_stored])
  = <[ex_key := Some ex_new]> (detail_view [ex_stored]).
Proof.
  apply (upsert_detail_view 2 ex_key ex_new [ex_stored]).
  reflexivity.
Defined.

End Db.
