(* ===== verification/World.v ===== *)
(** * The state the stages share

    The four stages share no memory: what one leaves for the next is in
    the files of the run and in the two tables.  [world] holds them,
    with the time [NOW()] answers ([set_now] moves the clock between
    two runs).  A stage is a program over [world] that prints events of
    its own type.

    [transaction] is [with engine.begin() as conn:]: the block's changes
    to the tables are committed when it ends, and undone when it raises.
    Files are not under the transaction. *)

From Stdlib Require Import ZArith.
From stdpp Require Import base tactics option list strings gmap.
From S2P Require Import Prelude PyFloat Fs Prog Db.

Module World.
Import Db.

Section world.
Context `{FloatOps}.

Record world : Type := World {
  files : Fs.fs;
  detail : list detail_row;
  summary : list summary_row;
  now : nat;
}.

Definition set_files (f : Fs.fs) (w : world) : world :=
  World f (detail w) (summary w) (now w).

Definition set_detail (t : list detail_row) (w : world) : world :=
  World (files w) t (summary w) (now w).

Definition set_summary (t : list summary_row) (w : world) : world :=
  World (files w) (detail w) t (now w).

(** The state at another instant of the clock. *)
Definition set_now (n : nat) (w : world) : world :=
  World (files w) (detail w) (summary w) n.

(** The state [w1] with the tables as they were in [w0]. *)
Definition rollback (w0 w1 : world) : world :=
  set_detail (detail w0) (set_summary (summary w0) w1).

(** [with engine.begin() as conn: m] *)
Definition transaction {E A} (m : prog world E A) : prog world E A :=
  atomically rollback m.

(** [p.exists()] *)
Definition path_exists {E} (p : Fs.path) : prog world E bool :=
  gets (λ w, Fs.exists_ p (files w)).

(** The text of the file [p], opened for reading. *)
Definition read_file {E} (p : Fs.path) : prog world E string :=
  text ← gets (λ w, Fs.read_text p (files w)); lift text.

(** The file [p] opened with mode [w], written and closed. *)
Definition write_file {E} (p : Fs.path) (text : string) : prog world E unit :=
  modify (λ w, set_files (Fs.write_text p text (files w)) w).

(** [f.write(text)] on the file [p], open for writing. *)
Definition append_file {E} (p : Fs.path) (text : string) : prog world E unit :=
  modify (λ w, set_files (Fs.append_text p text (files w)) w).

Lemma files_set_files f w : files (set_files f w) = f.
Proof. reflexivity. Qed.

Lemma set_files_files w : set_files (files w) w = w.
Proof. by destruct w. Qed.

Lemma set_files_set_files f g w : set_files f (set_files g w) = set_files f w.
Proof. reflexivity. Qed.

Lemma rollback_same w : rollback w w = w.
Proof. by destruct w. Qed.

Lemma detail_rollback w0 w1 : detail (rollback w0 w1) = detail w0.
Proof. reflexivity. Qed.

Lemma summary_rollback w0 w1 : summary (rollback w0 w1) = summary w0.
Proof. reflexivity. Qed.

Lemma files_rollback w0 w1 : files (rollback w0 w1) = files w1.
Proof. reflexivity. Qed.

Lemma set_detail_detail (w : world) : set_detail (detail w) w = w.
Proof. by destruct w. Qed.

Lemma set_detail_set_detail t t' (w : world) :
  set_detail t (set_detail t' w) = set_detail t w.
Proof. reflexivity. Qed.

Lemma rollback_set_detail t (w : world) : rollback w (set_detail t w) = w.
Proof. by destruct w. Qed.

Lemma set_summary_summary (w : world) : set_summary (summary w) w = w.
Proof. by destruct w. Qed.

Lemma rollback_set_summary t (w : world) : rollback w (set_summary t w) = w.
Proof. by destruct w. Qed.

(** A transaction that ends commits what the block did. *)
Lemma run_transaction_Ok {E A} (m : prog world E A) w l w1 a :
  run m w = (l, w1, Ok a) → run (transaction m) w = (l, w1, Ok a).
Proof. intros Hm. unfold transaction, atomically. simpl. by rewrite Hm. Qed.

(** A transaction that raises leaves the tables as they were. *)
Lemma run_transaction_Raise {E A} (m : prog world E A) w l w1 e :
  run m w = (l, w1, Raise e) →
  run (transaction m) w = (l, rollback w w1, Raise e).
Proof. intros Hm. unfold transaction, atomically. simpl. by rewrite Hm. Qed.

Lemma run_read_file {E B} (p : Fs.path) (k : string → prog world E B) w text :
  files w !! p = Some text → run (read_file p ≫= k) w = run (k text) w.
Proof.
  intros Hp. unfold read_file. rewrite (bind_assoc _ _ _ w), run_bind_gets.
  unfold Fs.read_text. rewrite Hp. by rewrite run_bind_lift.
Qed.

Lemma run_write_file {E B} (p : Fs.path) text (k : prog world E B) w :
  run (write_file p text ;; k) w
  = run k (set_files (Fs.write_text p text (files w)) w).
Proof. unfold write_file. by rewrite run_bind_modify. Qed.

End world.

End World.
