(* ===== verification/Normalizer.v ===== *)
(** * The Normalizer  ([normalize_naver_detail.py])

    [normalize_detail run_id] reads the raw CSV of a run, keeps the rows
    that have an integer [model_id], a date of at least seven characters
    and a ratio that [float] parses, and writes them with the month
    [date[:7] + "-01"] to the normalized CSV of the run, header first.

    - [normalize_row] is the body of the loop (lines 36-71): it returns
      the row to append, or [None] where the source says [continue];
    - [normalize_rows] is the loop (line 35), [normalize_detail] the
      function (lines 15-88);
    - [classify] is the specification of the loop body as a pure
      function, after section 9 of the design: every row is either
      kept or skipped for a reason; [normalize_row_classify] shows that
      the program implements it.

    The theorems are stated for every implementation of [float] that
    satisfies [FloatLaws]; the examples run with [DecFloat]. *)

From Stdlib Require Import Ascii ZArith.
From stdpp Require Import base tactics option list strings gmap.
From S2P Require Import Prelude PyStr PyInt PyFloat DecFloat Csv Fs Prog Db World.

Module Normalizer.
Import PyStr PyInt Csv World.

(** The lines the stage prints. *)
Inductive event : Type :=
| INFO_loading (raw_path : Fs.path)
| WARN_date (date_str : string)
| WARN_ratio (ratio_str : string)
| WARN_empty
| INFO_count (n : nat)
| INFO_saved (out_path : Fs.path).

(** Why a row is skipped. *)
Inductive skip_reason : Type :=
| BadModelId
| MissingField
| ShortDate (date_str : string)
| BadRatio (ratio_str : string).

(** The columns of the normalized CSV (line 82). *)
Definition fieldnames : list string :=
  ["model_id"; "month"; "device"; "gender"; "age_group"; "ratio"].

(** [(row.get(key) or "").strip()] *)
Definition field (key : string) (row : gmap string (option string)) : string :=
  strip (default "" (get key row)).

(** [date_str[:7] + "-01"] *)
Definition month_of (date_str : string) : string := slice_to 7 date_str +:+ "-01".

(** [except (KeyError, ValueError)] *)
Definition caught_model_id (e : exn) : bool :=
  match e with KeyError _ | ValueError => true | _ => false end.

(** [except ValueError] *)
Definition caught_ratio (e : exn) : bool :=
  match e with ValueError => true | _ => false end.

(** What [print] shows of a skipped row. *)
Definition warning (why : skip_reason) : list event :=
  match why with
  | ShortDate d => [WARN_date d]
  | BadRatio s => [WARN_ratio s]
  | BadModelId | MissingField => []
  end.

Section normalizer.
Context `{FloatOps}.
Variable BASE_DIR : Fs.path.

Definition NAVER_DIR : Fs.path :=
  Fs.div (Fs.div (Fs.div BASE_DIR "data") "raw") "naver".

Definition raw_path (run_id : string) : Fs.path :=
  Fs.div (Fs.div NAVER_DIR run_id) ("naver_trend_" +:+ run_id +:+ ".csv").

Definition out_path (run_id : string) : Fs.path :=
  Fs.div (Fs.div NAVER_DIR run_id)
    ("naver_trend_" +:+ run_id +:+ "_detail_normalized.csv").

(** A row of the result (lines 62-71). *)
Record norm_row : Type := NormRow {
  model_id : Z;
  month : string;
  device : string;
  gender : string;
  age_group : string;
  ratio : float;
}.

(** The body of the loop: the row to append, or [None] for [continue]. *)
Definition normalize_row (row : gmap string (option string))
  : prog world event (option norm_row) :=
  id ← lift (try_skip caught_model_id (getitem "model_id" row ≫= py_int));
  match id with
  | None => mret None
  | Some model_id =>
      let date_str := field "date" row in
      let device := field "device" row in
      let gender := field "gender" row in
      let age_group := field "age_group" row in
      let ratio_str := field "ratio" row in
      if negb (truthy date_str) || negb (truthy ratio_str) then mret None
      else if bool_decide (len date_str < 7) then
        print (WARN_date date_str);; mret None
      else
        let month := month_of date_str in
        x ← lift (try_skip caught_ratio (py_float (Some ratio_str)));
        match x with
        | None => print (WARN_ratio ratio_str);; mret None
        | Some ratio =>
            mret (Some (NormRow model_id month device gender age_group ratio))
        end
  end.

(** [rows.append(...)] when the body did not [continue]. *)
Definition append (rows : list norm_row) (r : option norm_row) : list norm_row :=
  match r with Some r => rows ++ [r] | None => rows end.

(** [for row in reader: ...] *)
Definition normalize_rows (reader : list (gmap string (option string)))
  : prog world event (list norm_row) :=
  fold_m (λ rows row, r ← normalize_row row; mret (append rows r)) reader [].

(** The fields the writer prints for a row, in the order of
    [fieldnames]: [str] of the number, [repr] of the ratio. *)
Definition row_fields (r : norm_row) : list string :=
  [str_of_int (model_id r); month r; device r; gender r; age_group r;
   float_repr (ratio r)].

(** The text of the normalized CSV (lines 79-85). *)
Definition out_text (rows : list norm_row) : string :=
  write_dict_rows fieldnames (row_fields <$> rows).

(** [if not rows: print(...) else: print(...)] (lines 73-76) *)
Definition count_event (rows : list norm_row) : event :=
  match rows with [] => WARN_empty | _ => INFO_count (length rows) end.

Definition normalize_detail (run_id : string) : prog world event Fs.path :=
  let raw_path := raw_path run_id in
  let out_path := out_path run_id in
  found ← path_exists raw_path;
  if negb found then raise (FileNotFoundError raw_path)
  else
    print (INFO_loading raw_path);;
    text ← read_file raw_path;
    reader ← lift (read_dict_rows text);
    rows ← normalize_rows reader;
    print (count_event rows);;
    write_file out_path (out_text rows);;
    print (INFO_saved out_path);;
    mret out_path.

(** ** Specification *)

(** What becomes of a row: kept as a normalized row, or skipped.
    [int(None)] raises [TypeError], which the source does not catch. *)
Definition classify (row : gmap string (option string))
  : result (skip_reason + norm_row) :=
  match row !! "model_id" with
  | None => Ok (inl BadModelId)
  | Some None => Raise TypeError
  | Some (Some s) =>
      match int_of_str s with
      | None => Ok (inl BadModelId)
      | Some id =>
          let d := field "date" row in
          let r := field "ratio" row in
          if bool_decide (d = "" ∨ r = "") then Ok (inl MissingField)
          else if bool_decide (len d < 7) then Ok (inl (ShortDate d))
          else match float_of_str r with
               | None => Ok (inl (BadRatio r))
               | Some x =>
                   Ok (inr (NormRow id (month_of d) (field "device" row)
                              (field "gender" row) (field "age_group" row) x))
               end
      end
  end.

(** The row kept and the warning printed for an outcome. *)
Definition to_kept (c : skip_reason + norm_row) : option norm_row :=
  match c with inr r => Some r | inl _ => None end.

Definition to_warning (c : skip_reason + norm_row) : list event :=
  match c with inl why => warning why | inr _ => [] end.

Definition kept (cs : list (skip_reason + norm_row)) : list norm_row :=
  omap to_kept cs.

Definition warnings (cs : list (skip_reason + norm_row)) : list event :=
  cs ≫= to_warning.

(** The outcomes of the rows up to the first that raises, and the
    exception it raises. *)
Fixpoint classify_rows (reader : list (gmap string (option string)))
  : list (skip_reason + norm_row) * option exn :=
  match reader with
  | [] => ([], None)
  | row :: rest =>
      match classify row with
      | Ok c => let '(cs, e) := classify_rows rest in (c :: cs, e)
      | Raise e => ([], Some e)
      end
  end.

Definition loop_result (rows : list norm_row) (e : option exn)
  : result (list norm_row) :=
  match e with None => Ok rows | Some e => Raise e end.

(** The normalized row of a raw row, if it is kept. *)
Definition keep (row : gmap string (option string)) : option norm_row :=
  match classify row with Ok (inr r) => Some r | _ => None end.

(** The state after a run that kept [rows]. *)
Definition done_world (run_id : string) (rows : list norm_row) (w : world) : world :=
  set_files (Fs.write_text (out_path run_id) (out_text rows) (files w)) w.

End normalizer.

Section normalizer_proofs.
Context `{FloatLaws}.
Variable BASE_DIR : Fs.path.

(** ** The program implements the specification *)

Lemma model_id_classify (row : gmap string (option string)) :
  try_skip caught_model_id (getitem "model_id" row ≫= py_int) =
    match row !! "model_id" with
    | None => Ok None
    | Some None => Raise TypeError
    | Some (Some s) => Ok (int_of_str s)
    end.
Proof.
  unfold getitem. destruct (row !! "model_id") as [[s|]|]; simpl; try done.
  by destruct (int_of_str s).
Qed.

Lemma ratio_classify s :
  try_skip caught_ratio (py_float (Some s)) = Ok (float_of_str s).
Proof. simpl. by destruct (float_of_str s). Qed.

Lemma missing_classify d r :
  negb (truthy d) || negb (truthy r) = bool_decide (d = "" ∨ r = "").
Proof. destruct d, r; simpl; try done. Qed.

Lemma normalize_row_classify row w :
  run (normalize_row row) w =
    match classify row with
    | Ok c => (to_warning c, w, Ok (to_kept c))
    | Raise e => ([], w, Raise e)
    end.
Proof.
  unfold normalize_row, classify.
  rewrite run_bind_lift, model_id_classify, missing_classify.
  destruct (row !! "model_id") as [[s|]|]; try done.
  destruct (int_of_str s) as [id|]; [|done].
  destruct (bool_decide (_ ∨ _)); [done|].
  destruct (bool_decide (_ < 7)); [done|].
  rewrite run_bind_lift, ratio_classify. by destruct (float_of_str _).
Qed.

Lemma append_kept rows c cs : append rows (to_kept c) ++ kept cs = rows ++ kept (c :: cs).
Proof. destruct c; simpl; [done|]. by rewrite <- app_assoc. Qed.

Lemma normalize_loop_classify reader rows w :
  run (fold_m (λ rows row, r ← normalize_row row; mret (append rows r)) reader rows) w =
    (warnings (classify_rows reader).1, w,
     loop_result (rows ++ kept (classify_rows reader).1) (classify_rows reader).2).
Proof.
  revert rows. induction reader as [|row reader IH]; intros rows.
  - simpl. by rewrite app_nil_r.
  - rewrite fold_m_cons, (bind_assoc _ _ _ w). cbn [classify_rows].
    destruct (classify row) as [c|e] eqn:Ec.
    + erewrite run_bind_Ok by (rewrite normalize_row_classify, Ec; reflexivity).
      rewrite (bind_ret_l _ _ w), IH. destruct (classify_rows reader) as [cs e].
      unfold printed, final, returned. cbn [fst snd]. by rewrite append_kept.
    + erewrite run_bind_Raise by (rewrite normalize_row_classify, Ec; reflexivity).
      done.
Qed.

Lemma normalize_rows_classify reader w :
  run (normalize_rows reader) w =
    (warnings (classify_rows reader).1, w,
     loop_result (kept (classify_rows reader).1) (classify_rows reader).2).
Proof. apply normalize_loop_classify. Qed.

Lemma normalize_detail_missing run_id w :
  files w !! raw_path BASE_DIR run_id = None →
  run (normalize_detail BASE_DIR run_id) w
  = ([], w, Raise (FileNotFoundError (raw_path BASE_DIR run_id))).
Proof.
  intros Hraw. unfold normalize_detail, path_exists.
  rewrite run_bind_gets. by rewrite (proj2 (Fs.exists_false _ _) Hraw).
Qed.

Lemma normalize_detail_run run_id w text reader :
  files w !! raw_path BASE_DIR run_id = Some text →
  read_dict_rows text = Ok reader →
  run (normalize_detail BASE_DIR run_id) w =
    match (classify_rows reader).2 with
    | None =>
        (INFO_loading (raw_path BASE_DIR run_id) :: warnings (classify_rows reader).1
           ++ [count_event (kept (classify_rows reader).1);
               INFO_saved (out_path BASE_DIR run_id)],
         done_world BASE_DIR run_id (kept (classify_rows reader).1) w,
         Ok (out_path BASE_DIR run_id))
    | Some e =>
        (INFO_loading (raw_path BASE_DIR run_id) :: warnings (classify_rows reader).1,
         w, Raise e)
    end.
Proof.
  intros Hraw Hread. unfold normalize_detail, path_exists.
  rewrite run_bind_gets, (proj2 (Fs.exists_true _ _)) by by rewrite Hraw.
  cbn [negb]. rewrite run_bind_print, (run_read_file _ _ _ _ Hraw), Hread, run_bind_lift.
  rewrite run_bind, normalize_rows_classify.
  destruct (classify_rows reader) as [cs [e|]]; cbn [fst snd loop_result]; [done|].
  rewrite run_bind_print, run_write_file, run_bind_print, run_ret.
  unfold printed, final, returned. cbn [fst snd]. done.
Qed.


(** ** What is kept *)

Lemma field_date_nonempty (d : string) : 7 ≤ len d → d ≠ "".
Proof. destruct d; [unfold len; simpl; lia | done]. Qed.

Lemma classify_kept row r :
  classify row = Ok (inr r) ↔
  ∃ s, row !! "model_id" = Some (Some s) ∧ int_of_str s = Some (model_id r)
    ∧ 7 ≤ len (field "date" row)
    ∧ float_of_str (field "ratio" row) = Some (ratio r)
    ∧ r = NormRow (model_id r) (month_of (field "date" row)) (field "device" row)
            (field "gender" row) (field "age_group" row) (ratio r).
Proof.
  unfold classify. split.
  - destruct (row !! "model_id") as [[s|]|]; try done.
    destruct (int_of_str s) as [id|] eqn:Eid; [|done].
    repeat case_bool_decide; try done.
    destruct (float_of_str _) as [x|] eqn:Ex; [|done].
    intros [= <-]. exists s. simpl. repeat split; try done. lia.
  - intros (s & -> & -> & Hlen & Hx & Hr).
    rewrite bool_decide_eq_false_2, bool_decide_eq_false_2, Hx; [by rewrite Hr|lia|].
    intros [Hd|Hr']; [by apply field_date_nonempty in Hlen|].
    rewrite Hr' in Hx. by rewrite float_of_str_empty in Hx.
Qed.

Lemma run_kept row w r :
  classify row = Ok (inr r) → run (normalize_row row) w = ([], w, Ok (Some r)).
Proof. intros Hc. by rewrite normalize_row_classify, Hc. Qed.

Lemma run_kept_inv row w l w' r :
  run (normalize_row row) w = (l, w', Ok (Some r)) →
  classify row = Ok (inr r) ∧ l = [] ∧ w' = w.
Proof.
  rewrite normalize_row_classify. destruct (classify row) as [[why|r']|e]; [| |done].
  - by destruct why.
  - by intros [= <- <- <-].
Qed.

(** C1: a raw row with an integer [model_id], a date of at least seven
    characters and a ratio that [float] parses is kept, silently, as
    the row with the month [date[:7] + "-01"], the stripped labels and
    the parsed ratio. *)
Theorem normalize_row_valid row w s id x :
  row !! "model_id" = Some (Some s) → int_of_str s = Some id →
  7 ≤ len (field "date" row) →
  float_of_str (field "ratio" row) = Some x →
  run (normalize_row row) w =
    ([], w, Ok (Some (NormRow id (slice_to 7 (field "date" row) +:+ "-01")
                        (field "device" row) (field "gender" row)
                        (field "age_group" row) x))).
Proof. intros. apply run_kept, classify_kept. exists s. by repeat split. Qed.

(** C8: a row is appended only if its [model_id] is an integer, its
    date has at least seven characters and its ratio parses: rows that
    fail one of these never appear in the output. *)
Theorem normalize_row_kept row w l w' r :
  run (normalize_row row) w = (l, w', Ok (Some r)) →
  (∃ s, row !! "model_id" = Some (Some s) ∧ int_of_str s = Some (model_id r))
  ∧ 7 ≤ len (field "date" row)
  ∧ month r = slice_to 7 (field "date" row) +:+ "-01"
  ∧ float_of_str (field "ratio" row) = Some (ratio r).
Proof.
  intros [(s & ? & ? & ? & ? & Hr)%classify_kept _]%run_kept_inv.
  rewrite Hr. simpl. eauto 10.
Qed.

(** ** What is skipped *)

Lemma run_skipped row w why :
  classify row = Ok (inl why) → run (normalize_row row) w = (warning why, w, Ok None).
Proof. intros Hc. by rewrite normalize_row_classify, Hc. Qed.

Lemma classify_bad_model_id row :
  (∀ s, row !! "model_id" = Some (Some s) → int_of_str s = None) →
  row !! "model_id" ≠ Some None →
  classify row = Ok (inl BadModelId).
Proof.
  intros Hs Hn. unfold classify. destruct (row !! "model_id") as [[s|]|]; try done.
  by rewrite (Hs s).
Qed.

Lemma classify_short_date row s id :
  row !! "model_id" = Some (Some s) → int_of_str s = Some id →
  field "date" row ≠ "" → field "ratio" row ≠ "" → len (field "date" row) < 7 →
  classify row = Ok (inl (ShortDate (field "date" row))).
Proof.
  intros Hm Hid Hd Hr Hlen. unfold classify. rewrite Hm, Hid.
  rewrite bool_decide_eq_false_2 by (by intros [|]).
  by rewrite bool_decide_eq_true_2.
Qed.

Lemma classify_bad_ratio row s id :
  row !! "model_id" = Some (Some s) → int_of_str s = Some id →
  7 ≤ len (field "date" row) → field "ratio" row ≠ "" →
  float_of_str (field "ratio" row) = None →
  classify row = Ok (inl (BadRatio (field "ratio" row))).
Proof.
  intros Hm Hid Hlen Hr Hx. unfold classify. rewrite Hm, Hid.
  rewrite bool_decide_eq_false_2, bool_decide_eq_false_2, Hx; [done|lia|].
  intros [Hd|]; [by apply field_date_nonempty in Hlen|done].
Qed.

(** C33: a date shorter than seven characters is reported and the row
    skipped; nothing else happens. *)
Theorem normalize_row_short_date row w s id :
  row !! "model_id" = Some (Some s) → int_of_str s = Some id →
  field "date" row ≠ "" → field "ratio" row ≠ "" → len (field "date" row) < 7 →
  run (normalize_row row) w = ([WARN_date (field "date" row)], w, Ok None).
Proof. intros. by erewrite run_skipped by by eapply classify_short_date. Qed.

(** C34: a ratio that [float] rejects is reported and the row skipped. *)
Theorem normalize_row_bad_ratio row w s id :
  row !! "model_id" = Some (Some s) → int_of_str s = Some id →
  7 ≤ len (field "date" row) → field "ratio" row ≠ "" →
  float_of_str (field "ratio" row) = None →
  run (normalize_row row) w = ([WARN_ratio (field "ratio" row)], w, Ok None).
Proof. intros. by erewrite run_skipped by by eapply classify_bad_ratio. Qed.

(** C35: a row without an integer [model_id] (the column is missing, or
    its text is no integer literal) is skipped without a word. *)
Theorem normalize_row_bad_model_id row w :
  (∀ s, row !! "model_id" = Some (Some s) → int_of_str s = None) →
  row !! "model_id" ≠ Some None →
  run (normalize_row row) w = ([], w, Ok None).
Proof. intros. by erewrite run_skipped by by eapply classify_bad_model_id. Qed.

(** C26: a record too short to have a [model_id] field makes
    [int(None)] raise [TypeError], which [except (KeyError, ValueError)]
    does not catch: the row is not skipped, the exception leaves the
    loop. *)
Theorem normalize_row_short_record names record i w :
  names !! i = Some "model_id" → length record ≤ i →
  run (normalize_row (zip_row names record)) w = ([], w, Raise TypeError).
Proof.
  intros Hn Hi. rewrite normalize_row_classify. unfold classify.
  by rewrite (zip_row_lookup_short _ _ _ _ Hn Hi).
Qed.


(** ** The stage *)

Lemma raw_out_ne run_id : raw_path BASE_DIR run_id ≠ out_path BASE_DIR run_id.
Proof.
  unfold raw_path, out_path. intros Heq%Fs.div_inj.
  apply (f_equal String.length) in Heq. rewrite !str_length_app in Heq.
  simpl in Heq. lia.
Qed.

Lemma classify_rows_kept reader :
  (classify_rows reader).2 = None → kept (classify_rows reader).1 = omap keep reader.
Proof.
  induction reader as [|row reader IH]; [done|]. unfold keep in *. simpl.
  destruct (classify row) as [c|e]; [|done].
  destruct (classify_rows reader) as [cs e]. simpl in *. intros He.
  unfold kept in *. simpl. rewrite (IH He). by destruct c.
Qed.

Lemma classify_rows_exn reader e :
  (classify_rows reader).2 = Some e → e = TypeError.
Proof.
  induction reader as [|row reader IH]; [done|]. simpl.
  destruct (classify row) as [c|e'] eqn:Ec.
  - destruct (classify_rows reader) as [cs e'']. simpl in *. done.
  - simpl. intros [= <-]. unfold classify in Ec. repeat case_match; congruence.
Qed.

(** The two ways a run can go: the raw file is missing, or it is read
    and its rows are classified. *)
Lemma normalize_detail_cases run_id w :
  (files w !! raw_path BASE_DIR run_id = None
   ∧ run (normalize_detail BASE_DIR run_id) w
     = ([], w, Raise (FileNotFoundError (raw_path BASE_DIR run_id))))
  ∨ (∃ text reader,
       files w !! raw_path BASE_DIR run_id = Some text
       ∧ read_dict_rows text = Ok reader
       ∧ ((classify_rows reader).2 = None
          ∧ run (normalize_detail BASE_DIR run_id) w
            = (INFO_loading (raw_path BASE_DIR run_id) :: warnings (classify_rows reader).1
                 ++ [count_event (omap keep reader);
                     INFO_saved (out_path BASE_DIR run_id)],
               done_world BASE_DIR run_id (omap keep reader) w,
               Ok (out_path BASE_DIR run_id))
          ∨ (classify_rows reader).2 = Some TypeError
            ∧ run (normalize_detail BASE_DIR run_id) w
              = (INFO_loading (raw_path BASE_DIR run_id)
                   :: warnings (classify_rows reader).1, w, Raise TypeError))).
Proof.
  destruct (files w !! raw_path BASE_DIR run_id) as [text|] eqn:Hraw;
    [right | left; eauto using normalize_detail_missing].
  destruct (read_dict_rows_total text) as [reader Hread]. exists text, reader.
  rewrite (normalize_detail_run _ _ _ _ Hraw Hread).
  destruct (classify_rows reader).2 as [e|] eqn:He.
  - apply classify_rows_exn in He as Hty. subst e. auto.
  - rewrite classify_rows_kept by done. auto.
Qed.

Ltac run_cases run_id w Hrun :=
  let Hr := fresh "Hr" in
  destruct (normalize_detail_cases run_id w)
    as [[? Hr]|(?txt & ?rd & ?Hraw & ?Hread & [[?He Hr]|[?He Hr]])];
  rewrite Hr in Hrun; simplify_eq; same_result.

(** C31: without the raw file of the run the stage raises
    [FileNotFoundError] before it prints or writes anything. *)
Theorem normalize_detail_not_found run_id w :
  Fs.exists_ (raw_path BASE_DIR run_id) (files w) = false →
  run (normalize_detail BASE_DIR run_id) w
  = ([], w, Raise (FileNotFoundError (raw_path BASE_DIR run_id))).
Proof. intros Hex%Fs.exists_false. by apply normalize_detail_missing. Qed.

(** C9: when the stage returns, the normalized file holds exactly the
    rows of the raw file that are valid, each once and in the order of
    the raw file; there are no more of them than raw rows. *)
Theorem normalize_detail_output run_id w text reader l w' p :
  files w !! raw_path BASE_DIR run_id = Some text →
  read_dict_rows text = Ok reader →
  run (normalize_detail BASE_DIR run_id) w = (l, w', Ok p) →
  p = out_path BASE_DIR run_id
  ∧ files w' !! p = Some (out_text (omap keep reader))
  ∧ length (omap keep reader) ≤ length reader.
Proof.
  intros Hraw Hread Hrun.
  run_cases run_id w Hrun.
  split; [done|]. split; [|apply omap_length_le].
  unfold done_world, Fs.write_text. rewrite files_set_files, lookup_insert_eq.
  done.
Qed.

(** C3: running the stage again on its own result changes nothing: it
    prints the same lines and leaves every file as it is, the
    normalized file byte for byte. *)
Theorem normalize_detail_idempotent run_id w l w' p :
  run (normalize_detail BASE_DIR run_id) w = (l, w', Ok p) →
  run (normalize_detail BASE_DIR run_id) w' = (l, w', Ok p).
Proof.
  intros Hrun. run_cases run_id w Hrun.
  assert (files (done_world BASE_DIR run_id (omap keep rd) w)
            !! raw_path BASE_DIR run_id = Some txt) as Hraw'.
  { unfold done_world, Fs.write_text. rewrite files_set_files.
    rewrite lookup_insert_ne by (symmetry; apply raw_out_ne). done. }
  rewrite (normalize_detail_run _ _ _ _ Hraw' Hread), He.
  rewrite classify_rows_kept by done. do 2 f_equal.
  unfold done_world. by rewrite files_set_files, Fs.write_text_idemp.
Qed.

(** The stage touches nothing but the normalized file of the run:
    the tables and the other files are as they were, however it ends. *)
Theorem normalize_detail_frame run_id w l w' r :
  run (normalize_detail BASE_DIR run_id) w = (l, w', r) →
  detail w' = detail w ∧ summary w' = summary w
  ∧ ∀ q, q ≠ out_path BASE_DIR run_id → files w' !! q = files w !! q.
Proof.
  intros Hrun. run_cases run_id w Hrun; try done.
  repeat split. intros q Hq. unfold done_world, Fs.write_text.
  by rewrite files_set_files, lookup_insert_ne.
Qed.

(** C28: the only exceptions that leave the stage are
    [FileNotFoundError] for a missing raw file and [TypeError] for a
    record without a [model_id] field; in both cases no file is
    written. *)
Theorem normalize_detail_raises run_id w l w' e :
  run (normalize_detail BASE_DIR run_id) w = (l, w', Raise e) →
  (e = FileNotFoundError (raw_path BASE_DIR run_id) ∨ e = TypeError) ∧ w' = w.
Proof.
  intros Hrun. run_cases run_id w Hrun; auto.
Qed.

(** The normalized file starts with the header, also when no row
    is kept: then the header is all there is. *)
Theorem out_text_header rows :
  out_text rows
  = "model_id,month,device,gender,age_group,ratio" +:+ lineterminator
    +:+ write_records (row_fields <$> rows).
Proof. reflexivity. Qed.

End normalizer_proofs.

(** ** Examples, with the decimal model of [float] *)

Import DecFloat.

(** The header the Trend Fetcher writes. *)
Definition raw_header : list string :=
  ["model_id"; "brand_name"; "model_name"; "date"; "device"; "gender";
   "age_group"; "ratio"].

Definition raw_row (model_id date device gender ratio : string)
  : gmap string (option string) :=
  zip_row raw_header [model_id; "Kia"; "K5"; date; device; gender; ""; ratio].

(** A world without files or rows. *)
Definition ex_empty_world : world := World ∅ [] [] 0.

(** The raw row of the design's example scenario and what it becomes. *)
Definition ex_row : gmap string (option string) :=
  raw_row "5" "2025-03-15" "pc" "m" "12.5".

Definition ex_norm : norm_row := NormRow 5 "2025-03-01" "pc" "m" "" (DFin false "125" 2).

(** A raw file of four rows: the example, a row whose [model_id] is no
    number, a row with a short date and a row with a bad ratio. *)
Definition ex_raw_text : string :=
  "model_id,brand_name,model_name,date,device,gender,age_group,ratio" +:+ lineterminator +:+
  "5,Kia,K5,2025-03-15,pc,m,,12.5" +:+ lineterminator +:+
  "x,Kia,K5,2025-03-15,pc,m,,12.5" +:+ lineterminator +:+
  "5,Kia,K5,2025,pc,m,,12.5" +:+ lineterminator +:+
  "5,Kia,K5,2025-03-15,pc,m,,abc" +:+ lineterminator.

Definition ex_reader : list (gmap string (option string)) :=
  [ex_row; raw_row "x" "2025-03-15" "pc" "m" "12.5";
   raw_row "5" "2025" "pc" "m" "12.5"; raw_row "5" "2025-03-15" "pc" "m" "abc"].

Definition ex_world : world := World {[ raw_path [] "r1" := ex_raw_text ]} [] [] 0.

(** The same world with a record that is too short for its header. *)
Definition ex_short_world : world :=
  World {[ raw_path [] "r1" :=
             "date,model_id" +:+ lineterminator +:+ "2025-03-15" +:+ lineterminator ]}
    [] [] 0.

Lemma normalize_row_valid_witness :
  run (normalize_row ex_row) ex_empty_world = ([], ex_empty_world, Ok (Some ex_norm)).
Proof.
  apply (normalize_row_valid ex_row ex_empty_world "5" 5 (DFin false "125" 2));
    vm_compute; try reflexivity. lia.
Defined.

Lemma normalize_row_kept_witness :
  (∃ s, ex_row !! "model_id" = Some (Some s) ∧ int_of_str s = Some (model_id ex_norm))
  ∧ 7 ≤ len (field "date" ex_row)
  ∧ month ex_norm = slice_to 7 (field "date" ex_row) +:+ "-01"
  ∧ float_of_str (field "ratio" ex_row) = Some (ratio ex_norm).
Proof. apply (normalize_row_kept ex_row ex_empty_world [] ex_empty_world ex_norm). reflexivity. Defined.

Lemma normalize_row_short_date_witness :
  run (normalize_row (raw_row "5" "2025" "pc" "m" "12.5")) ex_empty_world
  = ([WARN_date "2025"], ex_empty_world, Ok None).
Proof.
  apply (normalize_row_short_date (raw_row "5" "2025" "pc" "m" "12.5") ex_empty_world "5" 5);
    vm_compute; try reflexivity; try discriminate. lia.
Defined.

Lemma normalize_row_bad_ratio_witness :
  run (normalize_row (raw_row "5" "2025-03-15" "pc" "m" "abc")) ex_empty_world
  = ([WARN_ratio "abc"], ex_empty_world, Ok None).
Proof.
  apply (normalize_row_bad_ratio (raw_row "5" "2025-03-15" "pc" "m" "abc") ex_empty_world "5" 5);
    vm_compute; try reflexivity; try discriminate. lia.
Defined.

Lemma normalize_row_bad_model_id_witness :
  run (normalize_row (raw_row "x" "2025-03-15" "pc" "m" "12.5")) ex_empty_world = ([], ex_empty_world, Ok None).
Proof.
  apply (normalize_row_bad_model_id (raw_row "x" "2025-03-15" "pc" "m" "12.5") ex_empty_world).
  - intros s. vm_compute. intros [= <-]. reflexivity.
  - vm_compute. discriminate.
Defined.

Lemma normalize_row_short_record_witness :
  run (normalize_row (zip_row ["date"; "model_id"] ["2025-03-15"])) ex_empty_world
  = ([], ex_empty_world, Raise TypeError).
Proof.
  apply (normalize_row_short_record ["date"; "model_id"] ["2025-03-15"] 1 ex_empty_world);
    [reflexivity | simpl; lia].
Defined.

Lemma normalize_detail_not_found_witness :
  run (normalize_detail [] "r1") ex_empty_world = ([], ex_empty_world, Raise (FileNotFoundError (raw_path [] "r1"))).
Proof. apply (normalize_detail_not_found [] "r1" ex_empty_world). reflexivity. Defined.

Lemma normalize_detail_output_witness :
  out_path [] "r1" = out_path [] "r1"
  ∧ files (final (run (normalize_detail [] "r1") ex_world)) !! out_path [] "r1"
    = Some (out_text (omap keep ex_reader))
  ∧ length (omap keep ex_reader) ≤ length ex_reader.
Proof.
  apply (normalize_detail_output [] "r1" ex_world ex_raw_text ex_reader
           (printed (run (normalize_detail [] "r1") ex_world)));
    reflexivity.
Defined.

Lemma normalize_detail_idempotent_witness :
  run (normalize_detail [] "r1") (final (run (normalize_detail [] "r1") ex_world))
  = (printed (run (normalize_detail [] "r1") ex_world),
     final (run (normalize_detail [] "r1") ex_world), Ok (out_path [] "r1")).
Proof.
  apply (normalize_detail_idempotent [] "r1" ex_world). reflexivity.
Defined.

Lemma normalize_detail_frame_witness :
  detail (final (run (normalize_detail [] "r1") ex_world)) = detail ex_world
  ∧ summary (final (run (normalize_detail [] "r1") ex_world)) = summary ex_world
  ∧ ∀ q, q ≠ out_path [] "r1" →
      files (final (run (normalize_detail [] "r1") ex_world)) !! q = files ex_world !! q.
Proof.
  apply (normalize_detail_frame [] "r1" ex_world
           (printed (run (normalize_detail [] "r1") ex_world)) _
           (returned (run (normalize_detail [] "r1") ex_world))).
  reflexivity.
Defined.

Lemma normalize_detail_raises_witness :
  (TypeError = FileNotFoundError (raw_path [] "r1") ∨ TypeError = TypeError)
  ∧ ex_short_world = ex_short_world.
Proof.
  apply (normalize_detail_raises [] "r1" ex_short_world
           [INFO_loading (raw_path [] "r1")]).
  reflexivity.
Defined.

(** A ratio that reads [nan] is kept: [float] accepts it, so a
    normalized row may hold a ratio that is not a finite number. *)
Example normalize_row_keeps_nan :
  run (normalize_row (raw_row "5" "2025-03-15" "pc" "m" "nan")) ex_empty_world
  = ([], ex_empty_world, Ok (Some (NormRow 5 "2025-03-01" "pc" "m" "" DNan)))
  ∧ float_finite DNan = false.
Proof. split; reflexivity. Qed.

(** The date is not checked to be a date: any text of seven
    characters or more gives a month. *)
Example normalize_row_any_date :
  run (normalize_row (raw_row "5" "March 2025" "pc" "m" "12.5")) ex_empty_world
  = ([], ex_empty_world, Ok (Some (NormRow 5 "March 2-01" "pc" "m" "" (DFin false "125" 2)))).
Proof. reflexivity. Qed.

End Normalizer.
