(* ===== verification/Loader.v ===== *)
(** * The Detail Loader  ([load_naver_interest_detail.py])

    [load_detail run_id] reads the normalized CSV of a run and upserts
    every row into the detail table, inside one transaction.

    - [params] is the dict of bind parameters built for a row (lines
      63-70): an empty label becomes [None], that is [NULL];
    - [execute] is [conn.execute(sql, params)] (line 71);
    - [load_rows] is the loop (lines 62-72), [load_detail] the function
      (lines 19-74);
    - [load_loop] is the specification of the loop as a pure function
      on the table; [load_rows_loop] shows that the program implements
      it;
    - [row_upsert] is the key and the ratio of the statement of a row,
      and [labelled] says that a row has its three labels: on such
      rows the load is idempotent ([load_detail_idempotent]);
    - [updates] are the rows of a file whose key is complete and
      [appended] the rows a load inserts for the others: a second load
      of the same file leaves the table of the first followed by
      [appended] ([upsert_all_twice], [load_detail_twice]).

    Nothing the loop does can be seen if a row fails: the exception
    leaves the [with engine.begin()] block, which rolls the table back. *)

From Stdlib Require Import Ascii ZArith.
From stdpp Require Import base tactics option list strings gmap.
From S2P Require Import Prelude PyStr PyInt PyFloat DecFloat Csv Fs Prog Db World.

Module Loader.
Import PyStr PyInt Csv Db World.

(** The lines the stage prints. *)
Inductive event : Type :=
| INFO_start (csv_path : Fs.path)
| INFO_done (rows : nat).

(** [v or None] for a field of a row. *)
Definition or_None (v : option string) : option string :=
  match v with
  | Some EmptyString | None => None
  | Some s => Some s
  end.

Section loader.
Context `{FloatOps} `{!Schema}.
Variable BASE_DIR : Fs.path.

Definition NAVER_DIR : Fs.path :=
  Fs.div (Fs.div (Fs.div BASE_DIR "data") "raw") "naver".

Definition csv_path (run_id : string) : Fs.path :=
  Fs.div (Fs.div NAVER_DIR run_id)
    ("naver_trend_" +:+ run_id +:+ "_detail_normalized.csv").

(** The bind parameters of a row, its entries evaluated in the order of
    the dict display. *)
Definition params (row : gmap string (option string)) : result detail_params :=
  model_id ← getitem "model_id" row ≫= py_int;
  month ← getitem "month" row;
  device ← getitem "device" row;
  gender ← getitem "gender" row;
  age_group ← getitem "age_group" row;
  ratio ← getitem "ratio" row ≫= py_float;
  Ok (DetailParams model_id month (or_None device) (or_None gender)
        (or_None age_group) ratio).

(** [conn.execute(sql, params)] *)
Definition execute {E} (p : detail_params) : prog world E unit :=
  t ← gets detail;
  time ← gets now;
  t' ← lift (execute_upsert_detail time p t);
  modify (set_detail t').

(** [for row in reader: ...; rows += 1] *)
Definition load_rows (reader : list (gmap string (option string)))
  : prog world event nat :=
  fold_m (λ rows row, p ← lift (params row); execute p;; mret (rows + 1)) reader 0.

Definition load_detail (run_id : string) : prog world event unit :=
  let csv_path := csv_path run_id in
  found ← path_exists csv_path;
  if negb found then raise (FileNotFoundError csv_path)
  else
    print (INFO_start csv_path);;
    rows ← transaction (
      text ← read_file csv_path;
      reader ← lift (read_dict_rows text);
      load_rows reader);
    print (INFO_done rows).

(** ** Specification *)

(** The table after the rows up to the first that fails, and the
    exception it raises. *)
Fixpoint load_loop (time : nat) (reader : list (gmap string (option string)))
    (t : list detail_row) : list detail_row * option exn :=
  match reader with
  | [] => (t, None)
  | row :: rest =>
      match params row ≫= (λ p, execute_upsert_detail time p t) with
      | Ok t' => load_loop time rest t'
      | Raise e => (t, Some e)
      end
  end.

(** The table after upserting a list of keys with their ratios. *)
Definition upsert_all (time : nat) (rows : list (detail_key * float))
    (t : list detail_row) : list detail_row :=
  foldl (λ t r, upsert_detail time r.1 r.2 t) t rows.

(** The value of the loop: the count, or the exception. *)
Definition rows_result (n : nat) (e : option exn) : result nat :=
  match e with None => Ok n | Some e => Raise e end.

(** The parameters that upsert the key [k] with the ratio [x]. *)
Definition key_params (k : detail_key) (x : float) : detail_params :=
  let '(model_id, month, device, gender, age_group) := k in
  DetailParams model_id (Some month) device gender age_group x.

(** A row that has all three labels: its key has no [NULL]. *)
Definition labelled (row : gmap string (option string)) : Prop :=
  ∀ k, k ∈ ["device"; "gender"; "age_group"] → or_None (get k row) ≠ None.

(** The key and the ratio of the statement of a row, when the database
    accepts it. *)
Definition row_upsert (row : gmap string (option string))
  : option (detail_key * float) :=
  match params row with
  | Ok p =>
      match p_month p with
      | Some month =>
          if float_finite (p_ratio p) && detail_ok p
          then Some ((p_model_id p, month, p_device p, p_gender p, p_age_group p),
                     p_ratio p)
          else None
      | None => None
      end
  | Raise _ => None
  end.

(** The rows a list of statements appends whatever the table holds:
    those of the keys with a [NULL]. *)
Definition appended (time : nat) (ps : list (detail_key * float)) : list detail_row :=
  (λ p, new_detail time p.1 p.2) <$> filter (λ p, complete p.1 = false) ps.

(** The statements on keys without [NULL]. *)
Definition updates (ps : list (detail_key * float)) : list (detail_key * float) :=
  filter (λ p, complete p.1 = true) ps.

End loader.

Section loader_proofs.
Context `{FloatLaws} `{!Schema}.
Variable BASE_DIR : Fs.path.

(** ** The program implements the specification *)

Lemma run_execute_detail {E B} p (k : prog world E B) w :
  run (execute p ;; k) w =
    match execute_upsert_detail (now w) p (detail w) with
    | Ok t' => run k (set_detail t' w)
    | Raise e => ([], w, Raise e)
    end.
Proof.
  unfold execute. rewrite (bind_assoc _ _ _ w), run_bind_gets.
  rewrite (bind_assoc _ _ _ w), run_bind_gets, (bind_assoc _ _ _ w), run_bind_lift.
  destruct (execute_upsert_detail _ _ _); [|done]. by rewrite run_bind_modify.
Qed.

Lemma load_rows_from reader n w :
  run (fold_m (λ rows row, p ← lift (params row); execute p;; mret (rows + 1))
         reader n : prog world event nat) w
  = ([], set_detail (load_loop (now w) reader (detail w)).1 w,
     rows_result (n + length reader) (load_loop (now w) reader (detail w)).2).
Proof.
  revert n w. induction reader as [|row reader IH]; intros n w.
  - simpl. by rewrite set_detail_detail, Nat.add_0_r.
  - rewrite fold_m_cons, (bind_assoc _ _ _ w), run_bind_lift. cbn [load_loop].
    destruct (params row) as [p|e]; cbn [mbind result_bind fst snd];
      [|by rewrite set_detail_detail].
    rewrite (bind_assoc _ _ _ w), run_execute_detail.
    destruct (execute_upsert_detail _ _ _) as [t'|e]; cbn [fst snd];
      [|by rewrite set_detail_detail].
    rewrite (bind_ret_l _ _ (set_detail t' w)), IH. cbn [length].
    by replace (n + 1 + length reader) with (n + S (length reader)) by lia.
Qed.

Lemma load_rows_loop reader w :
  run (load_rows reader) w
  = ([], set_detail (load_loop (now w) reader (detail w)).1 w,
     rows_result (length reader) (load_loop (now w) reader (detail w)).2).
Proof. apply load_rows_from. Qed.

Lemma load_detail_missing run_id w :
  files w !! csv_path BASE_DIR run_id = None →
  run (load_detail BASE_DIR run_id) w
  = ([], w, Raise (FileNotFoundError (csv_path BASE_DIR run_id))).
Proof.
  intros Hcsv. unfold load_detail, path_exists.
  rewrite run_bind_gets. by rewrite (proj2 (Fs.exists_false _ _) Hcsv).
Qed.

Lemma load_detail_run run_id w text reader :
  files w !! csv_path BASE_DIR run_id = Some text →
  read_dict_rows text = Ok reader →
  run (load_detail BASE_DIR run_id) w =
    match (load_loop (now w) reader (detail w)).2 with
    | None =>
        ([INFO_start (csv_path BASE_DIR run_id); INFO_done (length reader)],
         set_detail (load_loop (now w) reader (detail w)).1 w, Ok ())
    | Some e => ([INFO_start (csv_path BASE_DIR run_id)], w, Raise e)
    end.
Proof.
  intros Hcsv Hread. unfold load_detail, path_exists.
  rewrite run_bind_gets, (proj2 (Fs.exists_true _ _)) by by rewrite Hcsv.
  cbn [negb]. rewrite run_bind_print.
  assert (run (text ← read_file (csv_path BASE_DIR run_id);
               reader ← lift (read_dict_rows text); load_rows reader) w
          = ([], set_detail (load_loop (now w) reader (detail w)).1 w,
             rows_result (length reader) (load_loop (now w) reader (detail w)).2))
    as Hblock.
  { by rewrite (run_read_file _ _ _ _ Hcsv), Hread, run_bind_lift, load_rows_loop. }
  destruct (load_loop (now w) reader (detail w)) as [t' [e|]]; cbn [fst snd] in *.
  - erewrite run_bind_Raise by by apply run_transaction_Raise.
    by rewrite rollback_set_detail.
  - erewrite run_bind_Ok by by apply run_transaction_Ok. done.
Qed.


(** ** The statement and the loop on the table *)

Lemma execute_upsert_detail_Ok time p t t' :
  execute_upsert_detail time p t = Ok t' ↔
  ∃ month, p_month p = Some month ∧ float_finite (p_ratio p) = true
    ∧ detail_ok p = true
    ∧ t' = upsert_detail time
             (p_model_id p, month, p_device p, p_gender p, p_age_group p)
             (p_ratio p) t.
Proof.
  unfold execute_upsert_detail. destruct (p_month p) as [month|]; cycle 1.
  { split; [done|]. by intros (? & ? & _). }
  destruct (float_finite (p_ratio p)), (detail_ok p); simpl; split;
    try done; try (intros (? & ? & ? & ? & _); done).
  - intros [= <-]. eauto.
  - by intros (? & [= <-] & _ & _ & ->).
Qed.

Lemma load_loop_unique time reader t :
  detail_unique t → detail_unique (load_loop time reader t).1.
Proof.
  revert t. induction reader as [|row reader IH]; intros t Hu; [done|]. simpl.
  destruct (params row) as [p|e]; [|done]. simpl.
  destruct (execute_upsert_detail time p t) as [t'|e] eqn:Hex; [|done].
  apply execute_upsert_detail_Ok in Hex as (month & _ & _ & _ & ->).
  by apply IH, upsert_detail_unique.
Qed.

Lemma execute_key_params time k x t :
  float_finite x = true → detail_ok (key_params k x) = true →
  execute_upsert_detail time (key_params k x) t = Ok (upsert_detail time k x t).
Proof.
  destruct k as [[[[??]?]?]?]. intros Hfin Hok. unfold execute_upsert_detail.
  cbn [key_params p_month p_ratio] in *. by rewrite Hfin, Hok.
Qed.

(** The rows of a file whose parameters all are accepted are upserted
    one after the other. *)
Lemma load_loop_all time reader ps t :
  Forall2 (λ row p, params row = Ok (key_params p.1 p.2)
                    ∧ float_finite p.2 = true
                    ∧ detail_ok (key_params p.1 p.2) = true) reader ps →
  load_loop time reader t = (upsert_all time ps t, None).
Proof.
  intros Hps. revert t. induction Hps as [|row p reader ps (Hp & Hfin & Hok) _ IH];
    intros t; [done|].
  cbn [load_loop]. rewrite Hp. cbn [mbind result_bind].
  by rewrite execute_key_params, IH.
Qed.

(** The three ways a run can go. *)
Lemma load_detail_cases run_id w :
  (files w !! csv_path BASE_DIR run_id = None
   ∧ run (load_detail BASE_DIR run_id) w
     = ([], w, Raise (FileNotFoundError (csv_path BASE_DIR run_id))))
  ∨ (∃ text reader,
       files w !! csv_path BASE_DIR run_id = Some text
       ∧ read_dict_rows text = Ok reader
       ∧ ((load_loop (now w) reader (detail w)).2 = None
          ∧ run (load_detail BASE_DIR run_id) w
            = ([INFO_start (csv_path BASE_DIR run_id); INFO_done (length reader)],
               set_detail (load_loop (now w) reader (detail w)).1 w, Ok ())
          ∨ ∃ e, (load_loop (now w) reader (detail w)).2 = Some e
            ∧ run (load_detail BASE_DIR run_id) w
              = ([INFO_start (csv_path BASE_DIR run_id)], w, Raise e))).
Proof.
  destruct (files w !! csv_path BASE_DIR run_id) as [text|] eqn:Hcsv;
    [right | left; eauto using load_detail_missing].
  destruct (read_dict_rows_total text) as [reader Hread]. exists text, reader.
  rewrite (load_detail_run _ _ _ _ Hcsv Hread).
  destruct (load_loop (now w) reader (detail w)).2 as [e|]; eauto 10.
Qed.

Ltac load_cases run_id w Hrun :=
  let Hr := fresh "Hr" in
  destruct (load_detail_cases run_id w)
    as [[? Hr]|(?txt & ?rd & ?Hcsv & ?Hread & [[?He Hr]|(?e & ?He & Hr)])];
  rewrite Hr in Hrun; simplify_eq; same_result.

(** C32: without the normalized file of the run the stage raises
    [FileNotFoundError] before it prints anything or opens a
    transaction. *)
Theorem load_detail_not_found run_id w :
  Fs.exists_ (csv_path BASE_DIR run_id) (files w) = false →
  run (load_detail BASE_DIR run_id) w
  = ([], w, Raise (FileNotFoundError (csv_path BASE_DIR run_id))).
Proof. intros Hex%Fs.exists_false. by apply load_detail_missing. Qed.

(** C4: the load is all or nothing: when the stage raises, whatever
    the row and the reason, the tables and the files are as they were
    and the final line is not printed. *)
Theorem load_detail_atomic run_id w l w' e :
  run (load_detail BASE_DIR run_id) w = (l, w', Raise e) →
  w' = w ∧ (l = [] ∨ l = [INFO_start (csv_path BASE_DIR run_id)]).
Proof. intros Hrun. load_cases run_id w Hrun; auto. Qed.

(** C21: when the stage returns, every row of the file was upserted, in
    the order of the file; the count it prints is the number of rows
    read; the summary table and the files are not touched. *)
Theorem load_detail_commit run_id w text reader l w' :
  files w !! csv_path BASE_DIR run_id = Some text →
  read_dict_rows text = Ok reader →
  run (load_detail BASE_DIR run_id) w = (l, w', Ok ()) →
  load_loop (now w) reader (detail w) = (detail w', None)
  ∧ l = [INFO_start (csv_path BASE_DIR run_id); INFO_done (length reader)]
  ∧ files w' = files w ∧ summary w' = summary w.
Proof.
  intros Hcsv Hread Hrun. load_cases run_id w Hrun. repeat split.
  destruct (load_loop _ _ _) as [t' e]. simpl in *. by subst.
Qed.

(** C22: the stage keeps the unique key of the detail table unique,
    however it ends. *)
Theorem load_detail_unique run_id w l w' r :
  detail_unique (detail w) →
  run (load_detail BASE_DIR run_id) w = (l, w', r) →
  detail_unique (detail w').
Proof.
  intros Hu Hrun. load_cases run_id w Hrun; try done.
  by apply load_loop_unique.
Qed.

Lemma upsert_all_snoc time ps k x t :
  upsert_all time (ps ++ [(k, x)]) t = upsert_detail time k x (upsert_all time ps t).
Proof. unfold upsert_all. by rewrite foldl_snoc. Qed.

Lemma upsert_all_cons time p ps t :
  upsert_all time (p :: ps) t = upsert_all time ps (upsert_detail time p.1 p.2 t).
Proof. reflexivity. Qed.

Lemma upsert_all_keys_mono time ps t k :
  k ∈ key_of <$> t → k ∈ key_of <$> upsert_all time ps t.
Proof.
  revert t. induction ps as [|p ps IH]; intros t Hk; [done|].
  rewrite upsert_all_cons. by apply IH, upsert_detail_keys_mono.
Qed.

(** After the statements, the table has their keys. *)
Lemma upsert_all_keys_in time ps t :
  Forall (λ p, p.1 ∈ key_of <$> upsert_all time ps t) ps.
Proof.
  revert t. induction ps as [|p ps IH]; intros t; constructor; [|apply IH].
  rewrite upsert_all_cons. apply upsert_all_keys_mono, upsert_detail_keys_in.
Qed.

(** A statement before a list of statements on keys of the table is
    undone by the same key after them. *)
Lemma upsert_all_absorb time ps k x x0 t :
  complete k = true →
  Forall (λ p, complete p.1 = true ∧ p.1 ∈ key_of <$> t) ps →
  upsert_detail time k x (upsert_all time ps (upsert_detail time k x0 t))
  = upsert_detail time k x (upsert_all time ps t).
Proof.
  intros Hk Hps. revert t x0 Hps.
  induction ps as [|[k1 x1] ps IH]; intros t x0 Hps.
  - simpl. by apply upsert_detail_idemp.
  - apply Forall_cons in Hps as [[Hk1 Hin] Hps]. rewrite !upsert_all_cons. simpl in *.
    destruct (decide (k1 = k)) as [->|Hne].
    + by rewrite upsert_detail_idemp.
    + rewrite upsert_detail_comm by done. apply IH.
      eapply Forall_impl; [done|]. intros p [? ?]. split; [done|].
      by apply upsert_detail_keys_mono.
Qed.

(** Statements on keys without [NULL], run a second time, change
    nothing. *)
Lemma upsert_all_idemp time ps t :
  Forall (λ p, complete p.1 = true) ps →
  upsert_all time ps (upsert_all time ps t) = upsert_all time ps t.
Proof.
  induction ps as [|[k x] ps IH] using rev_ind; intros Hps; [done|].
  apply Forall_app in Hps as [Hps [Hk _]%Forall_cons]. simpl in Hk.
  rewrite !upsert_all_snoc, upsert_all_absorb, IH; try done.
  apply Forall_forall. intros p Hp. split; [by eapply Forall_forall in Hps|].
  pose proof (upsert_all_keys_in time ps t) as Hin.
  by eapply Forall_forall in Hin.
Qed.

(** Statements on keys of the table do not read the clock. *)
Lemma upsert_all_time time time' ps t :
  Forall (λ p, complete p.1 = true ∧ p.1 ∈ key_of <$> t) ps →
  upsert_all time' ps t = upsert_all time ps t.
Proof.
  revert t. induction ps as [|p ps IH]; intros t Hps; [done|].
  apply Forall_cons in Hps as [[Hk Hin] Hps].
  rewrite !upsert_all_cons, (upsert_detail_time time time') by done.
  apply IH. eapply Forall_impl; [done|]. intros q [? ?]. split; [done|].
  by apply upsert_detail_keys_mono.
Qed.

(** So they change nothing at a later time either. *)
Lemma upsert_all_again time time' ps t :
  Forall (λ p, complete p.1 = true) ps →
  upsert_all time' ps (upsert_all time ps t) = upsert_all time ps t.
Proof.
  intros Hps. rewrite (upsert_all_time time time'), upsert_all_idemp; [done..|].
  pose proof (upsert_all_keys_in time ps t) as Hin.
  rewrite Forall_forall in Hps, Hin |- *. intros p Hp. split; auto.
Qed.

Lemma execute_row_upsert time row t :
  params row ≫= (λ p, execute_upsert_detail time p t)
  = match row_upsert row with
    | Some p => Ok (upsert_detail time p.1 p.2 t)
    | None => params row ≫= (λ p, execute_upsert_detail time p t)
    end.
Proof.
  unfold row_upsert, execute_upsert_detail. destruct (params row) as [p|e]; [|done].
  simpl. destruct (p_month p); [|done]. by destruct (_ && _).
Qed.

Lemma row_upsert_None time row t :
  row_upsert row = None → ∃ e, params row ≫= (λ p, execute_upsert_detail time p t) = Raise e.
Proof.
  unfold row_upsert, execute_upsert_detail. destruct (params row) as [p|e]; [|by eexists].
  simpl. destruct (p_month p); [|by eexists]. destruct (_ && _); [done|by eexists].
Qed.

(** A loop that ends is the list of the statements of its rows,
    whatever the table. *)
Lemma load_loop_upserts time reader t :
  (load_loop time reader t).2 = None →
  ∀ time' t',
    load_loop time' reader t' = (upsert_all time' (omap row_upsert reader) t', None).
Proof.
  revert t. induction reader as [|row reader IH]; intros t Hnone time' t'; [done|].
  cbn [load_loop omap list_omap] in *. rewrite execute_row_upsert in Hnone |- *.
  destruct (row_upsert row) as [p|] eqn:Hp.
  - rewrite upsert_all_cons. by eapply IH.
  - destruct (row_upsert_None time row t Hp) as [e He]. by rewrite He in Hnone.
Qed.

Lemma labelled_complete row p :
  labelled row → row_upsert row = Some p → complete p.1 = true.
Proof.
  intros Hl. unfold row_upsert, params.
  assert (∀ k v, k ∈ ["device"; "gender"; "age_group"] → getitem k row = Ok v →
            ∃ s, or_None v = Some s) as Hk.
  { intros k v Hk Hv. specialize (Hl k Hk). unfold getitem, get in *.
    destruct (row !! k) as [v'|]; simplify_eq/=. destruct (or_None v); [eauto|done]. }
  destruct (getitem "model_id" row ≫= py_int) as [id|]; [|done]. simpl.
  destruct (getitem "month" row) as [mo|]; [|done]. simpl.
  destruct (getitem "device" row) as [dev|] eqn:Hd; [|done]. simpl.
  destruct (getitem "gender" row) as [gen|] eqn:Hg; [|done]. simpl.
  destruct (getitem "age_group" row) as [age|] eqn:Ha; [|done]. simpl.
  destruct (getitem "ratio" row ≫= py_float) as [x|]; [|done]. simpl.
  destruct mo; [|done]. case_match; [|done]. intros [= <-]. simpl.
  destruct (Hk "device" dev) as [? ->]; [set_solver|done|].
  destruct (Hk "gender" gen) as [? ->]; [set_solver|done|].
  by destruct (Hk "age_group" age) as [? ->]; [set_solver|done|].
Qed.

(** C12: loading a file whose rows all have their three labels a second
    time, at whatever time, changes nothing and prints the same: the
    load is idempotent on files without an empty label. *)
Theorem load_detail_idempotent run_id w text reader l w' n :
  files w !! csv_path BASE_DIR run_id = Some text →
  read_dict_rows text = Ok reader →
  Forall labelled reader →
  run (load_detail BASE_DIR run_id) w = (l, w', Ok ()) →
  run (load_detail BASE_DIR run_id) (set_now n w') = (l, set_now n w', Ok ()).
Proof.
  intros Hcsv Hread Hl Hrun. load_cases run_id w Hrun.
  rewrite (load_detail_run _ (set_now n (set_detail _ w)) text reader Hcsv Hread).
  cbn [now detail set_detail set_now files].
  pose proof (load_loop_upserts _ _ _ He) as Hup. rewrite !Hup. cbn [fst snd].
  rewrite upsert_all_again; [done|].
  apply Forall_forall. intros p (row & Hrow & Hp)%list_elem_of_omap.
  eapply labelled_complete; [|done]. by eapply Forall_forall in Hl.
Qed.

Lemma upsert_all_app time qs t ex :
  Forall (λ p, complete p.1 = true ∧ p.1 ∈ key_of <$> t) qs →
  upsert_all time qs (t ++ ex) = upsert_all time qs t ++ ex.
Proof.
  revert t. induction qs as [|q qs IH]; intros t Hqs; [done|].
  apply Forall_cons in Hqs as [[Hk Hin] Hqs].
  rewrite !upsert_all_cons, upsert_detail_app_in by done. apply IH.
  eapply Forall_impl; [done|]. intros p [? ?]. split; [done|].
  by apply upsert_detail_keys_mono.
Qed.

Lemma updates_keys time ps t :
  Forall (λ p, complete p.1 = true ∧ p.1 ∈ key_of <$> upsert_all time ps t) (updates ps).
Proof.
  apply Forall_forall. intros p [Hk Hp]%list_elem_of_filter. split; [done|].
  pose proof (upsert_all_keys_in time ps t) as Hin. by eapply Forall_forall in Hin.
Qed.

Lemma updates_snoc ps k x :
  updates (ps ++ [(k, x)]) = updates ps ++ (if complete k then [(k, x)] else []).
Proof.
  unfold updates. rewrite filter_app. f_equal. rewrite filter_cons, filter_nil. simpl.
  by destruct (complete k); [rewrite decide_True|rewrite decide_False].
Qed.

(** After the statements, those on keys without [NULL] change nothing. *)
Lemma upsert_all_updates time ps t :
  upsert_all time (updates ps) (upsert_all time ps t) = upsert_all time ps t.
Proof.
  induction ps as [|[k x] ps IH] using rev_ind; [done|].
  pose proof (updates_keys time ps t) as Hin.
  rewrite updates_snoc, upsert_all_snoc. destruct (complete k) eqn:Hk.
  - by rewrite upsert_all_snoc, upsert_all_absorb, IH.
  - rewrite app_nil_r, upsert_detail_incomplete by done. by rewrite upsert_all_app, IH.
Qed.

(** Statements on a table that has their keys without [NULL]: the
    table is updated, and the rows of the other keys are appended. *)
Lemma upsert_all_split time ps t ex :
  Forall (λ p, complete p.1 = true → p.1 ∈ key_of <$> t) ps →
  upsert_all time ps (t ++ ex) = upsert_all time (updates ps) t ++ ex ++ appended time ps.
Proof.
  revert t ex. induction ps as [|[k x] ps IH]; intros t ex Hps.
  { by rewrite app_nil_r. }
  apply Forall_cons in Hps as [Hin Hps]. simpl in Hin. rewrite upsert_all_cons. simpl.
  unfold updates, appended. rewrite !filter_cons. simpl. destruct (complete k) eqn:Hk.
  - rewrite decide_True, decide_False by done. rewrite upsert_all_cons. simpl.
    rewrite upsert_detail_app_in by auto. apply IH.
    eapply Forall_impl; [done|]. intros p Hp ?. by apply upsert_detail_keys_mono, Hp.
  - rewrite decide_False, decide_True by done.
    rewrite upsert_detail_incomplete, <- app_assoc by done.
    rewrite IH by done. by rewrite fmap_cons, <- app_assoc.
Qed.

(** The statements run a second time, at whatever time: the table
    stays and the rows of the keys with a [NULL] are appended again. *)
Lemma upsert_all_twice time time' ps t :
  upsert_all time' ps (upsert_all time ps t) = upsert_all time ps t ++ appended time' ps.
Proof.
  pose proof (updates_keys time ps t) as Hin.
  rewrite <- (app_nil_r (upsert_all time ps t)) at 1. rewrite upsert_all_split; cycle 1.
  { pose proof (upsert_all_keys_in time ps t) as Hk. eapply Forall_impl; [done|]. auto. }
  by rewrite (upsert_all_time time time'), upsert_all_updates.
Qed.

(** C13: loading the same file a second time, at whatever time, keeps
    every row of the table and appends a new row for each row of the
    file whose key holds a [NULL] (a label that is empty): such a key
    never conflicts, so the statement inserts.  The second load is
    idempotent only on the rows that have their three labels. *)
Theorem load_detail_twice run_id w text reader l w' n :
  files w !! csv_path BASE_DIR run_id = Some text →
  read_dict_rows text = Ok reader →
  run (load_detail BASE_DIR run_id) w = (l, w', Ok ()) →
  run (load_detail BASE_DIR run_id) (set_now n w')
  = (l, set_detail (detail w' ++ appended n (omap row_upsert reader)) (set_now n w'), Ok ()).
Proof.
  intros Hcsv Hread Hrun. load_cases run_id w Hrun.
  rewrite (load_detail_run _ (set_now n (set_detail _ w)) text reader Hcsv Hread).
  cbn [now detail set_detail set_now files].
  pose proof (load_loop_upserts _ _ _ He) as Hup. rewrite !Hup. cbn [fst snd].
  by rewrite upsert_all_twice.
Qed.

End loader_proofs.

Import DecFloat.

(** ** Examples, with the decimal model of [float] and a schema that
    accepts every row *)

Local Existing Instance accept_all.

Definition ex_header : list string :=
  ["model_id"; "month"; "device"; "gender"; "age_group"; "ratio"].

(** The normalized file of the design's example scenario. *)
Definition ex_text : string :=
  "model_id,month,device,gender,age_group,ratio" +:+ lineterminator +:+
  "5,2025-03-01,pc,m,,12.5" +:+ lineterminator.

Definition ex_reader : list (gmap string (option string)) :=
  [zip_row ex_header ["5"; "2025-03-01"; "pc"; "m"; ""; "12.5"]].

Definition ex_world : world := World {[ csv_path [] "r1" := ex_text ]} [] [] 7.

(** The row it leaves in the detail table. *)
Definition ex_detail : detail_row :=
  DetailRow 5 "2025-03-01" (Some "pc") (Some "m") None (Some (DFin false "125" 2)) 7.

(** A file whose second row has a ratio that is no number. *)
Definition ex_bad_world : world :=
  World {[ csv_path [] "r1" :=
             ex_text +:+ "6,2025-03-01,pc,m,,abc" +:+ lineterminator ]} [] [] 7.

(** A file whose row has its three labels, and the row it leaves. *)
Definition ex_full_text : string :=
  "model_id,month,device,gender,age_group,ratio" +:+ lineterminator +:+
  "5,2025-03-01,pc,m,20,12.5" +:+ lineterminator.

Definition ex_full_reader : list (gmap string (option string)) :=
  [zip_row ex_header ["5"; "2025-03-01"; "pc"; "m"; "20"; "12.5"]].

Definition ex_full_world : world := World {[ csv_path [] "r1" := ex_full_text ]} [] [] 7.

Definition ex_full_detail : detail_row :=
  DetailRow 5 "2025-03-01" (Some "pc") (Some "m") (Some "20")
    (Some (DFin false "125" 2)) 7.

Lemma load_detail_not_found_witness :
  run (load_detail [] "r1") (World ∅ [] [] 7)
  = ([], World ∅ [] [] 7, Raise (FileNotFoundError (csv_path [] "r1"))).
Proof. apply (load_detail_not_found [] "r1" (World ∅ [] [] 7)). reflexivity. Defined.

Lemma load_detail_atomic_witness :
  ex_bad_world = ex_bad_world
  ∧ ([INFO_start (csv_path [] "r1")] = []
     ∨ [INFO_start (csv_path [] "r1")] = [INFO_start (csv_path [] "r1")]).
Proof.
  apply (load_detail_atomic [] "r1" ex_bad_world [INFO_start (csv_path [] "r1")]
           ex_bad_world ValueError).
  reflexivity.
Defined.

Lemma load_detail_commit_witness :
  load_loop (now ex_world) ex_reader (detail ex_world) = ([ex_detail], None)
  ∧ [INFO_start (csv_path [] "r1"); INFO_done 1]
    = [INFO_start (csv_path [] "r1"); INFO_done (length ex_reader)]
  ∧ files (set_detail [ex_detail] ex_world) = files ex_world
  ∧ summary (set_detail [ex_detail] ex_world) = summary ex_world.
Proof.
  apply (load_detail_commit [] "r1" ex_world ex_text ex_reader
           [INFO_start (csv_path [] "r1"); INFO_done 1] (set_detail [ex_detail] ex_world));
    reflexivity.
Defined.

Lemma load_detail_unique_witness :
  detail_unique (detail (set_detail [ex_detail] ex_world)).
Proof.
  apply (load_detail_unique [] "r1" ex_world
           [INFO_start (csv_path [] "r1"); INFO_done 1] (set_detail [ex_detail] ex_world)
           (Ok ())); [|reflexivity].
  intros i j ri rj Hi. destruct i; discriminate Hi.
Defined.

Lemma load_detail_idempotent_witness :
  run (load_detail [] "r1") (set_now 8 (set_detail [ex_full_detail] ex_full_world))
  = ([INFO_start (csv_path [] "r1"); INFO_done 1],
     set_now 8 (set_detail [ex_full_detail] ex_full_world), Ok ()).
Proof.
  apply (load_detail_idempotent [] "r1" ex_full_world ex_full_text ex_full_reader);
    [reflexivity..| |reflexivity].
  apply Forall_singleton. intros k Hk.
  repeat (apply elem_of_cons in Hk as [->|Hk]); [done..|by apply elem_of_nil in Hk].
Defined.

(** The design's example: the normalized row
    [(5, "2025-03-01", "pc", "m", "", 12.5)] becomes the detail row with
    the key [(5, 2025-03-01, pc, m, NULL)] and the ratio 12.5. *)
Example load_detail_example :
  run (load_detail [] "r1") ex_world
  = ([INFO_start (csv_path [] "r1"); INFO_done 1], set_detail [ex_detail] ex_world, Ok ()).
Proof. reflexivity. Qed.

(** The row of [ex_text] inserted at a later time. *)
Definition ex_detail_later : detail_row :=
  DetailRow 5 "2025-03-01" (Some "pc") (Some "m") None (Some (DFin false "125" 2)) 8.

Lemma load_detail_twice_witness :
  run (load_detail [] "r1") (set_now 8 (set_detail [ex_detail] ex_world))
  = ([INFO_start (csv_path [] "r1"); INFO_done 1],
     set_detail [ex_detail; ex_detail_later] (set_now 8 (set_detail [ex_detail] ex_world)),
     Ok ()).
Proof.
  change [ex_detail; ex_detail_later]
    with (detail (set_detail [ex_detail] ex_world)
          ++ appended 8 (omap row_upsert ex_reader)).
  apply (load_detail_twice [] "r1" ex_world ex_text ex_reader
           [INFO_start (csv_path [] "r1"); INFO_done 1] (set_detail [ex_detail] ex_world) 8);
    reflexivity.
Defined.

End Loader.
