(* ===== verification/Aggregator.v ===== *)
(** * The Aggregator  ([aggregate_naver_interest.py])

    [run_aggregate] averages the ratios of the detail table by
    [(model_id, month)] and upserts the means into the summary table.

    - [fetch_aggregated_naver_index] runs the aggregate query and
      builds one dict per row of its result (lines 13-44);
    - [upsert_model_monthly_interest] upserts the rows whose mean is not
      [None], inside one transaction, or warns and returns when there
      is nothing to upsert (lines 47-103);
    - [run_aggregate] chains the two (lines 106-111);
    - [upsert_loop] is the specification of the loop as a pure function
      on the table; [upsert_rows_loop] shows that the program implements
      it; a second pass of the loop finds the means in the table and
      changes nothing ([upsert_loop_again]);
    - [ratios_of] lists the ratios of a model and month that are not
      [NULL], and [agg_le] is the order of [ORDER BY month, model_id]:
      the rows of the query are one per group, sorted, and the index
      [x] of a group with ratios satisfies [x * count = total]
      ([fetch_aggregated_naver_index_rows]); the mean a run stores
      lies between the bounds of the ratios ([run_aggregate_bounds]).

    The mean is the exact rational: [float(r["naver_index"])] (line 40)
    is the identity of the model, and the rounding of MySQL's DOUBLE is
    not modelled.

    The query is run on one connection and the upserts on another: the
    model runs them one after the other on the same state, which is the
    behaviour of the stage when nothing else writes to the tables in
    between. *)

From Stdlib Require Import ZArith QArith Qcanon.
From stdpp Require Import base tactics option list strings sorting gmap.
From S2P Require Import Prelude PyFloat DecFloat Fs Prog Db World.

Local Close Scope Q_scope.
Local Close Scope Qc_scope.

Module Aggregator.
Import Db World.

(** The lines the stage prints. *)
Inductive event : Type :=
| WARN_no_data
| INFO_upserted (rows : nat)
| INFO_start
| INFO_count (n : nat)
| INFO_done.

(** A row of the aggregate (lines 36-42). *)
Record agg_row : Type := AggRow {
  model_id : Z;
  month : string;
  naver_index : option Qc;
}.

Definition to_agg_row (row : Z * string * option Qc) : agg_row :=
  AggRow row.1.1 row.1.2 row.2.

Section aggregator.
Context `{FloatOps} `{!Schema}.

Definition fetch_aggregated_naver_index {E} : prog world E (list agg_row) :=
  rows ← gets (λ w, select_avg (detail w));
  mret (fmap (M:=list) to_agg_row rows).

(** [conn.execute(sql, {...})] *)
Definition execute {E} (model_id : Z) (month : string) (x : Qc) : prog world E unit :=
  t ← gets summary;
  time ← gets now;
  t' ← lift (execute_upsert_summary time model_id month x t);
  modify (set_summary t').

(** The body of the loop (lines 91-101). *)
Definition upsert_row {E} (row : agg_row) : prog world E unit :=
  match naver_index row with
  | None => mret tt
  | Some x => execute (model_id row) (month row) x
  end.

Definition upsert_model_monthly_interest (aggregated : list agg_row)
  : prog world event unit :=
  match aggregated with
  | [] => print WARN_no_data
  | _ =>
      transaction (for_each upsert_row aggregated);;
      print (INFO_upserted (length aggregated))
  end.

Definition run_aggregate : prog world event unit :=
  print INFO_start;;
  aggregated ← fetch_aggregated_naver_index;
  print (INFO_count (length aggregated));;
  upsert_model_monthly_interest aggregated;;
  print INFO_done.

(** ** Specification *)

(** The summary table after the rows up to the first that fails, and
    the exception it raises. *)
Fixpoint upsert_loop (time : nat) (aggregated : list agg_row)
    (t : list summary_row) : list summary_row * option exn :=
  match aggregated with
  | [] => (t, None)
  | row :: rest =>
      match naver_index row with
      | None => upsert_loop time rest t
      | Some x =>
          match execute_upsert_summary time (model_id row) (month row) x t with
          | Ok t' => upsert_loop time rest t'
          | Raise e => (t, Some e)
          end
      end
  end.

(** The summary table after upserting the means that are not [NULL]. *)
Definition upsert_means (time : nat) (aggregated : list agg_row)
    (t : list summary_row) : list summary_row :=
  foldl (λ t row,
    match naver_index row with
    | Some x => upsert_summary time (model_id row) (month row) x t
    | None => t
    end) t aggregated.

(** The value of the loop. *)
Definition loop_value (e : option exn) : result unit :=
  match e with None => Ok tt | Some e => Raise e end.

(** The rows the query returns in a state. *)
Definition aggregated_of (w : world) : list agg_row := to_agg_row <$> select_avg (detail w).

(** The order of the rows of the aggregate: by month, then by model. *)
Definition agg_le (a b : agg_row) : Prop :=
  month a ≠ month b ∧ String.leb (month a) (month b) = true
  ∨ month a = month b ∧ (model_id a ≤ model_id b)%Z.

(** The ratios of the rows of a model and a month that are not [NULL]. *)
Definition ratios_of (id : Z) (mo : string) (t : list detail_row) : list Qc :=
  float_value <$> omap d_ratio (filter (λ d, d_model_id d = id ∧ d_month d = mo) t).

(** The key of a row of the aggregate. *)
Definition agg_key (row : agg_row) : Z * string := (model_id row, month row).

(** The summary table as a map from keys to indexes: the index of the
    first row with the key. *)
Definition summary_view (t : list summary_row) : gmap (Z * string) (option Qc) :=
  list_to_map ((λ r, (summary_key r, s_naver_search_index r)) <$> t).

(** What upserting a row of the aggregate does to this map. *)
Definition put_mean (m : gmap (Z * string) (option Qc)) (row : agg_row)
  : gmap (Z * string) (option Qc) :=
  match naver_index row with
  | Some x => <[(model_id row, month row) := Some x]> m
  | None => m
  end.

End aggregator.

Section aggregator_proofs.
Context `{FloatOps} `{!Schema}.

(** ** The program implements the specification *)

Lemma run_execute_summary {E B} id mo x (k : unit → prog world E B) w :
  run (execute id mo x ≫= k) w =
    match execute_upsert_summary (now w) id mo x (summary w) with
    | Ok t' => run (k tt) (set_summary t' w)
    | Raise e => ([], w, Raise e)
    end.
Proof.
  unfold execute. rewrite (bind_assoc _ _ _ w), run_bind_gets.
  rewrite (bind_assoc _ _ _ w), run_bind_gets, (bind_assoc _ _ _ w), run_bind_lift.
  destruct (execute_upsert_summary _ _ _ _ _); [|done].
  rewrite run_bind. simpl. by destruct (run (k tt) _) as [[??]?].
Qed.

Lemma run_upsert_row {E B} row (k : unit → prog world E B) w :
  run (upsert_row row ≫= k) w =
    match naver_index row with
    | Some x =>
        match execute_upsert_summary (now w) (model_id row) (month row) x (summary w) with
        | Ok t' => run (k tt) (set_summary t' w)
        | Raise e => ([], w, Raise e)
        end
    | None => run (k tt) w
    end.
Proof.
  unfold upsert_row. destruct (naver_index row); [apply run_execute_summary|].
  by rewrite (bind_ret_l _ _ w).
Qed.

Lemma upsert_rows_loop {E} aggregated w :
  run (for_each (upsert_row (E:=E)) aggregated) w
  = ([], set_summary (upsert_loop (now w) aggregated (summary w)).1 w,
     loop_value (upsert_loop (now w) aggregated (summary w)).2).
Proof.
  unfold for_each. revert w. induction aggregated as [|row rest IH]; intros w.
  - simpl. by rewrite set_summary_summary.
  - rewrite fold_m_cons, run_upsert_row. cbn [upsert_loop].
    destruct (naver_index row) as [x|]; [|by rewrite IH].
    destruct (execute_upsert_summary _ _ _ _ _) as [t'|e]; cbn [fst snd];
      [|by rewrite set_summary_summary].
    by rewrite IH.
Qed.

Lemma run_upsert_nil w :
  run (upsert_model_monthly_interest []) w = ([WARN_no_data], w, Ok ()).
Proof. reflexivity. Qed.

Lemma run_upsert aggregated w :
  aggregated ≠ [] →
  run (upsert_model_monthly_interest aggregated) w =
    match (upsert_loop (now w) aggregated (summary w)).2 with
    | None => ([INFO_upserted (length aggregated)],
               set_summary (upsert_loop (now w) aggregated (summary w)).1 w, Ok ())
    | Some e => ([], w, Raise e)
    end.
Proof.
  intros Hne. destruct aggregated as [|row rest]; [done|].
  unfold upsert_model_monthly_interest.
  pose proof (upsert_rows_loop (E:=event) (row :: rest) w) as Hloop.
  destruct (upsert_loop (now w) (row :: rest) (summary w)) as [t' [e|]];
    cbn [fst snd loop_value] in *.
  - erewrite run_bind_Raise by by apply run_transaction_Raise.
    by rewrite rollback_set_summary.
  - erewrite run_bind_Ok by by apply run_transaction_Ok. done.
Qed.

Lemma run_fetch {E B} (k : list agg_row → prog world E B) w :
  run (fetch_aggregated_naver_index ≫= k) w = run (k (aggregated_of w)) w.
Proof.
  unfold fetch_aggregated_naver_index.
  by rewrite (bind_assoc _ _ _ w), run_bind_gets, (bind_ret_l _ _ w).
Qed.

Lemma run_aggregate_run w :
  run run_aggregate w =
    match aggregated_of w with
    | [] => ([INFO_start; INFO_count 0; WARN_no_data; INFO_done], w, Ok ())
    | _ =>
        match (upsert_loop (now w) (aggregated_of w) (summary w)).2 with
        | None =>
            ([INFO_start; INFO_count (length (aggregated_of w));
              INFO_upserted (length (aggregated_of w)); INFO_done],
             set_summary (upsert_loop (now w) (aggregated_of w) (summary w)).1 w,
             Ok ())
        | Some e =>
            ([INFO_start; INFO_count (length (aggregated_of w))], w, Raise e)
        end
    end.
Proof.
  unfold run_aggregate. rewrite run_bind_print, run_fetch, run_bind_print.
  destruct (aggregated_of w) as [|row rest] eqn:Hagg.
  - by rewrite (run_bind_Ok _ _ _ _ _ _ (run_upsert_nil w)).
  - rewrite run_bind, run_upsert by done.
    by destruct (upsert_loop _ _ _) as [t' [e|]].
Qed.


(** ** The loop on the table *)

Lemma summary_view_app t1 t2 :
  summary_view (t1 ++ t2) = summary_view t1 ∪ summary_view t2.
Proof. unfold summary_view. by rewrite fmap_app, list_to_map_app. Qed.

Lemma summary_view_absent id mo t :
  Forall (λ r, summary_key r ≠ (id, mo)) t → summary_view t !! (id, mo) = None.
Proof.
  intros Ht. apply not_elem_of_list_to_map_1. rewrite <- list_fmap_compose.
  intros (r & Hk & Hr)%list_elem_of_fmap. rewrite Forall_forall in Ht.
  by apply (Ht r).
Qed.

(** The summary table implements a finite map from keys to indexes:
    the statement is the insertion into the map. *)
Lemma upsert_summary_view time id mo x t :
  summary_view (upsert_summary time id mo x t) = <[(id, mo) := Some x]> (summary_view t).
Proof.
  destruct (summary_key_cases id mo t) as [Ht|(t1 & r & t2 & -> & Ht1 & Hr)].
  - rewrite upsert_summary_absent by done. rewrite summary_view_app.
    unfold summary_view at 2. simpl. rewrite insert_empty.
    by rewrite <- insert_union_singleton_r by by apply summary_view_absent.
  - rewrite upsert_summary_present by done. rewrite !summary_view_app.
    unfold summary_view at 2 4. rewrite !fmap_cons, !list_to_map_cons.
    rewrite summary_key_set, Hr. simpl.
    rewrite <- !insert_union_r by by apply summary_view_absent.
    by rewrite insert_insert_eq.
Qed.

Lemma upsert_means_view time aggregated t :
  summary_view (upsert_means time aggregated t)
  = foldl put_mean (summary_view t) aggregated.
Proof.
  unfold upsert_means. revert t. induction aggregated as [|row rest IH]; intros t; [done|].
  simpl. rewrite IH. f_equal. unfold put_mean.
  destruct (naver_index row); [by rewrite upsert_summary_view|done].
Qed.

Lemma foldl_put_mean_notin m aggregated k :
  Forall (λ row, naver_index row = None ∨ (model_id row, month row) ≠ k) aggregated →
  foldl put_mean m aggregated !! k = m !! k.
Proof.
  revert m. induction aggregated as [|row rest IH]; intros m Hk; [done|].
  apply Forall_cons in Hk as [Hrow Hk]. simpl. rewrite IH by done.
  unfold put_mean. destruct (naver_index row); [|done].
  destruct Hrow as [|Hne]; [done|]. by rewrite lookup_insert_ne.
Qed.

Lemma foldl_put_mean_in m aggregated row x :
  NoDup ((λ row, (model_id row, month row)) <$> aggregated) →
  row ∈ aggregated → naver_index row = Some x →
  foldl put_mean m aggregated !! (model_id row, month row) = Some (Some x).
Proof.
  revert m. induction aggregated as [|row' rest IH]; intros m Hnd Hin Hx.
  { by apply elem_of_nil in Hin. }
  rewrite fmap_cons in Hnd. apply NoDup_cons in Hnd as [Hnotin Hnd]. simpl.
  apply elem_of_cons in Hin as [<-|Hin]; [|by apply IH].
  rewrite foldl_put_mean_notin.
  - unfold put_mean. by rewrite Hx, lookup_insert_eq.
  - apply Forall_forall. intros r Hr. right. intros Heq. apply Hnotin.
    apply list_elem_of_fmap. by exists r.
Qed.

Lemma upsert_loop_all time aggregated t :
  Forall (λ row, ∀ x, naver_index row = Some x →
            summary_ok (model_id row) (month row) x = true) aggregated →
  upsert_loop time aggregated t = (upsert_means time aggregated t, None).
Proof.
  unfold upsert_means. revert t.
  induction aggregated as [|row rest IH]; intros t Hok; [done|].
  apply Forall_cons in Hok as [Hrow Hok]. cbn [upsert_loop foldl].
  destruct (naver_index row) as [x|]; [|by apply IH].
  unfold execute_upsert_summary. rewrite (Hrow x) by done. by apply IH.
Qed.

Lemma execute_upsert_summary_Ok time id mo x t t' :
  execute_upsert_summary time id mo x t = Ok t' → t' = upsert_summary time id mo x t.
Proof. unfold execute_upsert_summary. destruct (summary_ok id mo x); congruence. Qed.

Lemma upsert_loop_means time aggregated t t' :
  upsert_loop time aggregated t = (t', None) → t' = upsert_means time aggregated t.
Proof.
  unfold upsert_means. revert t. induction aggregated as [|row rest IH]; intros t.
  { by intros [= <-]. }
  cbn [upsert_loop foldl]. destruct (naver_index row) as [x|]; [|by apply IH].
  destruct (execute_upsert_summary _ _ _ _ _) as [t1|e] eqn:Hex; [|done].
  apply execute_upsert_summary_Ok in Hex as ->. by apply IH.
Qed.

Lemma upsert_loop_unique time aggregated t :
  summary_unique t → summary_unique (upsert_loop time aggregated t).1.
Proof.
  revert t. induction aggregated as [|row rest IH]; intros t Hu; [done|].
  cbn [upsert_loop]. destruct (naver_index row) as [x|]; [|by apply IH].
  destruct (execute_upsert_summary _ _ _ _ _) as [t1|e] eqn:Hex; [|done].
  apply execute_upsert_summary_Ok in Hex as ->. by apply IH, upsert_summary_unique.
Qed.

Lemma upsert_loop_other_columns time aggregated t :
  length t ≤ length (upsert_loop time aggregated t).1
  ∧ other_columns <$> take (length t) (upsert_loop time aggregated t).1
    = other_columns <$> t.
Proof.
  revert t. induction aggregated as [|row rest IH]; intros t.
  { simpl. by rewrite firstn_all. }
  cbn [upsert_loop]. destruct (naver_index row) as [x|]; [|by apply IH].
  destruct (execute_upsert_summary _ _ _ _ _) as [t1|e] eqn:Hex;
    [|simpl; by rewrite firstn_all].
  apply execute_upsert_summary_Ok in Hex as ->.
  destruct (IH (upsert_summary time (model_id row) (month row) x t)) as [Hlen Hcol].
  pose proof (upsert_summary_length time (model_id row) (month row) x t) as Hle.
  split; [lia|].
  rewrite <- (upsert_summary_other_columns time (model_id row) (month row) x t).
  rewrite !fmap_take, <- Hcol, fmap_take, take_take. f_equal. lia.
Qed.


(** ** The stage *)

Lemma aggregated_of_nil w : detail w = [] → aggregated_of w = [].
Proof. unfold aggregated_of. by intros ->. Qed.

Lemma aggregated_of_keys w : NoDup (agg_key <$> aggregated_of w).
Proof.
  unfold aggregated_of. rewrite <- list_fmap_compose.
  apply (NoDup_fmap_1 (λ k : Z * string, (k.2, k.1))).
  rewrite <- list_fmap_compose. apply (select_avg_NoDup (detail w)).
Qed.

Lemma elem_of_aggregated_of w id mo a :
  AggRow id mo a ∈ aggregated_of w ↔ (id, mo, a) ∈ select_avg (detail w).
Proof.
  unfold aggregated_of. rewrite list_elem_of_fmap. split.
  - by intros ([[id' mo'] a'] & [= -> -> ->] & Hin).
  - intros Hin. by exists (id, mo, a).
Qed.

(** The rows read depend on the detail table alone. *)
Lemma aggregated_of_set_now n w : aggregated_of (set_now n w) = aggregated_of w.
Proof. reflexivity. Qed.

Lemma aggregated_of_set_summary t w : aggregated_of (set_summary t w) = aggregated_of w.
Proof. reflexivity. Qed.

(** A statement that brings the index the table has changes nothing. *)
Lemma upsert_summary_same time id mo x t :
  summary_view t !! (id, mo) = Some (Some x) → upsert_summary time id mo x t = t.
Proof.
  destruct (summary_key_cases id mo t) as [Ht|(t1 & r & t2 & -> & Ht1 & Hr)].
  { by rewrite summary_view_absent. }
  rewrite upsert_summary_present by done.
  rewrite summary_view_app, lookup_union_r by by apply summary_view_absent.
  unfold summary_view. rewrite fmap_cons, list_to_map_cons, Hr, lookup_insert_eq.
  intros [= Hx]. destruct r. simpl in *. by subst.
Qed.

Lemma upsert_loop_ok time aggregated t t' :
  upsert_loop time aggregated t = (t', None) →
  Forall (λ row, ∀ x, naver_index row = Some x →
            summary_ok (model_id row) (month row) x = true) aggregated.
Proof.
  revert t. induction aggregated as [|row rest IH]; intros t; [constructor|].
  cbn [upsert_loop]. destruct (naver_index row) as [x|] eqn:Hx.
  - unfold execute_upsert_summary. destruct (summary_ok _ _ x) eqn:Hok; [|done].
    intros Hrest%IH. constructor; [|done]. intros ? ?; by simplify_eq.
  - intros Hrest%IH. constructor; [|done]. intros ? ?; congruence.
Qed.

(** A loop over means that the table already has leaves it alone. *)
Lemma upsert_loop_same time aggregated t :
  Forall (λ row, ∀ x, naver_index row = Some x →
            summary_ok (model_id row) (month row) x = true
            ∧ summary_view t !! (model_id row, month row) = Some (Some x)) aggregated →
  upsert_loop time aggregated t = (t, None).
Proof.
  induction 1 as [|row rest Hrow _ IH]; [done|]. cbn [upsert_loop].
  destruct (naver_index row) as [x|]; [|done].
  destruct (Hrow x) as [Hok Hview]; [done|].
  unfold execute_upsert_summary. by rewrite Hok, upsert_summary_same.
Qed.

(** The loop run a second time changes nothing. *)
Lemma upsert_loop_again time time' aggregated t t' :
  NoDup (agg_key <$> aggregated) →
  upsert_loop time aggregated t = (t', None) →
  upsert_loop time' aggregated t' = (t', None).
Proof.
  intros Hnd Hloop. apply upsert_loop_same.
  pose proof (upsert_loop_ok _ _ _ _ Hloop) as Hok.
  apply upsert_loop_means in Hloop as ->.
  apply Forall_forall. intros row Hrow x Hx. rewrite Forall_forall in Hok.
  split; [by apply Hok|]. rewrite upsert_means_view.
  by apply foldl_put_mean_in.
Qed.

(** The three ways a run can go. *)
Lemma run_aggregate_cases w :
  (aggregated_of w = []
   ∧ run run_aggregate w
     = ([INFO_start; INFO_count 0; WARN_no_data; INFO_done], w, Ok ()))
  ∨ (∃ t', upsert_loop (now w) (aggregated_of w) (summary w) = (t', None)
       ∧ run run_aggregate w
         = ([INFO_start; INFO_count (length (aggregated_of w));
             INFO_upserted (length (aggregated_of w)); INFO_done],
            set_summary t' w, Ok ()))
  ∨ (∃ t' e, upsert_loop (now w) (aggregated_of w) (summary w) = (t', Some e)
       ∧ run run_aggregate w
         = ([INFO_start; INFO_count (length (aggregated_of w))], w, Raise e)).
Proof.
  rewrite run_aggregate_run. destruct (aggregated_of w) as [|row rest]; [by left|].
  right. destruct (upsert_loop _ _ _) as [t' [e|]]; [right|left]; eauto.
Qed.

Ltac aggregate_cases w Hrun :=
  let Hr := fresh "Hr" in
  destruct (run_aggregate_cases w)
    as [[?Hnil Hr]|[(?t' & ?Hloop & Hr)|(?t' & ?e & ?Hloop & Hr)]];
  rewrite Hr in Hrun; simplify_eq.

(** C18: on an empty detail table the stage warns and returns: it
    writes nothing and does not raise. *)
Theorem run_aggregate_empty w :
  detail w = [] →
  run run_aggregate w = ([INFO_start; INFO_count 0; WARN_no_data; INFO_done], w, Ok ()).
Proof.
  intros Hd. rewrite run_aggregate_run. by rewrite aggregated_of_nil.
Qed.

(** The table after the means are upserted holds the mean of every
    group that has one. *)
Lemma upsert_means_index time w t id mo x :
  (id, mo, Some x) ∈ select_avg (detail w) →
  summary_view (upsert_means time (aggregated_of w) t) !! (id, mo) = Some (Some x).
Proof.
  intros Hin%elem_of_aggregated_of. rewrite upsert_means_view.
  by apply (foldl_put_mean_in _ _ (AggRow id mo (Some x)) x); [apply aggregated_of_keys|..].
Qed.

(** A run that returns has upserted the means and touched nothing
    else. *)
Lemma run_aggregate_Ok w l w' :
  run run_aggregate w = (l, w', Ok ()) →
  w' = set_summary (upsert_means (now w) (aggregated_of w) (summary w)) w.
Proof.
  intros Hrun. aggregate_cases w Hrun.
  - rewrite Hnil. by destruct w'.
  - by apply upsert_loop_means in Hloop as ->.
Qed.

(** C5: when the stage returns, the summary table holds, for every
    group of the detail table whose mean is not [NULL], that mean as
    the [naver_search_index] of the group's key. *)
Theorem run_aggregate_means w l w' id mo x :
  run run_aggregate w = (l, w', Ok ()) →
  (id, mo, Some x) ∈ select_avg (detail w) →
  summary_view (summary w') !! (id, mo) = Some (Some x).
Proof.
  intros Hrun Hin%elem_of_aggregated_of. aggregate_cases w Hrun.
  { rewrite Hnil in Hin. by apply elem_of_nil in Hin. }
  apply upsert_loop_means in Hloop as ->. cbn [summary set_summary].
  rewrite upsert_means_view.
  by apply (foldl_put_mean_in _ _ (AggRow id mo (Some x)) x); [apply aggregated_of_keys|..].
Qed.

(** C25: a key whose group has no mean (no row, or only [NULL] ratios)
    is not written: its index in the summary table is what it was. *)
Theorem run_aggregate_keeps w l w' id mo :
  run run_aggregate w = (l, w', Ok ()) →
  (∀ r, r ∈ detail w → group_of r = (mo, id) → d_ratio r = None) →
  summary_view (summary w') !! (id, mo) = summary_view (summary w) !! (id, mo).
Proof.
  intros Hrun Hnull%group_avg_None. aggregate_cases w Hrun; [done|].
  apply upsert_loop_means in Hloop as ->. cbn [summary set_summary].
  rewrite upsert_means_view. apply foldl_put_mean_notin, Forall_forall.
  intros [id' mo' a] Hin%elem_of_aggregated_of%elem_of_select_avg. simpl.
  destruct Hin as [_ ->]. destruct (decide ((id', mo') = (id, mo))) as [[= -> ->]|]; auto.
Qed.

(** C6: the stage never alters the key, the columns of the other
    pipelines or [created_at] of a row that was in the summary table,
    and removes none. *)
Theorem run_aggregate_other_columns w l w' r :
  run run_aggregate w = (l, w', r) →
  length (summary w) ≤ length (summary w')
  ∧ other_columns <$> take (length (summary w)) (summary w')
    = other_columns <$> summary w.
Proof.
  intros Hrun. aggregate_cases w Hrun; try by rewrite firstn_all.
  pose proof (upsert_loop_other_columns (now w) (aggregated_of w) (summary w)) as Hcol.
  by rewrite Hloop in Hcol.
Qed.

(** C23: the stage keeps the key of the summary table unique. *)
Theorem run_aggregate_unique w l w' r :
  summary_unique (summary w) →
  run run_aggregate w = (l, w', r) → summary_unique (summary w').
Proof.
  intros Hu Hrun. aggregate_cases w Hrun; try done.
  pose proof (upsert_loop_unique (now w) (aggregated_of w) (summary w) Hu) as Hu'.
  by rewrite Hloop in Hu'.
Qed.

(** C24: the upserts are all or nothing: when the stage raises, the
    tables are as they were. *)
Theorem run_aggregate_atomic w l w' e :
  run run_aggregate w = (l, w', Raise e) → w' = w.
Proof. intros Hrun. by aggregate_cases w Hrun. Qed.

(** The stage reads the detail table and the files and leaves
    them alone. *)
Theorem run_aggregate_frame w l w' r :
  run run_aggregate w = (l, w', r) → detail w' = detail w ∧ files w' = files w.
Proof. intros Hrun. by aggregate_cases w Hrun. Qed.


Lemma run_fetch_only {E} w :
  run (fetch_aggregated_naver_index (E:=E)) w = ([], w, Ok (aggregated_of w)).
Proof.
  unfold fetch_aggregated_naver_index.
  by rewrite run_bind_gets, run_ret.
Qed.

Lemma agg_group_fmap w :
  (λ row, (month row, model_id row)) <$> aggregated_of w
  = row_group <$> select_avg (detail w).
Proof. unfold aggregated_of. by rewrite <- list_fmap_compose. Qed.

Lemma group_avg_ratios t id mo : group_avg t (mo, id) = avg (ratios_of id mo t).
Proof.
  unfold group_avg, ratios_of. do 3 f_equal. apply list_filter_iff.
  intros d. unfold group_of. split; [by intros [= -> ->]|by intros [-> ->]].
Qed.

(** The mean of a group that has ratios is a row of the query. *)
Lemma select_avg_ratios t id mo :
  ratios_of id mo t ≠ [] →
  ∃ x, (id, mo, Some x) ∈ select_avg t
       ∧ (x * count (ratios_of id mo t)
          = total (ratios_of id mo t))%Qc.
Proof.
  intros Hne. destruct (avg (ratios_of id mo t)) as [x|] eqn:Hx;
    [|by apply avg_None in Hx].
  exists x. split; [|by apply avg_Some in Hx as [_ ?]].
  apply elem_of_select_avg. rewrite group_avg_ratios, elem_of_groups.
  split; [|done]. unfold ratios_of in Hne.
  destruct (filter _ t) as [|d ds] eqn:Hf; [done|].
  assert (d ∈ filter (λ d, d_model_id d = id ∧ d_month d = mo) t) as Hd.
  { rewrite Hf. left. }
  apply list_elem_of_filter in Hd as [[<- <-] Hd]. by exists d.
Qed.

Lemma aggregated_of_sorted w : StronglySorted agg_le (aggregated_of w).
Proof.
  pose proof (select_avg_sorted (detail w)) as Hs. rewrite <- agg_group_fmap in Hs.
  by apply StronglySorted_fmap_inv in Hs.
Qed.

(** C19: the query function prints nothing, changes nothing and
    returns rows: one for each [(model_id, month)] that has a row in
    the detail table and no other, in the order of month, then model;
    the index of a row is [None] when every ratio of its group is
    [NULL], and otherwise the number that, multiplied by the count of
    the ratios of the group that are not [NULL], gives their sum. *)
Theorem fetch_aggregated_naver_index_rows w l w' r :
  run (fetch_aggregated_naver_index (E:=event)) w = (l, w', r) →
  l = [] ∧ w' = w
  ∧ ∃ rows, r = Ok rows
    ∧ NoDup ((λ row, (model_id row, month row)) <$> rows)
    ∧ StronglySorted agg_le rows
    ∧ (∀ d, d ∈ detail w →
         ∃ row, row ∈ rows ∧ model_id row = d_model_id d ∧ month row = d_month d)
    ∧ ∀ row, row ∈ rows →
        (∃ d, d ∈ detail w ∧ d_model_id d = model_id row ∧ d_month d = month row)
        ∧ match naver_index row with
          | None => ratios_of (model_id row) (month row) (detail w) = []
          | Some x =>
              ratios_of (model_id row) (month row) (detail w) ≠ []
              ∧ (x * count (ratios_of (model_id row) (month row) (detail w))
                 = total (ratios_of (model_id row) (month row) (detail w)))%Qc
          end.
Proof.
  rewrite run_fetch_only. intros [= <- <- <-]. do 2 (split; [done|]).
  exists (aggregated_of w). split; [done|]. split; [apply aggregated_of_keys|].
  split; [apply aggregated_of_sorted|]. split.
  - intros d Hd. exists (AggRow (d_model_id d) (d_month d)
                            (group_avg (detail w) (d_month d, d_model_id d))).
    split; [|done]. rewrite elem_of_aggregated_of, elem_of_select_avg, elem_of_groups. eauto.
  - intros [id mo a]. rewrite elem_of_aggregated_of, elem_of_select_avg, elem_of_groups.
    intros [(d & Hd & [= <- <-]) ->]. split; [by eauto|]. cbn [model_id month naver_index].
    rewrite group_avg_ratios. destruct (avg _) as [x|] eqn:Hx.
    + by apply avg_Some.
    + by apply avg_None.
Qed.

(** C14: running the stage a second time, at whatever time, changes
    nothing and prints the same: the means are those of the same detail
    rows, and the rows of the summary table already hold them. *)
Theorem run_aggregate_idempotent w l w' n :
  run run_aggregate w = (l, w', Ok ()) →
  run run_aggregate (set_now n w') = (l, set_now n w', Ok ()).
Proof.
  intros Hrun. aggregate_cases w Hrun; rewrite run_aggregate_run, aggregated_of_set_now,
    ?aggregated_of_set_summary.
  { by rewrite Hnil. }
  cbn [now summary set_summary set_now].
  rewrite (upsert_loop_again _ n _ _ _ (aggregated_of_keys w) Hloop).
  destruct (aggregated_of w) eqn:Hagg; [by rewrite run_aggregate_run, Hagg in Hr|].
  done.
Qed.

(** C30: the index written for a model and a month lies between the
    least and the greatest of the ratios of its rows: a mean never
    leaves the range of what it averages. *)
Theorem run_aggregate_bounds w l w' id mo lo hi :
  run run_aggregate w = (l, w', Ok ()) →
  ratios_of id mo (detail w) ≠ [] →
  Forall (λ y, lo ≤ y ∧ y ≤ hi)%Qc (ratios_of id mo (detail w)) →
  ∃ x, summary_view (summary w') !! (id, mo) = Some (Some x) ∧ (lo ≤ x ∧ x ≤ hi)%Qc.
Proof.
  intros ->%run_aggregate_Ok Hne Hall.
  destruct (avg (ratios_of id mo (detail w))) as [x|] eqn:Hx; [|by apply avg_None in Hx].
  exists x. split; [|by eapply avg_bounds]. apply upsert_means_index.
  destruct (select_avg_ratios _ _ _ Hne) as (x' & Hin & Hmean).
  assert (avg (ratios_of id mo (detail w)) = Some x') as Hx' by by apply avg_Some.
  congruence.
Qed.

End aggregator_proofs.

Import DecFloat.

(** ** Examples, with the decimal model of [float] *)

Local Existing Instance accept_all.

(** The detail rows of the design's example: model 1 in January 2025
    with the ratios 40.0 and 60.0. *)
Definition ex_detail : list detail_row :=
  [DetailRow 1 "2025-01-01" (Some "pc") (Some "m") None (Some (DFin false "4" 2)) 1;
   DetailRow 1 "2025-01-01" (Some "mo") (Some "f") None (Some (DFin false "6" 2)) 1].

(** A summary row that another pipeline has filled. *)
Definition ex_summary : list summary_row :=
  [SummaryRow 1 "2025-01-01" None (Some (Q2Qc 7)) (Some 3%Z) (Some 10%Z) 1].

Definition ex_world : world := World ∅ ex_detail ex_summary 9.

Definition ex_empty_world : world := World ∅ [] ex_summary 9.

Lemma ex_mean :
  (1%Z, "2025-01-01", Some (Q2Qc 50)) ∈ select_avg (detail ex_world).
Proof.
  apply elem_of_select_avg. split.
  - apply elem_of_groups. eexists. split; [left|reflexivity].
  - change (Some (Q2Qc 50)
            = avg [dec_value (DFin false "4" 2); dec_value (DFin false "6" 2)]).
    rewrite avg_two. f_equal. apply Qc_is_canon. reflexivity.
Defined.

Lemma run_aggregate_empty_witness :
  run run_aggregate ex_empty_world
  = ([INFO_start; INFO_count 0; WARN_no_data; INFO_done], ex_empty_world, Ok ()).
Proof. apply (run_aggregate_empty ex_empty_world). reflexivity. Defined.

Lemma run_aggregate_means_witness :
  summary_view (summary (final (run run_aggregate ex_world))) !! (1%Z, "2025-01-01")
  = Some (Some (Q2Qc 50)).
Proof.
  apply (run_aggregate_means ex_world (printed (run run_aggregate ex_world))
           (final (run run_aggregate ex_world)) 1 "2025-01-01" (Q2Qc 50));
    [reflexivity | apply ex_mean].
Defined.

Lemma run_aggregate_keeps_witness :
  summary_view (summary (final (run run_aggregate ex_world))) !! (2%Z, "2025-01-01")
  = summary_view (summary ex_world) !! (2%Z, "2025-01-01").
Proof.
  apply (run_aggregate_keeps ex_world (printed (run run_aggregate ex_world))
           (final (run run_aggregate ex_world)) 2 "2025-01-01"); [reflexivity|].
  intros r Hr Hg.
  repeat (apply elem_of_cons in Hr as [->|Hr]; [discriminate Hg|]).
  by apply elem_of_nil in Hr.
Defined.

Lemma run_aggregate_other_columns_witness :
  length (summary ex_world) ≤ length (summary (final (run run_aggregate ex_world)))
  ∧ other_columns <$> take (length (summary ex_world))
                        (summary (final (run run_aggregate ex_world)))
    = other_columns <$> summary ex_world.
Proof.
  apply (run_aggregate_other_columns ex_world (printed (run run_aggregate ex_world))
           (final (run run_aggregate ex_world)) (Ok ())).
  reflexivity.
Defined.

Lemma run_aggregate_unique_witness :
  summary_unique (summary (final (run run_aggregate ex_world))).
Proof.
  apply (run_aggregate_unique ex_world (printed (run run_aggregate ex_world))
           (final (run run_aggregate ex_world)) (Ok ())); [|reflexivity].
  apply NoDup_singleton.
Defined.

Lemma run_aggregate_idempotent_witness :
  run run_aggregate (set_now 10 (final (run run_aggregate ex_world)))
  = (printed (run run_aggregate ex_world),
     set_now 10 (final (run run_aggregate ex_world)), Ok ()).
Proof. apply (run_aggregate_idempotent ex_world). reflexivity. Defined.

Lemma fetch_aggregated_naver_index_rows_witness :
  ([] : list event) = [] ∧ ex_world = ex_world
  ∧ ∃ rows, Ok (aggregated_of ex_world) = Ok rows
    ∧ NoDup ((λ row, (model_id row, month row)) <$> rows)
    ∧ StronglySorted agg_le rows
    ∧ (∀ d, d ∈ detail ex_world →
         ∃ row, row ∈ rows ∧ model_id row = d_model_id d ∧ month row = d_month d)
    ∧ ∀ row, row ∈ rows →
        (∃ d, d ∈ detail ex_world ∧ d_model_id d = model_id row ∧ d_month d = month row)
        ∧ match naver_index row with
          | None => ratios_of (model_id row) (month row) (detail ex_world) = []
          | Some x =>
              ratios_of (model_id row) (month row) (detail ex_world) ≠ []
              ∧ (x * count (ratios_of (model_id row) (month row) (detail ex_world))
                 = total (ratios_of (model_id row) (month row) (detail ex_world)))%Qc
          end.
Proof.
  apply (fetch_aggregated_naver_index_rows ex_world [] ex_world (Ok (aggregated_of ex_world))).
  reflexivity.
Defined.

Lemma ex_ratios :
  ratios_of 1 "2025-01-01" (detail ex_world)
  = [dec_value (DFin false "4" 2); dec_value (DFin false "6" 2)].
Proof. reflexivity. Qed.

Lemma run_aggregate_bounds_witness :
  ∃ x, summary_view (summary (final (run run_aggregate ex_world))) !! (1%Z, "2025-01-01")
       = Some (Some x)
       ∧ (Q2Qc 40 ≤ x ∧ x ≤ Q2Qc 60)%Qc.
Proof.
  apply (run_aggregate_bounds ex_world (printed (run run_aggregate ex_world))
           (final (run run_aggregate ex_world)) 1 "2025-01-01" (Q2Qc 40) (Q2Qc 60));
    [reflexivity|by rewrite ex_ratios|].
  rewrite ex_ratios. repeat constructor; by apply Z.leb_le.
Defined.

(** A schema that refuses every index. *)
Definition refuse_index : Schema :=
  {| detail_ok := λ _, true; summary_ok := λ _ _ _, false |}.

Lemma run_aggregate_atomic_witness : ex_world = ex_world.
Proof.
  apply (run_aggregate_atomic (H0 := refuse_index) ex_world
           [INFO_start; INFO_count 1] ex_world DbError).
  reflexivity.
Defined.

Lemma run_aggregate_frame_witness :
  detail (final (run run_aggregate ex_world)) = detail ex_world
  ∧ files (final (run run_aggregate ex_world)) = files ex_world.
Proof.
  apply (run_aggregate_frame ex_world (printed (run run_aggregate ex_world))
           (final (run run_aggregate ex_world)) (Ok ())).
  reflexivity.
Defined.

(** The design's example: the ratios 40.0 and 60.0 of model 1 in
    January 2025 give the index 50 for that key; the row that another
    pipeline had filled keeps its other columns. *)
Example run_aggregate_example :
  ∃ x, run run_aggregate ex_world
       = ([INFO_start; INFO_count 1; INFO_upserted 1; INFO_done],
          set_summary
            [SummaryRow 1 "2025-01-01" (Some x) (Some (Q2Qc 7)) (Some 3%Z) (Some 10%Z) 1]
            ex_world, Ok ())
       ∧ x = Q2Qc 50.
Proof. eexists. split; [reflexivity|]. apply Qc_is_canon. reflexivity. Qed.

End Aggregator.
