(* ===== verification/Fetcher.v ===== *)
(** * The Trend Fetcher  ([run_naver_trend_crawl.py])

    [run_naver_trend_crawl] asks the catalog for the models of the
    brands, calls the trend service once for every model, device and
    gender, and writes one CSV record per data point it is given.

    - [fetch_target_models] is the catalog query (lines 28-55):
      [placeholders] are the names [:b0, :b1, ...] of the [IN] list
      (line 28) and [params] the dict that binds [b0, b1, ...] to the
      brands (line 29); [bound_values_params] shows that the statement
      is run on the brands, in order;
    - [fetch_combination] is the body of the innermost loop (lines
      141-186): the call under [try], the two [continue]s, the loop
      over the data points and the delay;
    - [fetch_model] is the body of the loop over the models (lines
      130-186), [run_naver_trend_crawl] the function (lines 58-189);
    - the trend client is outside the repository: it is the class
      [TrendClient], a service with a state of its own that answers a
      request with data points or raises.  The theorems hold for every
      instance; the examples run with a canned one;
    - [outcome] is the specification: what a part of the run prints,
      writes, leaves of the service and counts; [crawl] composes the
      outcomes of the calls as the loops do, and [run_crawl] shows that
      the program implements it.

    The file is written as the loop goes: it is opened (and emptied)
    before the first call, and every record is added to its end.
    [time.sleep] is an event of the run, with the lines printed:
    [slept] lists the delays of a run, and
    [run_naver_trend_crawl_delays] shows that the run sleeps once per
    answer that holds a data point, and not after an empty answer or a
    failed call. *)

From Stdlib Require Import ZArith QArith Qcanon.
From stdpp Require Import base tactics option list strings gmap.
From S2P Require Import Prelude PyStr PyInt PyFloat DecFloat Csv Fs Prog Db World.

Local Close Scope Q_scope.
Local Close Scope Qc_scope.

Module Fetcher.
Import PyStr PyInt Csv Db World.

(** The arguments of [client.fetch_trend] (lines 142-150). *)
Record request : Type := Request {
  keyword : string;
  start_date : string;
  end_date : string;
  time_unit : string;
  device : option string;
  gender : option string;
  ages : option (list string);
}.

(** What the stage prints, and the delays it takes. *)
Inductive event : Type :=
| INFO_start (run_id start_date end_date time_unit : string)
| INFO_brands (brands : list string)
| WARN_no_models
| INFO_models (n : nat)
| INFO_model (idx n : nat) (brand_name model_name : string) (model_id : Z)
| WARN_api_failed (brand_name model_name : string)
    (device gender : option string) (e : exn)
| WARN_no_data (brand_name model_name : string) (device gender : option string)
| SLEEP (sec : Qc)
| INFO_done (out_path : Fs.path)
| INFO_calls (total_calls : nat).

(** The codes sent to the service and the labels written to the file
    (lines 98-105). *)
Definition device_options : list (option string * string) :=
  [(Some "pc", "pc"); (Some "mo", "mobile")].

Definition gender_options : list (option string * string) :=
  [(Some "m", "male"); (Some "f", "female")].

Definition fieldnames : list string :=
  ["model_id"; "brand_name"; "model_name"; "date"; "device"; "gender";
   "age_group"; "ratio"].

(** The brands of a run that names none (line 77). *)
Definition default_brands : list string := ["현대"; "기아"].

(** The placeholders of the query, [:b0], [:b1], ... (line 28, before
    they are joined with commas), and the parameters bound to them
    (line 29). *)
Definition placeholders (brands : list string) : list string :=
  (λ i, ":b" +:+ str_of_int (Z.of_nat i)) <$> seq 0 (length brands).

Definition params (brands : list string) : gmap string string :=
  list_to_map ((λ ib, ("b" +:+ str_of_int (Z.of_nat ib.1), ib.2)) <$> enumerate 0 brands).

Section fetcher.
Context `{FloatOps}.

(** A number of the service's answer: JSON gives an [int] or a [float]. *)
Inductive number : Type :=
| Int (n : Z)
| Float (x : float).

(** A data point: a dict that may lack [period] or [ratio]. *)
Record data_point : Type := DataPoint {
  period : option string;
  ratio : option number;
}.

(** The trend client and the service behind it. *)
Class TrendClient : Type := {
  service : Type;
  fetch_trend : request → service → result (list data_point) * service;
}.

Context `{!TrendClient}.
Variable BASE_DIR : Fs.path.

Definition NAVER_RAW_BASE : Fs.path :=
  Fs.div (Fs.div (Fs.div BASE_DIR "data") "raw") "naver".

(** What the fetcher works on: the files and tables, the catalog and
    the service. *)
Record env : Type := Env {
  world_of : world;
  catalog : list car_model;
  api : service;
}.

Definition set_world (w : world) (e : env) : env := Env w (catalog e) (api e).
Definition set_api (s : service) (e : env) : env := Env (world_of e) (catalog e) s.

Definition on_world {A} (m : prog world event A) : prog env event A :=
  zoom world_of set_world m.

(** [fetch_target_models(brands)]: the rows of the query, copied field
    by field. *)
Definition fetch_target_models (brands : list string)
  : prog env event (list car_model) :=
  t ← gets catalog;
  rows ← lift (execute_select_models (placeholders brands) (params brands) t);
  mret (fmap (M:=list)
          (λ row, CarModel (c_model_id row) (c_brand_name row) (c_model_name_kr row))
          rows).

(** [client.fetch_trend(...)] *)
Definition call (rq : request) : prog env event (list data_point) :=
  Prog (λ e, let '(r, s) := fetch_trend rq (api e) in ([], set_api s e, r)).

(** [str] of a number, as the CSV writer prints it. *)
Definition str_of_number (x : number) : string :=
  match x with
  | Int n => str_of_int n
  | Float x => float_repr x
  end.

(** [writer.writerow(...)] on the open file. *)
Definition writerow (out_path : Fs.path) (fields : list string)
  : prog env event unit :=
  on_world (append_file out_path (write_record fields)).

(** The fields of the record of a data point (lines 172-183). *)
Definition point_fields (m : car_model) (device_label gender_label : string)
    (period : string) (ratio : number) : list string :=
  [str_of_int (c_model_id m); c_brand_name m; c_model_name_kr m; period;
   device_label; gender_label; ""; str_of_number ratio].

(** The body of the loop over the data points (lines 166-183). *)
Definition write_point (out_path : Fs.path) (m : car_model)
    (device_label gender_label : string) (dp : data_point)
  : prog env event unit :=
  match period dp, ratio dp with
  | Some period, Some ratio =>
      writerow out_path (point_fields m device_label gender_label period ratio)
  | _, _ => mret ()
  end.

Section run.
Variables (run_id start_date end_date time_unit : string).
Variable sleep_sec : Qc.

Definition out_path : Fs.path :=
  Fs.div (Fs.div NAVER_RAW_BASE run_id) ("naver_trend_" +:+ run_id +:+ ".csv").

Definition request_of (m : car_model) (device_code gender_code : option string)
  : request :=
  Request (c_model_name_kr m) start_date end_date time_unit device_code gender_code
    None.

(** One combination of model, device and gender (lines 141-186); the
    value is [total_calls]. *)
Definition fetch_combination (m : car_model) (dev gen : option string * string)
    (total_calls : nat) : prog env event nat :=
  r ← catch (data_points ← call (request_of m dev.1 gen.1);
             mret (Some (data_points, S total_calls)))
        (λ _, true)
        (λ e, print (WARN_api_failed (c_brand_name m) (c_model_name_kr m)
                       dev.1 gen.1 e);;
              mret None);
  match r with
  | None => mret total_calls
  | Some ([], total_calls) =>
      print (WARN_no_data (c_brand_name m) (c_model_name_kr m) dev.1 gen.1);;
      mret total_calls
  | Some (data_points, total_calls) =>
      for_each (write_point out_path m dev.2 gen.2) data_points;;
      (if bool_decide (0 < sleep_sec)%Qc then print (SLEEP sleep_sec) else mret ());;
      mret total_calls
  end.

(** One model (lines 130-186): [n] is [len(models)]. *)
Definition fetch_model (n : nat) (total_calls : nat) (im : nat * car_model)
  : prog env event nat :=
  print (INFO_model im.1 n (c_brand_name im.2) (c_model_name_kr im.2)
           (c_model_id im.2));;
  fold_m (λ total dev,
            fold_m (λ total gen, fetch_combination im.2 dev gen total)
              gender_options total)
    device_options total_calls.

(** [run_naver_trend_crawl(run_id, start_date, end_date, time_unit,
    brands, sleep_sec, limit_models)] *)
Definition run_naver_trend_crawl (brands : option (list string))
    (limit_models : option Z) : prog env event unit :=
  let brands := default default_brands brands in
  print (INFO_start run_id start_date end_date time_unit);;
  print (INFO_brands brands);;
  models ← fetch_target_models brands;
  let models :=
    match limit_models with
    | Some n => list_slice_to n models
    | None => models
    end in
  match models with
  | [] => print WARN_no_models
  | _ =>
      print (INFO_models (length models));;
      on_world (write_file out_path "");;
      writerow out_path fieldnames;;
      total_calls ← fold_m (fetch_model (length models)) (enumerate 1 models) 0;
      print (INFO_done out_path);;
      print (INFO_calls total_calls)
  end.

(** ** Specification *)

(** What a part of the run does: the events in order, the records
    added to the file, the service it leaves, and the number of calls
    that returned. *)
Record outcome : Type := Outcome {
  events : list event;
  records : list (list string);
  service_after : service;
  calls : nat;
}.

(** Nothing happens. *)
Definition idle (s : service) : outcome := Outcome [] [] s 0.

(** One part after another: the second starts with the service the
    first leaves. *)
Definition and_then (o1 : outcome) (f : service → outcome) : outcome :=
  let o2 := f (service_after o1) in
  Outcome (events o1 ++ events o2) (records o1 ++ records o2)
    (service_after o2) (calls o1 + calls o2).

Fixpoint sequence {A} (f : A → service → outcome) (l : list A) (s : service)
  : outcome :=
  match l with
  | [] => idle s
  | x :: l' => and_then (f x s) (sequence f l')
  end.

(** The record of a data point, if it has a period and a ratio. *)
Definition point_record (m : car_model) (device_label gender_label : string)
    (dp : data_point) : option (list string) :=
  match period dp, ratio dp with
  | Some period, Some ratio =>
      Some (point_fields m device_label gender_label period ratio)
  | _, _ => None
  end.

Definition delay : list event :=
  if bool_decide (0 < sleep_sec)%Qc then [SLEEP sleep_sec] else [].

(** One combination: a failed call and an empty answer give a warning;
    an answer with points gives their records and the delay. *)
Definition combination (m : car_model) (dev gen : option string * string)
    (s : service) : outcome :=
  match fetch_trend (request_of m dev.1 gen.1) s with
  | (Raise e, s') =>
      Outcome [WARN_api_failed (c_brand_name m) (c_model_name_kr m) dev.1 gen.1 e]
        [] s' 0
  | (Ok [], s') =>
      Outcome [WARN_no_data (c_brand_name m) (c_model_name_kr m) dev.1 gen.1] [] s' 1
  | (Ok data_points, s') =>
      Outcome delay (omap (point_record m dev.2 gen.2) data_points) s' 1
  end.

Definition model_outcome (n : nat) (im : nat * car_model) (s : service) : outcome :=
  and_then
    (Outcome [INFO_model im.1 n (c_brand_name im.2) (c_model_name_kr im.2)
                (c_model_id im.2)] [] s 0)
    (sequence (λ dev, sequence (combination im.2 dev) gender_options) device_options).

(** The loop over the models. *)
Definition crawl (models : list car_model) (s : service) : outcome :=
  sequence (model_outcome (length models)) (enumerate 1 models) s.

(** The state after a part of the run, when the file held [text]
    before it. *)
Definition written (text : string) (o : outcome) (e : env) : env :=
  Env (set_files (Fs.write_text out_path (text +:+ write_records (records o))
                    (files (world_of e))) (world_of e))
    (catalog e) (service_after o).

(** A part of the run that implements an outcome: it adds to the open
    file, never raises, and counts its calls. *)
Definition implements (m : nat → prog env event nat) (f : service → outcome) : Prop :=
  ∀ total e text, files (world_of e) !! out_path = Some text →
    run (m total) e
    = (events (f (api e)), written text (f (api e)) e, Ok (total + calls (f (api e)))).

(** The state after the run: the file holds the header and [rows]. *)
Definition done_env (rows : list (list string)) (s : service) (e : env) : env :=
  Env (set_files (Fs.write_text out_path (write_dict_rows fieldnames rows)
                    (files (world_of e))) (world_of e))
    (catalog e) s.

(** The models of a run: those of the brands, cut to [limit_models]. *)
Definition target_models (brands : option (list string)) (limit_models : option Z)
    (t : list car_model) : list car_model :=
  let models := select_models (default default_brands brands) t in
  match limit_models with
  | Some n => list_slice_to n models
  | None => models
  end.

(** The combinations of a run, in the order of the loops. *)
Definition combos (models : list car_model)
  : list (car_model * (option string * string) * (option string * string)) :=
  m ← models; dev ← device_options; gen ← gender_options; [(m, dev, gen)].

Definition combo_request
    (c : car_model * (option string * string) * (option string * string))
  : request :=
  request_of c.1.1 c.1.2.1 c.2.1.

(** The requests of a run, in the order they are sent. *)
Definition requests (models : list car_model) : list request :=
  combo_request <$> combos models.

(** The records the answer to a combination gives. *)
Definition answer_records
    (c : car_model * (option string * string) * (option string * string))
    (r : result (list data_point)) : list (list string) :=
  match r with
  | Ok data_points => omap (point_record c.1.1 c.1.2.2 c.2.2) data_points
  | Raise _ => []
  end.

(** A call that returned. *)
Definition answered (r : result (list data_point)) : bool :=
  match r with Ok _ => true | Raise _ => false end.

(** An answer that has data points. *)
Definition has_points (r : result (list data_point)) : bool :=
  match r with Ok (_ :: _) => true | _ => false end.

(** The delays among the events of a run, in order. *)
Definition slept (l : list event) : list Qc :=
  omap (λ e, match e with SLEEP sec => Some sec | _ => None end) l.

(** The delays a list of answers gives rise to: [sleep_sec] for every
    answer that has data points, when [sleep_sec] is positive. *)
Definition delays (rs : list (result (list data_point))) : list Qc :=
  if bool_decide (0 < sleep_sec)%Qc then (λ _, sleep_sec) <$> filter has_points rs
  else [].

(** The outcome of a combination given as a triple. *)
Definition combination_of
    (c : car_model * (option string * string) * (option string * string))
  : service → outcome :=
  combination c.1.1 c.1.2 c.2.

(** Two outcomes have the same effect when they differ only in what
    they print. *)
#[export] Instance same_effect : Equiv outcome := λ o1 o2,
  records o1 = records o2 ∧ service_after o1 = service_after o2 ∧ calls o1 = calls o2.

(** The answers of the service to a list of requests. *)
Fixpoint answers (rqs : list request) (s : service)
  : list (result (list data_point)) * service :=
  match rqs with
  | [] => ([], s)
  | rq :: rqs' =>
      let '(r, s1) := fetch_trend rq s in
      let '(rs, s2) := answers rqs' s1 in
      (r :: rs, s2)
  end.

(** The rows of the file of a run, from the answers of the service. *)
Definition fetched (models : list car_model) (s : service) : list (list string) :=
  concat (zip_with answer_records (combos models) (answers (requests models) s).1).

End run.
End fetcher.

(** ** The program implements the specification *)

Section fetcher_proofs.
Context `{FloatOps} `{!TrendClient}.
Variable BASE_DIR : Fs.path.
Variables (run_id start_date end_date time_unit : string).
Variable sleep_sec : Qc.

Local Abbreviation out := (out_path BASE_DIR run_id).
Local Abbreviation written := (written BASE_DIR run_id).
Local Abbreviation done_env := (done_env BASE_DIR run_id).
Local Abbreviation implements := (implements BASE_DIR run_id).
Local Abbreviation combination := (combination start_date end_date time_unit sleep_sec).
Local Abbreviation model_outcome :=
  (model_outcome start_date end_date time_unit sleep_sec).
Local Abbreviation crawl := (crawl start_date end_date time_unit sleep_sec).
Local Abbreviation fetch_combination :=
  (fetch_combination BASE_DIR run_id start_date end_date time_unit sleep_sec).
Local Abbreviation fetch_model :=
  (fetch_model BASE_DIR run_id start_date end_date time_unit sleep_sec).
Local Abbreviation run_naver_trend_crawl :=
  (run_naver_trend_crawl BASE_DIR run_id start_date end_date time_unit sleep_sec).

Lemma run_on_world {A} (m : prog world event A) e :
  run (on_world m) e
  = ((run m (world_of e)).1.1, set_world (run m (world_of e)).1.2 e,
     (run m (world_of e)).2).
Proof. unfold on_world, zoom. simpl. by destruct (run m (world_of e)) as [[??]?]. Qed.

(** *** Outcomes *)

#[export] Instance same_effect_equivalence : Equivalence (≡@{outcome}).
Proof.
  split.
  - by intros o.
  - intros o1 o2 (? & ? & ?). by repeat split.
  - intros o1 o2 o3 (? & ? & ?) (? & ? & ?). repeat split; congruence.
Qed.

#[export] Instance and_then_proper :
  Proper ((≡) ==> pointwise_relation _ (≡) ==> (≡)) and_then.
Proof.
  intros o1 o2 (Hr & Hs & Hc) f g Hfg. unfold and_then. rewrite Hs.
  destruct (Hfg (service_after o2)) as (Hr' & Hs' & Hc').
  repeat split; simpl; congruence.
Qed.

Lemma and_then_assoc o f g :
  and_then (and_then o f) g = and_then o (λ s, and_then (f s) g).
Proof. unfold and_then. simpl. by rewrite !app_assoc, Nat.add_assoc. Qed.

Lemma and_then_idle_l s f : and_then (idle s) f = f s.
Proof. unfold and_then, idle. simpl. by destruct (f s). Qed.

Lemma and_then_ext o f g :
  f (service_after o) = g (service_after o) → and_then o f = and_then o g.
Proof. unfold and_then. by intros ->. Qed.

(** A part that only prints has no effect. *)
Lemma and_then_print l s f : and_then (Outcome l [] s 0) f ≡ f s.
Proof. by unfold and_then. Qed.

Lemma sequence_app {A} (f : A → service → outcome) l1 l2 s :
  sequence f (l1 ++ l2) s = and_then (sequence f l1 s) (sequence f l2).
Proof.
  revert s. induction l1 as [|x l1 IH]; intros s; simpl.
  - by rewrite and_then_idle_l.
  - rewrite and_then_assoc. apply and_then_ext, IH.
Qed.

Lemma sequence_fmap {A B} (h : A → B) (f : B → service → outcome) l s :
  sequence f (h <$> l) s = sequence (λ x, f (h x)) l s.
Proof.
  revert s. induction l as [|x l IH]; intros s; [done|]. simpl. apply and_then_ext, IH.
Qed.

(** A loop inside a loop is a loop over the pairs. *)
Lemma sequence_nested {A B} (f : A → B → service → outcome) (inner : list B) l s :
  sequence (λ x, sequence (f x) inner) l s
  = sequence (λ p, f p.1 p.2) (x ← l; y ← inner; [(x, y)]) s.
Proof.
  revert s. induction l as [|x l IH]; intros s; [done|].
  cbn [sequence mbind list_bind]. rewrite sequence_app.
  rewrite (and_then_ext _ _ _ (IH _)). f_equal.
  clear. revert s. induction inner as [|y inner IH]; intros s; [done|].
  simpl. apply and_then_ext, IH.
Qed.

Lemma answers_cons rq rqs s :
  answers (rq :: rqs) s
  = ((fetch_trend rq s).1 :: (answers rqs (fetch_trend rq s).2).1,
     (answers rqs (fetch_trend rq s).2).2).
Proof.
  change (answers (rq :: rqs) s)
    with (let '(r, s1) := fetch_trend rq s in
          let '(rs, s2) := answers rqs s1 in (r :: rs, s2)).
  destruct (fetch_trend rq s) as [r s1]. simpl. by destruct (answers rqs s1).
Qed.

Lemma length_answers rqs s : length (answers rqs s).1 = length rqs.
Proof.
  revert s. induction rqs as [|rq rqs IH]; intros s; [done|].
  rewrite answers_cons. simpl. by rewrite IH.
Qed.

(** *** The state after a part of the run *)

Lemma open_file text e :
  files (world_of e) !! out = Some text → written text (idle (api e)) e = e.
Proof.
  intros Ht. unfold written, idle, Fs.write_text. simpl. rewrite str_app_nil_r.
  rewrite insert_id by done. rewrite set_files_files. by destruct e.
Qed.

Lemma written_nothing text l s n e :
  files (world_of e) !! out = Some text →
  written text (Outcome l [] s n) e = set_api s e.
Proof. intros Ht. exact (open_file text (set_api s e) Ht). Qed.

Lemma written_file text o e :
  files (world_of (written text o e)) !! out
  = Some (text +:+ write_records (records o)).
Proof. unfold written, Fs.write_text. simpl. by rewrite lookup_insert_eq. Qed.

Lemma written_and_then text o1 f e :
  written (text +:+ write_records (records o1)) (f (service_after o1))
    (written text o1 e)
  = written text (and_then o1 f) e.
Proof.
  unfold written, and_then, Fs.write_text. simpl.
  by rewrite insert_insert_eq, write_records_app, str_app_assoc.
Qed.

Lemma done_env_file rows s e :
  files (world_of (done_env rows s e)) !! out = Some (write_dict_rows fieldnames rows).
Proof. unfold done_env, Fs.write_text. simpl. by rewrite lookup_insert_eq. Qed.

Lemma written_done_env o e :
  written (write_dict_rows fieldnames []) o (done_env [] (api e) e)
  = done_env (records o) (service_after o) e.
Proof.
  unfold written, done_env, Fs.write_text, write_dict_rows. simpl.
  rewrite insert_insert_eq. by rewrite str_app_nil_r, str_app_assoc.
Qed.

Lemma opened_header s e :
  written "" (Outcome [] [fieldnames] s 0)
    (set_world (set_files (Fs.write_text out "" (files (world_of e))) (world_of e)) e)
  = done_env [] s e.
Proof.
  unfold written, done_env, set_world, Fs.write_text, write_dict_rows.
  cbn [world_of catalog api records service_after].
  by rewrite files_set_files, set_files_set_files, insert_insert_eq, str_app_nil_l.
Qed.

(** *** Parts that implement an outcome *)

Lemma implements_nil : implements (λ total, mret total) idle.
Proof.
  intros total e text Ht. rewrite run_ret, open_file by done. simpl.
  by rewrite Nat.add_0_r.
Qed.

Lemma implements_bind (m1 m2 : nat → prog env event nat) f1 f2 :
  implements m1 f1 → implements m2 f2 →
  implements (λ total, m1 total ≫= m2) (λ s, and_then (f1 s) f2).
Proof.
  intros H1 H2 total e text Ht.
  erewrite run_bind_Ok by by apply H1.
  rewrite (H2 _ _ (text +:+ write_records (records (f1 (api e)))))
    by apply written_file.
  unfold printed, final, returned. simpl.
  by rewrite written_and_then, Nat.add_assoc.
Qed.

(** A loop whose body implements [f] implements the sequence of [f]. *)
Lemma implements_sequence {A} (body : nat → A → prog env event nat) f l :
  (∀ x, implements (λ total, body total x) (f x)) →
  implements (fold_m body l) (sequence f l).
Proof.
  intros Hbody. induction l as [|x l IH].
  - apply implements_nil.
  - apply (implements_bind (λ total, body total x) (fold_m body l)); auto.
Qed.

(** *** The loops *)

Lemma run_writerow {B} fields (k : unit → prog env event B) e text :
  files (world_of e) !! out = Some text →
  run (writerow out fields ≫= k) e
  = run (k ()) (written text (Outcome [] [fields] (api e) 0) e).
Proof.
  intros Ht. rewrite run_bind. unfold writerow. rewrite run_on_world.
  unfold append_file, modify, Fetcher.written, Fs.append_text, set_world.
  cbn [run fst snd records service_after]. rewrite Ht.
  change (write_records [fields]) with (write_record fields +:+ "").
  rewrite str_app_nil_r. destruct e as [w c s]. simpl.
  by destruct (run (k ()) _) as [[??]?].
Qed.

Lemma write_point_record m dl gl dp :
  write_point out m dl gl dp
  = match point_record m dl gl dp with
    | Some fields => writerow out fields
    | None => mret ()
    end.
Proof. unfold write_point, point_record. by destruct (period dp), (ratio dp). Qed.

(** The loop over the data points adds their records to the file. *)
Lemma run_points m dl gl dps e text :
  files (world_of e) !! out = Some text →
  run (for_each (write_point out m dl gl) dps) e
  = ([], written text (Outcome [] (omap (point_record m dl gl) dps) (api e) 0) e,
     Ok ()).
Proof.
  unfold for_each. revert e text. induction dps as [|dp dps IH]; intros e text Ht.
  - rewrite fold_m_nil. do 2 f_equal. symmetry. exact (open_file text e Ht).
  - rewrite fold_m_cons, write_point_record. cbn [omap list_omap].
    destruct (point_record m dl gl dp) as [fields|].
    + rewrite (run_writerow _ _ _ text) by done. erewrite IH by apply written_file.
      do 2 f_equal.
      exact (written_and_then text (Outcome [] [_] (api e) 0)
               (λ s, Outcome [] _ s 0) e).
    + rewrite (bind_ret_l _ _ e). by apply IH.
Qed.

(** The call under [try]: an exception of the client is caught and
    reported. *)
Lemma run_try_call {B} rq (k : list data_point → B) (W : exn → event) e :
  run (catch (data_points ← call rq; mret (Some (k data_points)))
         (λ _, true) (λ err, print (W err);; mret None)) e
  = match fetch_trend rq (api e) with
    | (Ok data_points, s) => ([], set_api s e, Ok (Some (k data_points)))
    | (Raise err, s) => ([W err], set_api s e, Ok None)
    end.
Proof.
  unfold catch, call. simpl. by destruct (fetch_trend rq (api e)) as [[?|?] ?].
Qed.

Lemma run_delay {B} (b : B) (e : env) :
  run ((if bool_decide (0 < sleep_sec)%Qc then print (SLEEP sleep_sec) else mret ());;
       mret b) e
  = (delay sleep_sec, e, Ok b).
Proof. unfold delay. by case_bool_decide. Qed.

Lemma implements_combination m dev gen :
  implements (fetch_combination m dev gen) (combination m dev gen).
Proof.
  intros total e text Ht. unfold Fetcher.fetch_combination, Fetcher.combination.
  rewrite run_bind, (run_try_call _ (λ dps, (dps, S total))).
  destruct (fetch_trend _ (api e)) as [[[|dp dps]|err] s'];
    cbn [events service_after calls].
  - rewrite run_bind_print, run_ret, written_nothing by done.
    simpl. do 2 f_equal. lia.
  - erewrite run_bind_Ok by by apply (run_points _ _ _ _ (set_api s' e) text).
    rewrite run_delay. simpl. do 2 f_equal. lia.
  - rewrite run_ret, written_nothing by done. simpl. do 2 f_equal. lia.
Qed.

Lemma implements_model n im :
  implements (λ total, fetch_model n total im) (model_outcome n im).
Proof.
  intros total e text Ht. unfold Fetcher.fetch_model, Fetcher.model_outcome.
  rewrite run_bind_print.
  rewrite (implements_sequence _
             (λ dev, sequence (combination im.2 dev) gender_options)
             device_options) with (text := text); [done|..|done].
  intros dev. apply implements_sequence. intros gen. apply implements_combination.
Qed.

(** *** The whole run *)

Lemma copy_models (rows : list car_model) :
  (λ row, CarModel (c_model_id row) (c_brand_name row) (c_model_name_kr row)) <$> rows
  = rows.
Proof. induction rows as [|[] rows IH]; [done|]. rewrite fmap_cons. by f_equal. Qed.

(** *** The query for the models *)

Lemma str_of_nat_inj i j : str_of_int (Z.of_nat i) = str_of_int (Z.of_nat j) → i = j.
Proof.
  intros Hij. apply (f_equal int_of_str) in Hij. rewrite !int_of_str_of_int in Hij.
  injection Hij. lia.
Qed.

(** Every brand is bound to its placeholder. *)
Lemma params_lookup brands i brand :
  brands !! i = Some brand →
  params brands !! ("b" +:+ str_of_int (Z.of_nat i)) = Some brand.
Proof.
  intros Hi. unfold params, enumerate. apply elem_of_list_to_map_1.
  - rewrite <- list_fmap_compose.
    change (fst ∘ _) with ((λ i, "b" +:+ str_of_int (Z.of_nat i)) ∘ @fst nat string).
    rewrite list_fmap_compose, fst_zip by (rewrite length_seq; lia).
    apply NoDup_fmap_2; [|apply NoDup_seq]. by intros j1 j2 [= ?%str_of_nat_inj].
  - apply list_elem_of_fmap. exists (i, brand). split; [done|].
    apply list_elem_of_lookup. exists i. apply lookup_zip_Some. split; [|done].
    apply lookup_seq. split; [done|]. by eapply lookup_lt_Some.
Qed.

Lemma bound_values_params brands :
  bound_values (placeholders brands) (params brands) = Some brands.
Proof.
  apply mapM_Some, Forall2_same_length_lookup_2.
  { unfold placeholders. by rewrite length_fmap, length_seq. }
  intros i ph brand Hph Hb. unfold placeholders in Hph.
  rewrite list_lookup_fmap in Hph. destruct (seq _ _ !! i) as [j|] eqn:Hj; [|done].
  apply lookup_seq in Hj as [-> _]. injection Hph as <-. simpl.
  by apply params_lookup.
Qed.

Lemma placeholders_nil brands : placeholders brands = [] ↔ brands = [].
Proof.
  unfold placeholders. split; [|by intros ->].
  intros Hp%fmap_nil_inv. by destruct brands.
Qed.

Lemma run_fetch_target_models {B} brands (k : list car_model → prog env event B) e :
  run (fetch_target_models brands ≫= k) e
  = if decide (brands = []) then ([], e, Raise DbError)
    else run (k (select_models brands (catalog e))) e.
Proof.
  unfold fetch_target_models.
  rewrite (bind_assoc _ _ _ e), run_bind_gets, (bind_assoc _ _ _ e), run_bind_lift.
  case_decide as Hb; [by subst|].
  rewrite (execute_select_models_Ok _ _ brands); [|by rewrite placeholders_nil|].
  - by rewrite (bind_ret_l _ _ e), copy_models.
  - apply bound_values_params.
Qed.

(** The file after it was opened and the header written. *)
Lemma run_open {B} (k : unit → prog env event B) e :
  run (on_world (write_file out "") ;; writerow out fieldnames ≫= k) e
  = run (k ()) (done_env [] (api e) e).
Proof.
  rewrite run_bind, run_on_world. unfold write_file, modify. cbn [run fst snd].
  erewrite (run_writerow _ _ _ "");
    [|unfold set_world, Fs.write_text; simpl; by rewrite lookup_insert_eq].
  rewrite opened_header. cbn [api set_world].
  by destruct (run (k ()) _) as [[l e'] r].
Qed.

(** The loop over the models, from the open file. *)
Lemma run_models models e :
  run (fold_m (fetch_model (length models)) (enumerate 1 models) 0)
    (done_env [] (api e) e)
  = (events (crawl models (api e)),
     done_env (records (crawl models (api e))) (service_after (crawl models (api e))) e,
     Ok (calls (crawl models (api e)))).
Proof.
  rewrite (implements_sequence _ (model_outcome (length models)) _ (implements_model _)
             0 _ _ (done_env_file [] (api e) e)).
  by rewrite written_done_env.
Qed.

(** The run of the stage is the outcome [crawl] of its models. *)
Lemma run_crawl brands limit_models e :
  default default_brands brands ≠ [] →
  run (run_naver_trend_crawl brands limit_models) e
  = let models := target_models brands limit_models (catalog e) in
    let o := crawl models (api e) in
    match models with
    | [] =>
        ([INFO_start run_id start_date end_date time_unit;
          INFO_brands (default default_brands brands); WARN_no_models], e, Ok ())
    | _ =>
        (INFO_start run_id start_date end_date time_unit
         :: INFO_brands (default default_brands brands)
         :: INFO_models (length models)
         :: events o ++ [INFO_done out; INFO_calls (calls o)],
         done_env (records o) (service_after o) e, Ok ())
    end.
Proof.
  intros Hb. unfold Fetcher.run_naver_trend_crawl.
  rewrite !run_bind_print, run_fetch_target_models, decide_False by done.
  fold (target_models brands limit_models (catalog e)).
  destruct (target_models _ _ _) as [|m models] eqn:Hm; [done|]. cbv zeta.
  rewrite run_bind_print, run_open.
  erewrite run_bind_Ok by apply run_models.
  by rewrite !run_bind_print.
Qed.

(** *** The run, from the answers of the service *)

Local Abbreviation combination_of :=
  (combination_of start_date end_date time_unit sleep_sec).
Local Abbreviation requests := (requests start_date end_date time_unit).
Local Abbreviation combo_request := (combo_request start_date end_date time_unit).

Lemma combos_cons m models : combos (m :: models) = combos [m] ++ combos models.
Proof. reflexivity. Qed.

Lemma length_combos models : length (combos models) = 4 * length models.
Proof. induction models as [|m models IH]; [done|]. rewrite combos_cons. simpl in *. lia. Qed.

Lemma model_outcome_effect n im s :
  model_outcome n im s ≡ sequence combination_of (combos [im.2]) s.
Proof.
  unfold Fetcher.model_outcome. rewrite and_then_print, sequence_nested.
  by rewrite <- (sequence_fmap (λ p, (im.2, p.1, p.2)) combination_of).
Qed.

(** The loops of the run have the effect of one loop over the
    combinations. *)
Lemma sequence_models n start models s :
  sequence (model_outcome n) (enumerate start models) s
  ≡ sequence combination_of (combos models) s.
Proof.
  revert start s. induction models as [|m models IH]; intros start s; [done|].
  rewrite enumerate_cons, combos_cons, sequence_app. cbn [sequence].
  apply and_then_proper; [apply (model_outcome_effect n (start, m))|].
  intros s'. apply IH.
Qed.

(** The effect of a combination, from the answer of the service. *)
Lemma combination_answer c s :
  combination_of c s
  ≡ Outcome [] (answer_records c (fetch_trend (combo_request c) s).1)
      (fetch_trend (combo_request c) s).2
      (if answered (fetch_trend (combo_request c) s).1 then 1 else 0).
Proof.
  unfold Fetcher.combination_of, Fetcher.combination, Fetcher.combo_request.
  by destruct (fetch_trend _ s) as [[[|dp dps]|err] s1].
Qed.

Lemma sequence_answers l s :
  sequence combination_of l s
  ≡ Outcome [] (concat (zip_with answer_records l (answers (combo_request <$> l) s).1))
      (answers (combo_request <$> l) s).2
      (length (filter answered (answers (combo_request <$> l) s).1)).
Proof.
  revert s. induction l as [|c l IH]; intros s; [done|].
  cbn [sequence]. etrans.
  { apply and_then_proper; [apply combination_answer|intros s'; apply IH]. }
  rewrite fmap_cons, answers_cons. unfold and_then.
  cbn [service_after records calls fst snd zip_with concat].
  destruct (fetch_trend (combo_request c) s).1; by repeat split.
Qed.

(** The effect of the run: the records of the answers in the order of
    the requests, the service after them, the number of answers. *)
Lemma crawl_effect models s :
  crawl models s
  ≡ Outcome []
      (concat (zip_with answer_records (combos models) (answers (requests models) s).1))
      (answers (requests models) s).2
      (length (filter answered (answers (requests models) s).1)).
Proof. unfold Fetcher.crawl. rewrite sequence_models. apply sequence_answers. Qed.

(** *** The delays of the run *)

Local Abbreviation delays := (delays sleep_sec).

Lemma slept_app l1 l2 : slept (l1 ++ l2) = slept l1 ++ slept l2.
Proof. apply omap_app. Qed.

Lemma slept_and_then o f :
  slept (events (and_then o f))
  = slept (events o) ++ slept (events (f (service_after o))).
Proof. apply slept_app. Qed.

Lemma delays_cons r rs :
  delays (r :: rs) = delays [r] ++ delays rs.
Proof.
  unfold Fetcher.delays. case_bool_decide; [|done].
  by rewrite <- fmap_app, <- filter_app.
Qed.

Lemma combination_slept c s :
  slept (events (combination_of c s)) = delays [(fetch_trend (combo_request c) s).1].
Proof.
  unfold Fetcher.combination_of, Fetcher.combination, Fetcher.combo_request,
    Fetcher.delays, Fetcher.delay.
  destruct (fetch_trend _ s) as [[[|dp dps]|err] s1]; by case_bool_decide.
Qed.

Lemma sequence_slept l s :
  slept (events (sequence combination_of l s))
  = delays (answers (combo_request <$> l) s).1.
Proof.
  revert s. induction l as [|c l IH]; intros s.
  { unfold Fetcher.delays. by case_bool_decide. }
  cbn [sequence]. rewrite slept_and_then, combination_slept, fmap_cons, answers_cons.
  cbn [fst]. rewrite IH, (delays_cons _ (answers _ _).1).
  by destruct (combination_answer c s) as (_ & -> & _).
Qed.

Lemma model_outcome_slept n im s :
  slept (events (model_outcome n im s))
  = slept (events (sequence combination_of (combos [im.2]) s)).
Proof.
  unfold Fetcher.model_outcome. rewrite slept_and_then, sequence_nested.
  by rewrite <- (sequence_fmap (λ p, (im.2, p.1, p.2)) combination_of).
Qed.

Lemma sequence_models_slept n start models s :
  slept (events (sequence (model_outcome n) (enumerate start models) s))
  = slept (events (sequence combination_of (combos models) s)).
Proof.
  revert start s. induction models as [|m models IH]; intros start s; [done|].
  rewrite enumerate_cons, combos_cons, sequence_app. cbn [sequence].
  rewrite !slept_and_then, (model_outcome_slept n (start, m)), IH.
  by destruct (model_outcome_effect n (start, m) s) as (_ & -> & _).
Qed.

(** The delays of the run, from the answers of the service. *)
Lemma crawl_slept models s :
  slept (events (crawl models s)) = delays (answers (requests models) s).1.
Proof. unfold Fetcher.crawl. rewrite sequence_models_slept. apply sequence_slept. Qed.

Local Abbreviation fetched := (fetched start_date end_date time_unit).

Lemma elem_of_combos c models :
  c ∈ combos models ↔ c.1.1 ∈ models ∧ c.1.2 ∈ device_options ∧ c.2 ∈ gender_options.
Proof.
  unfold combos. rewrite list_elem_of_bind. split.
  - intros (m & (dev & (gen & ->%list_elem_of_singleton & ?)%list_elem_of_bind & ?)
              %list_elem_of_bind & ?).
    done.
  - intros (Hm & Hd & Hg). exists c.1.1. split; [|done].
    apply list_elem_of_bind. exists c.1.2. split; [|done].
    apply list_elem_of_bind. exists c.2. split; [|done].
    destruct c as [[??]?]. by apply list_elem_of_singleton.
Qed.

(** What holds of the record of every point that the service can give
    holds of the rows of the file. *)
Lemma fetched_Forall (P : data_point → Prop) (Q : list string → Prop) models s :
  (∀ rq s dps, (fetch_trend rq s).1 = Ok dps → Forall P dps) →
  (∀ m dev gen dp fields,
     m ∈ models → dev ∈ device_options → gen ∈ gender_options → P dp →
     point_record m dev.2 gen.2 dp = Some fields → Q fields) →
  Forall Q (fetched models s).
Proof.
  intros HP HQ. unfold Fetcher.fetched, Fetcher.requests.
  cut (∀ l s, Forall (λ c, c ∈ combos models) l →
         Forall Q (concat (zip_with answer_records l
                             (answers (combo_request <$> l) s).1))).
  { intros Hl. by apply Hl, Forall_forall. }
  clear s. intros l. induction l as [|c l IH]; intros s Hc; [constructor|].
  apply Forall_cons in Hc as [(Hm & Hd & Hg)%elem_of_combos Hc].
  rewrite fmap_cons, answers_cons. cbn [fst zip_with concat].
  apply Forall_app. split; [|by apply IH].
  unfold answer_records. destruct (fetch_trend _ s).1 as [dps|] eqn:Hf; [|constructor].
  apply Forall_forall. intros fields (dp & Hdp & Hfields)%list_elem_of_omap.
  apply HP in Hf. rewrite Forall_forall in Hf. eauto.
Qed.

(** The run over a catalog that has models of the brands. *)
Lemma run_crawl_answers brands limit_models e :
  default default_brands brands ≠ [] →
  target_models brands limit_models (catalog e) ≠ [] →
  run (run_naver_trend_crawl brands limit_models) e
  = let models := target_models brands limit_models (catalog e) in
    let a := answers (requests models) (api e) in
    (INFO_start run_id start_date end_date time_unit
     :: INFO_brands (default default_brands brands)
     :: INFO_models (length models)
     :: events (crawl models (api e))
        ++ [INFO_done out; INFO_calls (length (filter answered a.1))],
     done_env (fetched models (api e)) a.2 e, Ok ()).
Proof.
  intros Hb Hm. rewrite run_crawl by done. cbv zeta.
  destruct (crawl_effect (target_models brands limit_models (catalog e)) (api e))
    as (-> & -> & ->).
  by destruct (target_models _ _ _).
Qed.

(** ** Properties *)

(** C7: the raw file of a run holds the header and, for every
    combination of model, device and gender in the order of the loops,
    one record per data point of the answer that has a period and a
    ratio; a call that fails contributes nothing and stops nothing. *)
Theorem run_naver_trend_crawl_output brands limit_models e l e' r :
  default default_brands brands ≠ [] →
  target_models brands limit_models (catalog e) ≠ [] →
  run (run_naver_trend_crawl brands limit_models) e = (l, e', r) →
  r = Ok ()
  ∧ files (world_of e') !! out
    = Some (write_dict_rows fieldnames
              (fetched (target_models brands limit_models (catalog e)) (api e))).
Proof.
  intros Hb Hm. rewrite run_crawl_answers by done. intros [= <- <- <-].
  split; [done|apply done_env_file].
Qed.

(** C15: the service receives exactly one request per model, device and
    gender, four per model, in the order of the loops, whatever it
    answers; the count printed last is the number of calls that
    returned. *)
Theorem run_naver_trend_crawl_requests brands limit_models e l e' r :
  default default_brands brands ≠ [] →
  target_models brands limit_models (catalog e) ≠ [] →
  run (run_naver_trend_crawl brands limit_models) e = (l, e', r) →
  let models := target_models brands limit_models (catalog e) in
  let a := answers (requests models) (api e) in
  api e' = a.2
  ∧ length (requests models) = 4 * length models
  ∧ last l = Some (INFO_calls (length (filter answered a.1))).
Proof.
  intros Hb Hm. rewrite run_crawl_answers by done. intros [= <- <- <-].
  split; [done|]. split.
  - unfold Fetcher.requests. by rewrite length_fmap, length_combos.
  - by rewrite !last_cons, last_app.
Qed.

(** C10: the stage returns whatever the service does: no failure of a
    call aborts the run. *)
Theorem run_naver_trend_crawl_returns brands limit_models e :
  default default_brands brands ≠ [] →
  ∃ l e', run (run_naver_trend_crawl brands limit_models) e = (l, e', Ok ()).
Proof.
  intros Hb. rewrite run_crawl by done. cbv zeta. destruct (target_models _ _ _); eauto.
Qed.

(** C29: without a target model the stage warns and returns: it sends no
    request and writes no file, so a raw file of an earlier run with
    the same identifier stays as it is. *)
Theorem run_naver_trend_crawl_no_models brands limit_models e :
  default default_brands brands ≠ [] →
  target_models brands limit_models (catalog e) = [] →
  run (run_naver_trend_crawl brands limit_models) e
  = ([INFO_start run_id start_date end_date time_unit;
      INFO_brands (default default_brands brands); WARN_no_models], e, Ok ()).
Proof. intros Hb Hm. rewrite run_crawl by done. cbv zeta. by rewrite Hm. Qed.

(** With an empty list of brands the catalog query is refused (its
    text ends in [IN ()]): the stage raises after its first two lines. *)
Theorem run_naver_trend_crawl_no_brand limit_models e :
  run (run_naver_trend_crawl (Some []) limit_models) e
  = ([INFO_start run_id start_date end_date time_unit; INFO_brands []], e,
     Raise DbError).
Proof.
  unfold Fetcher.run_naver_trend_crawl. by rewrite !run_bind_print, run_fetch_target_models.
Qed.

(** C36: the stage touches nothing but the raw file of the run: the
    catalog, the tables and the other files are as they were. *)
Theorem run_naver_trend_crawl_frame brands limit_models e l e' r :
  run (run_naver_trend_crawl brands limit_models) e = (l, e', r) →
  catalog e' = catalog e
  ∧ detail (world_of e') = detail (world_of e)
  ∧ summary (world_of e') = summary (world_of e)
  ∧ ∀ p, p ≠ out → files (world_of e') !! p = files (world_of e) !! p.
Proof.
  destruct (decide (default default_brands brands = [])) as [Hb|Hb].
  - destruct brands as [[|]|]; try done. unfold Fetcher.run_naver_trend_crawl.
    rewrite !run_bind_print, run_fetch_target_models. by intros [= <- <- <-].
  - rewrite run_crawl by done. cbv zeta.
    destruct (target_models _ _ _); intros [= <- <- <-]; [done|].
    repeat split. intros p Hp. unfold Fetcher.done_env, Fs.write_text. simpl.
    by rewrite lookup_insert_ne.
Qed.

(** C40: the delays of a run: one of [sleep_sec] after every call
    whose answer has data points, whether or not a point gives a
    record, and none after a call that fails or whose answer is empty;
    no delay at all when [sleep_sec] is not positive. *)
Theorem run_naver_trend_crawl_delays brands limit_models e l e' r :
  default default_brands brands ≠ [] →
  run (run_naver_trend_crawl brands limit_models) e = (l, e', r) →
  slept l
  = if bool_decide (0 < sleep_sec)%Qc
    then (λ _, sleep_sec)
           <$> filter has_points
                 (answers (requests (target_models brands limit_models (catalog e)))
                    (api e)).1
    else [].
Proof.
  intros Hb. rewrite run_crawl by done. cbv zeta.
  pose proof (crawl_slept (target_models brands limit_models (catalog e)) (api e)) as Hs.
  destruct (target_models _ _ _) as [|m models]; intros [= <- <- <-].
  { by case_bool_decide. }
  cbn [slept omap list_omap]. fold slept. by rewrite slept_app, app_nil_r.
Qed.

End fetcher_proofs.

(** ** Examples *)

Import DecFloat.

(** A canned client: the service keeps the log of the requests, and
    its answer depends on the device and the gender asked for. *)
Definition ex_points : list data_point :=
  [DataPoint (Some "2025-03-01") (Some (Float (DFin false "125" 2 : float)));
   DataPoint (Some "2025-04-01") None;
   DataPoint (Some "2025-05-01") (Some (Int 100))].

Definition ex_answer (rq : request) : result (list data_point) :=
  if decide (device rq = Some "pc") then
    if decide (gender rq = Some "m") then Ok ex_points else Ok []
  else
    if decide (gender rq = Some "m") then Raise (ApiError "429")
    else Ok [DataPoint None (Some (Int 1))].

Definition ex_client : TrendClient :=
  {| service := list request; fetch_trend := λ rq log, (ex_answer rq, log ++ [rq]) |}.

#[local] Existing Instance ex_client.

Definition ex_catalog : list car_model :=
  [CarModel 3 "현대" "Sonata"; CarModel 7 "BMW" "X5"; CarModel 5 "기아" "K5"].

Definition ex_env : env := Env (World ∅ [] [] 0) ex_catalog [].

Definition ex_sleep : Qc := Q2Qc (3 # 10).

Definition ex_request (dev gen : string) : request :=
  Request "K5" "2025-01-01" "2025-06-30" "month" (Some dev) (Some gen) None.

Definition ex_rows : list (list string) :=
  [["5"; "기아"; "K5"; "2025-03-01"; "pc"; "male"; ""; "12.5"];
   ["5"; "기아"; "K5"; "2025-05-01"; "pc"; "male"; ""; "100"]].

Definition ex_events : list event :=
  [INFO_start "r1" "2025-01-01" "2025-06-30" "month";
   INFO_brands default_brands;
   INFO_models 1;
   INFO_model 1 1 "기아" "K5" 5;
   SLEEP ex_sleep;
   WARN_no_data "기아" "K5" (Some "pc") (Some "f");
   WARN_api_failed "기아" "K5" (Some "mo") (Some "m") (ApiError "429");
   SLEEP ex_sleep;
   INFO_done (out_path [] "r1");
   INFO_calls 3].

Definition ex_done : env :=
  Env (World {[ out_path [] "r1" := write_dict_rows fieldnames ex_rows ]} [] [] 0)
    ex_catalog
    [ex_request "pc" "m"; ex_request "pc" "f"; ex_request "mo" "m";
     ex_request "mo" "f"].

Definition ex_run : prog env event unit :=
  run_naver_trend_crawl [] "r1" "2025-01-01" "2025-06-30" "month" ex_sleep
    None (Some 1%Z).

(** A run of one model: the answer with three points gives two
    records (the point without a ratio is left out), the empty answer
    and the failed call give a warning each, the delay follows the two
    answers that have points, and three calls returned. *)
Example run_naver_trend_crawl_example : run ex_run ex_env = (ex_events, ex_done, Ok ()).
Proof. reflexivity. Qed.

(** The models are those of the brands in the order of the query;
    a negative [limit_models] cuts the list from its end. *)
Example target_models_example :
  target_models None None ex_catalog = [CarModel 5 "기아" "K5"; CarModel 3 "현대" "Sonata"]
  ∧ target_models None (Some 1%Z) ex_catalog = [CarModel 5 "기아" "K5"]
  ∧ target_models None (Some (-1)%Z) ex_catalog = [CarModel 5 "기아" "K5"].
Proof. repeat split; reflexivity. Qed.

Lemma run_naver_trend_crawl_output_witness :
  Ok () = Ok ()
  ∧ files (world_of ex_done) !! out_path [] "r1"
    = Some (write_dict_rows fieldnames
              (fetched "2025-01-01" "2025-06-30" "month"
                 (target_models None (Some 1%Z) (catalog ex_env)) (api ex_env))).
Proof.
  apply (run_naver_trend_crawl_output [] "r1" "2025-01-01" "2025-06-30" "month" ex_sleep
           None (Some 1%Z) ex_env ex_events ex_done (Ok ()));
    [discriminate..|reflexivity].
Defined.

Lemma run_naver_trend_crawl_requests_witness :
  api ex_done
  = (answers (requests "2025-01-01" "2025-06-30" "month"
                (target_models None (Some 1%Z) (catalog ex_env))) (api ex_env)).2
  ∧ length (requests "2025-01-01" "2025-06-30" "month"
              (target_models None (Some 1%Z) (catalog ex_env))) = 4 * 1
  ∧ last ex_events = Some (INFO_calls 3).
Proof.
  apply (run_naver_trend_crawl_requests [] "r1" "2025-01-01" "2025-06-30" "month"
           ex_sleep None (Some 1%Z) ex_env ex_events ex_done (Ok ()));
    [discriminate..|reflexivity].
Defined.

Lemma run_naver_trend_crawl_returns_witness :
  ∃ l e', run ex_run ex_env = (l, e', Ok ()).
Proof.
  apply (run_naver_trend_crawl_returns [] "r1" "2025-01-01" "2025-06-30" "month"
           ex_sleep None (Some 1%Z) ex_env).
  discriminate.
Defined.

Lemma run_naver_trend_crawl_no_models_witness :
  run (run_naver_trend_crawl [] "r1" "2025-01-01" "2025-06-30" "month" ex_sleep
         (Some ["Audi"]) None) ex_env
  = ([INFO_start "r1" "2025-01-01" "2025-06-30" "month"; INFO_brands ["Audi"];
      WARN_no_models], ex_env, Ok ()).
Proof.
  apply (run_naver_trend_crawl_no_models [] "r1" "2025-01-01" "2025-06-30" "month"
           ex_sleep (Some ["Audi"]) None ex_env); [discriminate|reflexivity].
Defined.

Lemma run_naver_trend_crawl_delays_witness : slept ex_events = [ex_sleep; ex_sleep].
Proof.
  change [ex_sleep; ex_sleep]
    with (if bool_decide (0 < ex_sleep)%Qc
          then (λ _, ex_sleep)
                 <$> filter has_points
                       (answers (requests "2025-01-01" "2025-06-30" "month"
                                   (target_models None (Some 1%Z) (catalog ex_env)))
                          (api ex_env)).1
          else []).
  apply (run_naver_trend_crawl_delays [] "r1" "2025-01-01" "2025-06-30" "month" ex_sleep
           None (Some 1%Z) ex_env ex_events ex_done (Ok ())); [discriminate|reflexivity].
Defined.

Lemma run_naver_trend_crawl_frame_witness :
  catalog ex_done = catalog ex_env
  ∧ detail (world_of ex_done) = detail (world_of ex_env)
  ∧ summary (world_of ex_done) = summary (world_of ex_env)
  ∧ ∀ p, p ≠ out_path [] "r1" →
      files (world_of ex_done) !! p = files (world_of ex_env) !! p.
Proof.
  apply (run_naver_trend_crawl_frame [] "r1" "2025-01-01" "2025-06-30" "month"
           ex_sleep None (Some 1%Z) ex_env ex_events ex_done (Ok ())).
  reflexivity.
Defined.

End Fetcher.
