(* ===== verification/Pipeline.v ===== *)
(** * The stages together

    The stages run one after the other, each reading what the one
    before it left: the Trend Fetcher writes the file the Normalizer
    reads, the Normalizer the file the Detail Loader reads, and the
    Loader fills the table the Aggregator averages.  This file states
    what they achieve together.

    - [raw_rows] are the rows the Normalizer reads from the file of the
      Fetcher; [fetch_then_normalize] composes the two stages for a
      service and a catalog whose texts hold no carriage return, and
      [fetched_point_kept] says what becomes of a data point;
    - [key_of_norm] is the key under which the Loader stores a row of
      the Normalizer, [stored] the key with the ratio;
    - [normalize_then_load] composes the two stages on any raw file
      whose kept rows the store accepts ([acceptable]): it rests on the
      round trips of the CSV writer and reader, of [str] and [int], and
      of [repr] and [float]; [normalize_then_load_not_finite] is the
      other case: a kept row whose ratio is not finite makes the load
      raise, and the tables stay as they were;
    - [normalize_load_aggregate] composes the three stages: the detail
      table holds the valid raw rows, and the summary table the mean
      of every model and month that has a ratio;
    - [pipeline] runs the three stages that follow the crawl,
      [crawl_pipeline] the four stages;
    - the examples run the design's scenarios through the stages. *)

From Stdlib Require Import Ascii ZArith QArith Qcanon.
From stdpp Require Import base tactics option list strings gmap.
From S2P Require Import Prelude PyStr PyInt PyFloat DecFloat Csv Fs Prog Db World.
From S2P Require Import Normalizer Loader Aggregator Fetcher.

Local Close Scope Q_scope.
Local Close Scope Qc_scope.

Module Pipeline.
Import PyStr PyInt Csv Db World Normalizer.

(** The lines a run of the stages prints. *)
Inductive event : Type :=
| Fetch (e : Fetcher.event)
| Normalize (e : Normalizer.event)
| Load (e : Loader.event)
| Aggregate (e : Aggregator.event).

(** The three stages that follow the crawl, one after the other. *)
Definition pipeline `{FloatOps} `{!Schema} (BASE_DIR : Fs.path) (run_id : string)
  : prog world event unit :=
  with_events Normalize (normalize_detail BASE_DIR run_id);;
  with_events Load (Loader.load_detail BASE_DIR run_id);;
  with_events Aggregate Aggregator.run_aggregate.

(** The four stages: the crawl works on the catalog, the service and
    the files, the stages after it on the files and the tables. *)
Definition crawl_pipeline `{FloatOps} `{!Schema} `{!Fetcher.TrendClient}
    (BASE_DIR : Fs.path) (run_id start_date end_date time_unit : string)
    (sleep_sec : Qc) (brands : option (list string)) (limit_models : option Z)
  : prog Fetcher.env event unit :=
  with_events Fetch
    (Fetcher.run_naver_trend_crawl BASE_DIR run_id start_date end_date time_unit
       sleep_sec brands limit_models);;
  zoom Fetcher.world_of Fetcher.set_world (pipeline BASE_DIR run_id).

Section crawl.
Context `{FloatOps} `{!Fetcher.TrendClient}.

(** A model whose names can be written to a CSV file and read back:
    they hold no carriage return. *)
Definition clean_model (m : car_model) : Prop :=
  no_cr (c_brand_name m) = true ∧ no_cr (c_model_name_kr m) = true.

(** A data point that can be written and read back. *)
Definition clean_point (dp : Fetcher.data_point) : Prop :=
  (∀ p, Fetcher.period dp = Some p → no_cr p = true)
  ∧ (∀ x, Fetcher.ratio dp = Some (Fetcher.Float x) → float_wf x).

(** A service that only gives such points. *)
Definition clean_service : Prop :=
  ∀ rq s dps, (Fetcher.fetch_trend rq s).1 = Ok dps → Forall clean_point dps.

(** The rows the normalizer reads from the file of the fetcher. *)
Definition raw_rows (start_date end_date time_unit : string)
    (models : list car_model) (s : Fetcher.service)
  : list (gmap string (option string)) :=
  zip_row Fetcher.fieldnames <$> Fetcher.fetched start_date end_date time_unit models s.

End crawl.

Section pipeline.
Context `{FloatOps} `{!Schema}.

(** The key a normalized row is stored under: an empty label is
    [NULL]. *)
Definition key_of_norm (r : norm_row) : detail_key :=
  (model_id r, month r, Loader.or_None (Some (device r)),
   Loader.or_None (Some (gender r)), Loader.or_None (Some (age_group r))).

(** What the loader stores for a normalized row. *)
Definition stored (r : norm_row) : detail_key * float := (key_of_norm r, ratio r).

(** A row that the database accepts: its ratio is a finite number and
    the schema has no objection. *)
Definition acceptable (r : norm_row) : Prop :=
  float_finite (ratio r) = true
  ∧ detail_ok (Loader.key_params (key_of_norm r) (ratio r)) = true.

End pipeline.

(** ** Carriage returns *)

Lemma is_digit_not_cr c : is_digit c = true → not_cr c = true.
Proof. by destruct c as [[] [] [] [] [] [] [] []]. Qed.

Lemma repr_char_not_cr c : repr_char c = true → not_cr c = true.
Proof. by destruct c as [[] [] [] [] [] [] [] []]. Qed.

Lemma str_of_int_no_cr n : no_cr (str_of_int n) = true.
Proof.
  assert (∀ a, (0 ≤ a)%Z → no_cr (str_of_int a) = true) as Hpos.
  { intros a [Hd _]%str_of_int_nonneg_digits. revert Hd. apply str_all_impl, is_digit_not_cr. }
  destruct n as [|p|p]; [by apply Hpos..|].
  rewrite str_of_int_neg. unfold no_cr. rewrite str_all_cons.
  apply andb_true_iff. split; [done|]. by apply Hpos.
Qed.

Section pipeline_proofs.
Context `{FloatLaws} `{!Schema}.
Variable BASE_DIR : Fs.path.

Lemma float_repr_no_cr x : float_wf x → no_cr (float_repr x) = true.
Proof.
  intros Hx%float_repr_chars. revert Hx. apply str_all_impl, repr_char_not_cr.
Qed.

Lemma field_no_cr k (row : gmap string (option string)) :
  (∀ v, row !! k = Some (Some v) → no_cr v = true) → no_cr (field k row) = true.
Proof.
  intros Hrow. unfold field, strip, get. apply DecFloat.str_all_strip_by.
  destruct (row !! k) as [[v|]|] eqn:Hk; simpl; auto.
Qed.

Lemma month_of_no_cr d : no_cr d = true → no_cr (month_of d) = true.
Proof.
  intros Hd. unfold month_of, no_cr, slice_to. rewrite str_all_app.
  by rewrite str_all_take.
Qed.

(** The fields of a row kept from a file hold no carriage return. *)
Lemma classify_fields_no_cr (row : gmap string (option string)) r :
  (∀ k v, row !! k = Some (Some v) → no_cr v = true) →
  classify row = Ok (inr r) →
  Forall (λ f, no_cr f = true) (row_fields r).
Proof.
  intros Hrow (s & _ & _ & _ & Hx & ->)%classify_kept. unfold row_fields. simpl.
  repeat constructor; try (apply field_no_cr; by eauto).
  - apply str_of_int_no_cr.
  - apply month_of_no_cr, field_no_cr. eauto.
  - apply float_repr_no_cr. by eapply float_of_str_wf.
Qed.

Lemma classify_ratio_wf (row : gmap string (option string)) r :
  classify row = Ok (inr r) → float_wf (ratio r).
Proof. intros (s & _ & _ & _ & Hx & _)%classify_kept. by eapply float_of_str_wf. Qed.

Lemma keep_Some row r : keep row = Some r ↔ classify row = Ok (inr r).
Proof.
  unfold keep. destruct (classify row) as [[?|r']|e]; split; try done; congruence.
Qed.

Lemma fieldnames_NoDup : NoDup fieldnames.
Proof. by apply (bool_decide_unpack _). Qed.

(** The loader reads back what the normalizer wrote of a row. *)
Lemma params_row_fields r :
  float_wf (ratio r) →
  Loader.params (zip_row fieldnames (row_fields r))
  = Ok (Loader.key_params (key_of_norm r) (ratio r)).
Proof.
  intros Hx. unfold Loader.params.
  rewrite (getitem_zip_row _ _ 0 "model_id" (str_of_int (model_id r)) fieldnames_NoDup),
    (getitem_zip_row _ _ 1 "month" (month r) fieldnames_NoDup),
    (getitem_zip_row _ _ 2 "device" (device r) fieldnames_NoDup),
    (getitem_zip_row _ _ 3 "gender" (gender r) fieldnames_NoDup),
    (getitem_zip_row _ _ 4 "age_group" (age_group r) fieldnames_NoDup),
    (getitem_zip_row _ _ 5 "ratio" (float_repr (ratio r)) fieldnames_NoDup) by done.
  cbn [mbind result_bind py_int py_float]. rewrite int_of_str_of_int.
  rewrite float_of_str_repr by done. reflexivity.
Qed.


Lemma out_text_read rows :
  Forall (λ r, Forall (λ f, no_cr f = true) (row_fields r)) rows →
  read_dict_rows (out_text rows) = Ok (zip_row fieldnames <$> (row_fields <$> rows)).
Proof.
  intros Hrows. unfold out_text, read_dict_rows, write_dict_rows.
  rewrite read_write_records.
  - cbn [fmap result_fmap]. rewrite dict_rows_cons; [done|].
    apply Forall_fmap, Forall_forall. by intros r _.
  - constructor; [by repeat constructor | by apply Forall_fmap].
Qed.

Lemma kept_rows_ok text reader :
  read_dict_rows text = Ok reader →
  Forall (λ r, Forall (λ f, no_cr f = true) (row_fields r) ∧ float_wf (ratio r))
    (omap keep reader).
Proof.
  intros Hread. apply Forall_forall. intros r (row & Hrow & Hr%keep_Some)%list_elem_of_omap.
  split; [|by eapply classify_ratio_wf]. eapply classify_fields_no_cr; [|done].
  intros k v. by eapply read_dict_rows_no_cr.
Qed.

Lemma load_loop_rows time rows t :
  Forall (λ r, float_wf (ratio r)) rows → Forall acceptable rows →
  Loader.load_loop time (zip_row fieldnames <$> (row_fields <$> rows)) t
  = (Loader.upsert_all time (stored <$> rows) t, None).
Proof.
  intros Hwf Hok. apply Loader.load_loop_all.
  rewrite <- list_fmap_compose. apply Forall2_fmap, Forall_Forall2_diag.
  apply Forall_forall. intros r Hr. rewrite Forall_forall in Hwf, Hok.
  destruct (Hok r Hr) as [Hfin Hdb]. simpl.
  by rewrite params_row_fields by auto.
Qed.

(** C2: what the normalizer writes, the loader stores: after the two
    stages the detail table is the table before them with every valid
    row of the raw file upserted under its key, in the order of the
    file, provided the database accepts the rows. *)
Theorem normalize_then_load run_id w l1 w1 p text reader :
  files w !! raw_path BASE_DIR run_id = Some text →
  read_dict_rows text = Ok reader →
  run (normalize_detail BASE_DIR run_id) w = (l1, w1, Ok p) →
  Forall acceptable (omap keep reader) →
  run (Loader.load_detail BASE_DIR run_id) w1
  = ([Loader.INFO_start p; Loader.INFO_done (length (omap keep reader))],
     set_detail
       (Loader.upsert_all (now w) (stored <$> omap keep reader) (detail w)) w1,
     Ok ()).
Proof.
  intros Hraw Hread Hrun Hok.
  destruct (normalize_detail_cases BASE_DIR run_id w)
    as [[? Hr]|(txt & rd & Hraw' & Hread' & [[He Hr]|[He Hr]])];
    rewrite Hr in Hrun; simplify_eq.
  assert (rd = reader) as -> by congruence.
  pose proof (kept_rows_ok _ _ Hread) as Hrows.
  apply Forall_and in Hrows as [Hcr Hwf].
  erewrite Loader.load_detail_run; cycle 1.
  { unfold done_world, Fs.write_text. rewrite files_set_files. apply lookup_insert_eq. }
  { by apply out_text_read. }
  change (now (done_world BASE_DIR run_id (omap keep reader) w)) with (now w).
  change (detail (done_world BASE_DIR run_id (omap keep reader) w)) with (detail w).
  rewrite load_loop_rows by done. cbn [fst snd].
  by rewrite !length_fmap.
Qed.

(** The loader on the file the normalizer wrote runs its loop over the
    rows written. *)
Lemma load_normalized run_id rows w :
  Forall (λ r, Forall (λ f, no_cr f = true) (row_fields r)) rows →
  run (Loader.load_detail BASE_DIR run_id) (done_world BASE_DIR run_id rows w)
  = match (Loader.load_loop (now w) (zip_row fieldnames <$> (row_fields <$> rows))
             (detail w)).2 with
    | None =>
        ([Loader.INFO_start (out_path BASE_DIR run_id);
          Loader.INFO_done (length (zip_row fieldnames <$> (row_fields <$> rows)))],
         set_detail
           (Loader.load_loop (now w) (zip_row fieldnames <$> (row_fields <$> rows))
              (detail w)).1 (done_world BASE_DIR run_id rows w), Ok ())
    | Some e =>
        ([Loader.INFO_start (out_path BASE_DIR run_id)],
         done_world BASE_DIR run_id rows w, Raise e)
    end.
Proof.
  intros Hcr. erewrite Loader.load_detail_run; [done| |by apply out_text_read].
  unfold done_world, Fs.write_text. rewrite files_set_files. apply lookup_insert_eq.
Qed.

(** A run of the normalizer that returns leaves the world with the
    valid rows of the raw file written. *)
Lemma normalize_detail_Ok run_id w text reader l1 w1 p :
  files w !! raw_path BASE_DIR run_id = Some text →
  read_dict_rows text = Ok reader →
  run (normalize_detail BASE_DIR run_id) w = (l1, w1, Ok p) →
  w1 = done_world BASE_DIR run_id (omap keep reader) w ∧ p = out_path BASE_DIR run_id.
Proof.
  intros Hraw Hread Hrun.
  destruct (normalize_detail_cases BASE_DIR run_id w)
    as [[? Hr]|(txt & rd & Hraw' & Hread' & [[He Hr]|[He Hr]])];
    rewrite Hr in Hrun; simplify_eq.
  by assert (rd = reader) as -> by congruence.
Qed.

(** The loop of the loader on the rows of the normalizer stops with the
    refusal of the database at the first ratio that is not finite, if
    not before. *)
Lemma load_loop_not_finite time rows t r :
  Forall (λ r, float_wf (ratio r)) rows →
  r ∈ rows → float_finite (ratio r) = false →
  (Loader.load_loop time (zip_row fieldnames <$> (row_fields <$> rows)) t).2 = Some DbError.
Proof.
  intros Hwf Hr Hfin. revert t. induction Hwf as [|r' rows Hr' _ IH]; intros t.
  { by apply elem_of_nil in Hr. }
  cbn [fmap list_fmap Loader.load_loop]. rewrite params_row_fields by done.
  cbn [mbind result_bind]. unfold execute_upsert_detail, Loader.key_params, key_of_norm.
  cbn [p_month p_ratio].
  destruct (float_finite (ratio r') && _) eqn:Hok; [|done].
  apply elem_of_cons in Hr as [->|Hr]; [by rewrite Hfin in Hok|]. by apply IH.
Qed.

(** C27: a ratio that is not a finite number ([float] reads [nan] and
    [inf]) passes the normalizer, and then the load fails as a whole:
    the database refuses the row, the loader raises after its first
    line and no row of the file is stored. *)
Theorem normalize_then_load_not_finite run_id w l1 w1 p text reader r :
  files w !! raw_path BASE_DIR run_id = Some text →
  read_dict_rows text = Ok reader →
  run (normalize_detail BASE_DIR run_id) w = (l1, w1, Ok p) →
  r ∈ omap keep reader → float_finite (ratio r) = false →
  run (Loader.load_detail BASE_DIR run_id) w1
  = ([Loader.INFO_start p], w1, Raise DbError).
Proof.
  intros Hraw Hread [-> ->]%(normalize_detail_Ok _ _ _ _ _ _ _ Hraw Hread) Hr Hfin.
  pose proof (kept_rows_ok _ _ Hread) as [Hcr Hwf]%Forall_and.
  by rewrite load_normalized, (load_loop_not_finite _ _ _ r).
Qed.
(** A loop of the loader that ends has found every row acceptable. *)
Lemma load_loop_rows_acceptable time rows t :
  Forall (λ r, float_wf (ratio r)) rows →
  (Loader.load_loop time (zip_row fieldnames <$> (row_fields <$> rows)) t).2 = None →
  Forall acceptable rows.
Proof.
  intros Hwf. revert t. induction Hwf as [|r rows Hr _ IH]; intros t; [constructor|].
  cbn [fmap list_fmap Loader.load_loop]. rewrite params_row_fields by done.
  cbn [mbind result_bind]. unfold execute_upsert_detail, acceptable.
  destruct r as [id mo dev gen age x]. cbn [Loader.key_params key_of_norm p_month p_ratio ratio].
  destruct (float_finite x && _) eqn:Hok; [|done].
  apply andb_true_iff in Hok. intros Hrest%IH. by constructor.
Qed.

(** C20: the three stages after the crawl, run one after the other on
    a raw file: when they return, the detail table is the table before
    them with every valid row of the raw file upserted under its key,
    in the order of the file, and for every model and month that has
    ratios there the summary table holds as index the number that,
    multiplied by the count of these ratios, gives their sum. *)
Theorem normalize_load_aggregate run_id w text reader l1 w1 p l2 w2 l3 w3 :
  files w !! raw_path BASE_DIR run_id = Some text →
  read_dict_rows text = Ok reader →
  run (normalize_detail BASE_DIR run_id) w = (l1, w1, Ok p) →
  run (Loader.load_detail BASE_DIR run_id) w1 = (l2, w2, Ok ()) →
  run Aggregator.run_aggregate w2 = (l3, w3, Ok ()) →
  detail w3 = Loader.upsert_all (now w) (stored <$> omap keep reader) (detail w)
  ∧ ∀ id mo, Aggregator.ratios_of id mo (detail w3) ≠ [] →
      ∃ x, Aggregator.summary_view (summary w3) !! (id, mo) = Some (Some x)
           ∧ (x * count (Aggregator.ratios_of id mo (detail w3))
              = total (Aggregator.ratios_of id mo (detail w3)))%Qc.
Proof.
  intros Hraw Hread [-> _]%(normalize_detail_Ok _ _ _ _ _ _ _ Hraw Hread) Hl
    ->%Aggregator.run_aggregate_Ok.
  pose proof (kept_rows_ok _ _ Hread) as [Hcr Hwf]%Forall_and.
  rewrite load_normalized in Hl by done.
  destruct (Loader.load_loop _ _ _).2 eqn:He; [done|]. injection Hl as _ <-.
  apply load_loop_rows_acceptable in He as Hok; [|done].
  rewrite load_loop_rows by done. cbn [fst detail set_detail set_summary summary].
  split; [done|]. intros id mo Hne.
  destruct (Aggregator.select_avg_ratios _ _ _ Hne) as (x & Hx & Hmean).
  exists x. split; [|done]. by apply Aggregator.upsert_means_index.
Qed.
End pipeline_proofs.

(** ** The Fetcher and the Normalizer *)

Section crawl_proofs.
Context `{FloatLaws} `{!Fetcher.TrendClient}.
Variable BASE_DIR : Fs.path.
Variables (run_id start_date end_date time_unit : string).
Variable sleep_sec : Qc.

Local Abbreviation fetched := (Fetcher.fetched start_date end_date time_unit).
Local Abbreviation raw_rows := (raw_rows start_date end_date time_unit).
Local Abbreviation run_naver_trend_crawl :=
  (Fetcher.run_naver_trend_crawl BASE_DIR run_id start_date end_date time_unit sleep_sec).

(** The Fetcher writes the file that the Normalizer reads. *)
Lemma out_path_raw_path : Fetcher.out_path BASE_DIR run_id = raw_path BASE_DIR run_id.
Proof. reflexivity. Qed.

Lemma fetcher_fieldnames_NoDup : NoDup Fetcher.fieldnames.
Proof. by apply (bool_decide_unpack _). Qed.

Lemma str_of_number_no_cr x :
  (∀ y, x = Fetcher.Float y → float_wf y) → no_cr (Fetcher.str_of_number x) = true.
Proof.
  intros Hx. destruct x as [n|y]; simpl; [apply str_of_int_no_cr|].
  apply float_repr_no_cr; auto.
Qed.

Lemma label_no_cr (o : option string * string) :
  o ∈ Fetcher.device_options ∨ o ∈ Fetcher.gender_options → no_cr o.2 = true.
Proof.
  unfold Fetcher.device_options, Fetcher.gender_options.
  rewrite !elem_of_cons, !elem_of_nil. intros [[->|[->|[]]]|[->|[->|[]]]]; done.
Qed.

(** The record of a clean point of a clean model is read back as it
    was written, and has a [model_id]. *)
Lemma point_record_ok m dev gen dp fields :
  clean_model m → dev ∈ Fetcher.device_options → gen ∈ Fetcher.gender_options →
  clean_point dp → Fetcher.point_record m dev.2 gen.2 dp = Some fields →
  Forall (λ f, no_cr f = true) fields ∧ fields ≠ []
  ∧ zip_row Fetcher.fieldnames fields !! "model_id" ≠ Some None.
Proof.
  intros [Hb Hn] Hd Hg [Hp Hx]. unfold Fetcher.point_record.
  destruct (Fetcher.period dp) as [p|], (Fetcher.ratio dp) as [x|]; try done.
  intros [= <-]. split; [|split; [done|]].
  - unfold Fetcher.point_fields.
    repeat constructor; auto using str_of_int_no_cr, label_no_cr.
    apply str_of_number_no_cr. intros y ->. auto.
  - by erewrite (zip_row_lookup _ _ 0) by (done || apply fetcher_fieldnames_NoDup).
Qed.

(** Rows that have a [model_id] never make the normalizer raise. *)
Lemma classify_rows_total reader :
  Forall (λ row, row !! "model_id" ≠ Some None) reader → (classify_rows reader).2 = None.
Proof.
  induction 1 as [|row reader Hrow _ IH]; [done|]. simpl.
  assert (∃ c, classify row = Ok c) as [c ->].
  { unfold classify. repeat case_match; try done; eauto. }
  by destruct (classify_rows reader).
Qed.

Lemma fetched_ok models s :
  Forall clean_model models → clean_service →
  Forall (λ fields, Forall (λ f, no_cr f = true) fields ∧ fields ≠ []
                    ∧ zip_row Fetcher.fieldnames fields !! "model_id" ≠ Some None)
    (fetched models s).
Proof.
  intros Hm Hs. apply (Fetcher.fetched_Forall _ _ _ clean_point); [done|].
  intros m dev gen dp fields Hin. rewrite Forall_forall in Hm.
  apply point_record_ok; auto.
Qed.

(** The normalizer reads the rows of the fetcher as they were written. *)
Lemma read_fetched models s :
  Forall clean_model models → clean_service →
  read_dict_rows (write_dict_rows Fetcher.fieldnames (fetched models s))
  = Ok (raw_rows models s)
  ∧ (classify_rows (raw_rows models s)).2 = None.
Proof.
  intros Hm Hs. pose proof (fetched_ok models s Hm Hs) as Hok. split.
  - unfold read_dict_rows, write_dict_rows. rewrite read_write_records.
    + cbn [fmap result_fmap]. rewrite dict_rows_cons; [done|].
      eapply Forall_impl; [exact Hok|]. by intros ? (_ & ? & _).
    + constructor; [by apply (bool_decide_unpack _)|].
      eapply Forall_impl; [exact Hok|]. by intros ? (? & _).
  - apply classify_rows_total, Forall_fmap.
    eapply Forall_impl; [exact Hok|]. by intros ? (_ & _ & ?).
Qed.

(** C16: what the fetcher writes, the normalizer reads: after a crawl
    the normalizer returns, and its output holds the row of every
    record of the crawl that is valid, in the order of the crawl,
    provided the names of the models and the periods hold no carriage
    return. *)
Theorem fetch_then_normalize brands limit_models e l e' r :
  default Fetcher.default_brands brands ≠ [] →
  Fetcher.target_models brands limit_models (Fetcher.catalog e) ≠ [] →
  Forall clean_model (Fetcher.target_models brands limit_models (Fetcher.catalog e)) →
  clean_service →
  run (run_naver_trend_crawl brands limit_models) e = (l, e', r) →
  let reader := raw_rows (Fetcher.target_models brands limit_models (Fetcher.catalog e))
                  (Fetcher.api e) in
  run (normalize_detail BASE_DIR run_id) (Fetcher.world_of e')
  = (INFO_loading (raw_path BASE_DIR run_id) :: warnings (classify_rows reader).1
       ++ [count_event (omap keep reader); INFO_saved (out_path BASE_DIR run_id)],
     done_world BASE_DIR run_id (omap keep reader) (Fetcher.world_of e'),
     Ok (out_path BASE_DIR run_id)).
Proof.
  intros Hb Hm Hc Hs. rewrite Fetcher.run_crawl_answers by done. intros [= <- <- <-] reader.
  destruct (read_fetched _ (Fetcher.api e) Hc Hs) as [Hread Hnone].
  rewrite (normalize_detail_run _ _ _ _ _ (Fetcher.done_env_file _ _ _ _ _) Hread).
  fold reader in Hnone |- *. by rewrite Hnone, classify_rows_kept.
Qed.

(** C17: a data point with a period of at least seven characters and a
    [float] ratio becomes the normalized row of its model with the
    month of the period, the labels of the device and the gender, no
    age group and the same ratio. *)
Theorem fetched_point_kept m dl gl p x w :
  float_wf x → 7 ≤ len (strip p) →
  run (normalize_row
         (zip_row Fetcher.fieldnames (Fetcher.point_fields m dl gl p (Fetcher.Float x)))) w
  = ([], w,
     Ok (Some (NormRow (c_model_id m) (month_of (strip p)) (strip dl) (strip gl) "" x))).
Proof.
  intros Hx Hp. apply run_kept, classify_kept.
  pose proof fetcher_fieldnames_NoDup as Hnd.
  assert (∀ i k v, Fetcher.fieldnames !! i = Some k →
            Fetcher.point_fields m dl gl p (Fetcher.Float x) !! i = Some v →
            field k (zip_row Fetcher.fieldnames
                       (Fetcher.point_fields m dl gl p (Fetcher.Float x))) = strip v)
    as Hfield.
  { intros i k v Hk Hv. unfold field. by erewrite get_zip_row. }
  exists (str_of_int (c_model_id m)). cbn [model_id ratio].
  rewrite (Hfield 3 "date" p), (Hfield 4 "device" dl), (Hfield 5 "gender" gl),
    (Hfield 6 "age_group" ""), (Hfield 7 "ratio" (float_repr x)) by done.
  rewrite float_strip_repr, float_of_str_repr by done.
  split; [by erewrite (zip_row_lookup _ _ 0)|].
  split; [apply int_of_str_of_int|done].
Qed.

End crawl_proofs.

(** ** Examples, with the decimal model of [float] *)

Import DecFloat.
Local Existing Instance accept_all.

(** The raw file of the design's example scenario. *)
Definition ex_raw_text : string :=
  "model_id,brand_name,model_name,date,device,gender,age_group,ratio" +:+ lineterminator +:+
  "5,Kia,K5,2025-03-15,pc,m,,12.5" +:+ lineterminator.

Definition ex_world : world := World {[ raw_path [] "r1" := ex_raw_text ]} [] [] 3.

Definition ex_detail_row : detail_row :=
  DetailRow 5 "2025-03-01" (Some "pc") (Some "m") None (Some (DFin false "125" 2)) 3.

Lemma normalize_then_load_witness :
  run (Loader.load_detail [] "r1") (final (run (normalize_detail [] "r1") Normalizer.ex_world))
  = ([Loader.INFO_start (out_path [] "r1");
      Loader.INFO_done (length (omap keep Normalizer.ex_reader))],
     set_detail
       (Loader.upsert_all (now Normalizer.ex_world)
          (stored <$> omap keep Normalizer.ex_reader) (detail Normalizer.ex_world))
       (final (run (normalize_detail [] "r1") Normalizer.ex_world)),
     Ok ()).
Proof.
  apply (normalize_then_load [] "r1" Normalizer.ex_world
           (printed (run (normalize_detail [] "r1") Normalizer.ex_world)) _ _
           Normalizer.ex_raw_text Normalizer.ex_reader); try reflexivity.
  by repeat constructor.
Defined.

(** The design's example scenario, end to end: the raw row
    [(5, "2025-03-15", "pc", "m", "12.5")] becomes the normalized row
    [(5, "2025-03-01", "pc", "m", "", 12.5)], then the detail row with
    that key and ratio, then the index 12.5 of model 5 in March 2025. *)
Example pipeline_example :
  ∃ w x,
    run (pipeline [] "r1") ex_world
    = ([Normalize (Normalizer.INFO_loading (raw_path [] "r1"));
        Normalize (Normalizer.INFO_count 1);
        Normalize (Normalizer.INFO_saved (out_path [] "r1"));
        Load (Loader.INFO_start (out_path [] "r1")); Load (Loader.INFO_done 1);
        Aggregate Aggregator.INFO_start; Aggregate (Aggregator.INFO_count 1);
        Aggregate (Aggregator.INFO_upserted 1); Aggregate Aggregator.INFO_done],
       w, Ok ())
    ∧ files w !! out_path [] "r1"
      = Some ("model_id,month,device,gender,age_group,ratio" +:+ lineterminator +:+
              "5,2025-03-01,pc,m,,12.5" +:+ lineterminator)
    ∧ detail w = [ex_detail_row]
    ∧ summary w = [SummaryRow 5 "2025-03-01" (Some x) None None None 3]
    ∧ x = Q2Qc (25 # 2).
Proof.
  eexists _, _. split; [reflexivity|]. repeat split; reflexivity.
Qed.

(** A raw file whose second row has the ratio [nan]. *)
Definition ex_nan_text : string :=
  "model_id,brand_name,model_name,date,device,gender,age_group,ratio" +:+ lineterminator +:+
  "5,Kia,K5,2025-03-15,pc,m,,12.5" +:+ lineterminator +:+
  "5,Kia,K5,2025-04-15,pc,m,,nan" +:+ lineterminator.

Definition ex_nan_reader : list (gmap string (option string)) :=
  [Normalizer.raw_row "5" "2025-03-15" "pc" "m" "12.5";
   Normalizer.raw_row "5" "2025-04-15" "pc" "m" "nan"].

Definition ex_nan_world : world := World {[ raw_path [] "r1" := ex_nan_text ]} [] [] 3.

Definition ex_nan_row : norm_row := NormRow 5 "2025-04-01" "pc" "m" "" DNan.

Lemma normalize_then_load_not_finite_witness :
  run (Loader.load_detail [] "r1") (final (run (normalize_detail [] "r1") ex_nan_world))
  = ([Loader.INFO_start (out_path [] "r1")],
     final (run (normalize_detail [] "r1") ex_nan_world), Raise DbError).
Proof.
  apply (normalize_then_load_not_finite [] "r1" ex_nan_world
           (printed (run (normalize_detail [] "r1") ex_nan_world)) _ _
           ex_nan_text ex_nan_reader ex_nan_row); try reflexivity.
  right. left.
Defined.

(** The states of the design's example after each of the stages. *)
Definition ex_normalized : world := final (run (normalize_detail [] "r1") Normalizer.ex_world).

Definition ex_loaded : world := final (run (Loader.load_detail [] "r1") ex_normalized).

Definition ex_aggregated : world := final (run Aggregator.run_aggregate ex_loaded).

Lemma normalize_load_aggregate_witness :
  detail ex_aggregated
  = Loader.upsert_all (now Normalizer.ex_world) (stored <$> omap keep Normalizer.ex_reader)
      (detail Normalizer.ex_world)
  ∧ ∀ id mo, Aggregator.ratios_of id mo (detail ex_aggregated) ≠ [] →
      ∃ x, Aggregator.summary_view (summary ex_aggregated) !! (id, mo) = Some (Some x)
           ∧ (x * count (Aggregator.ratios_of id mo (detail ex_aggregated))
              = total (Aggregator.ratios_of id mo (detail ex_aggregated)))%Qc.
Proof.
  apply (normalize_load_aggregate [] "r1" Normalizer.ex_world Normalizer.ex_raw_text
           Normalizer.ex_reader
           (printed (run (normalize_detail [] "r1") Normalizer.ex_world)) ex_normalized
           (out_path [] "r1")
           (printed (run (Loader.load_detail [] "r1") ex_normalized)) ex_loaded
           (printed (run Aggregator.run_aggregate ex_loaded)) ex_aggregated);
    reflexivity.
Defined.

(** *** From the catalog to the summary table *)

#[local] Existing Instance Fetcher.ex_client.

Lemma ex_client_clean : clean_service.
Proof.
  intros rq s dps. cbn [Fetcher.fetch_trend Fetcher.ex_client fst].
  unfold Fetcher.ex_answer. repeat case_decide; intros [= <-]; repeat constructor;
    by intros ? [= <-].
Qed.

Lemma fetch_then_normalize_witness :
  let reader :=
    raw_rows "2025-01-01" "2025-06-30" "month"
      (Fetcher.target_models None (Some 1%Z) (Fetcher.catalog Fetcher.ex_env))
      (Fetcher.api Fetcher.ex_env) in
  run (normalize_detail [] "r1") (Fetcher.world_of Fetcher.ex_done)
  = (INFO_loading (raw_path [] "r1") :: warnings (classify_rows reader).1
       ++ [count_event (omap keep reader); INFO_saved (out_path [] "r1")],
     done_world [] "r1" (omap keep reader) (Fetcher.world_of Fetcher.ex_done),
     Ok (out_path [] "r1")).
Proof.
  apply (fetch_then_normalize [] "r1" "2025-01-01" "2025-06-30" "month" Fetcher.ex_sleep
           None (Some 1%Z) Fetcher.ex_env Fetcher.ex_events Fetcher.ex_done (Ok ()));
    [discriminate|discriminate|by repeat constructor|exact ex_client_clean|reflexivity].
Defined.

Definition ex_ratio : float := DFin false "125" 2.

Lemma fetched_point_kept_witness :
  run (normalize_row
         (zip_row Fetcher.fieldnames
            (Fetcher.point_fields (CarModel 5 "Kia" "K5") "pc" "male" "2025-03-15"
               (Fetcher.Float ex_ratio)))) ex_world
  = ([], ex_world,
     Ok (Some (NormRow 5 (month_of (strip "2025-03-15")) (strip "pc") (strip "male") ""
                 ex_ratio))).
Proof.
  apply (fetched_point_kept (CarModel 5 "Kia" "K5") "pc" "male" "2025-03-15" ex_ratio
           ex_world); [reflexivity|unfold len; simpl; lia].
Defined.

Definition ex_crawl : prog Fetcher.env event unit :=
  crawl_pipeline [] "r1" "2025-01-01" "2025-06-30" "month" Fetcher.ex_sleep
    None (Some 1%Z).

Definition ex_details : list detail_row :=
  [DetailRow 5 "2025-03-01" (Some "pc") (Some "male") None (Some (DFin false "125" 2)) 0;
   DetailRow 5 "2025-05-01" (Some "pc") (Some "male") None (Some (DFin false "1" 3)) 0].

(** The four stages on the catalog and the canned service of the
    Fetcher's example: the two points of model 5 that have a ratio end
    as two detail rows and two rows of the summary table. *)
Example crawl_pipeline_example :
  ∃ e x y,
    final (run ex_crawl Fetcher.ex_env) = e
    ∧ returned (run ex_crawl Fetcher.ex_env) = Ok ()
    ∧ files (Fetcher.world_of e) !! out_path [] "r1"
      = Some ("model_id,month,device,gender,age_group,ratio" +:+ lineterminator +:+
              "5,2025-03-01,pc,male,,12.5" +:+ lineterminator +:+
              "5,2025-05-01,pc,male,,100.0" +:+ lineterminator)
    ∧ detail (Fetcher.world_of e) = ex_details
    ∧ summary (Fetcher.world_of e)
      = [SummaryRow 5 "2025-03-01" (Some x) None None None 0;
         SummaryRow 5 "2025-05-01" (Some y) None None None 0]
    ∧ x = Q2Qc (25 # 2) ∧ y = Q2Qc 100.
Proof.
  eexists _, _, _. split; [reflexivity|]. repeat split; reflexivity.
Qed.

End Pipeline.
